(** * AGV spec extraction: candidate reconciliation and orchestration

    A shallow embedding of the decision logic of the [agv_agent] package:
    - [schema/models.py]     the candidate and canonical records,
    - [schema/normalize.py]  mapping raw vendor vocabulary to canonical fields,
    - [schema/validate.py]   the plausibility validator,
    - [agent/merge.py]       the confidence-weighted merge,
    - [agent/scoring.py]     the completeness score,
    - [agent/orchestrator.py] the tool planner and the per-document loop,
    - [extract/key_value.py] the line-based key-value extractor,
    - [extract/llm_extractor.py] the dispatch on the model backend,
    - [utils/io.py]          the enumeration of input files.

    Modelling conventions.
    - Python [float]/[int] values are rationals ([Q]); rounding, infinities
      and NaN are outside the model.  Halving and comparison, the only
      arithmetic the code performs on confidences, are exact on binary
      floats, so nothing the theorems say depends on rounding.
    - A Python [str] is a [string] of bytes (UTF-8); [lower], [strip],
      [splitlines] and the regular expression classes [\d] and [\s] act on
      the ASCII range.
    - A [dict] whose iteration order is irrelevant to the code is a [gmap];
      a [dict] whose insertion order is observable (the raw key-value table,
      the flat dictionaries produced by the extractors) is an association
      list.
    - Mutation of a candidate in place is state passing: the functions
      return the updated candidate. *)

From Stdlib Require Import Ascii String QArith.
From stdpp Require Import gmap strings list fin_maps sorting.

Local Open Scope string_scope.
Local Open Scope list_scope.

(** ** Values held by the dynamically typed field mappings *)

Inductive value : Type :=
  | VNone
  | VBool (b : bool)
  | VNum (q : Q)
  | VStr (s : string)
  | VDict (kv : list (string * string))
  | VList (l : list string).

(** [v is None] *)
Definition is_none (v : value) : bool :=
  match v with VNone => true | _ => false end.

(** [isinstance(v, (int, float))]; [bool] is a subclass of [int]. *)
Definition num_of (v : value) : option Q :=
  match v with
  | VNum q => Some q
  | VBool true => Some 1%Q
  | VBool false => Some 0%Q
  | _ => None
  end.

(** Python truthiness, as used by [a or b]. *)
Definition truthy (v : value) : bool :=
  match v with
  | VNone => false
  | VBool b => b
  | VNum q => negb (Qeq_bool q 0)
  | VStr s => negb (bool_decide (s = ""))
  | VDict kv => negb (bool_decide (kv = []))
  | VList l => negb (bool_decide (l = []))
  end.

Definition py_or (a b : value) : value := if truthy a then a else b.

(** ** schema/models.py *)

Record Evidence : Type := mkEvidence {
  snippet : option string;
  source_tool : option string;
  ev_source_id : option string
}.

Record AGVSpec : Type := mkAGVSpec {
  source_id : value;
  tool_trace : value;
  device_name : value;
  vendor : value;
  length_mm : value;
  width_mm : value;
  height_mm : value;
  payload_kg : value;
  speed_m_s : value;
  weight_kg : value;
  turning_radius_mm : value;
  lift_height_mm : value;
  _evidence : gmap string Evidence;
  _confidence : gmap string Q
}.

(** [AGVSpec()] : the dataclass defaults. *)
Definition AGVSpec_default : AGVSpec :=
  {| source_id := VNone; tool_trace := VList [];
     device_name := VNone; vendor := VNone;
     length_mm := VNone; width_mm := VNone; height_mm := VNone;
     payload_kg := VNone; speed_m_s := VNone; weight_kg := VNone;
     turning_radius_mm := VNone; lift_height_mm := VNone;
     _evidence := ∅; _confidence := ∅ |}.

Record AGVSpecCandidate : Type := mkCandidate {
  cand_source_id : string;
  tool : string;
  fields : gmap string value;
  confidence : gmap string Q;
  evidence : gmap string Evidence
}.

(** The dataclass fields of [AGVSpec] whose name does not start with an
    underscore, in declaration order. *)
Definition canonical : list string :=
  [ "source_id"; "tool_trace"; "device_name"; "vendor";
    "length_mm"; "width_mm"; "height_mm";
    "payload_kg"; "speed_m_s"; "weight_kg";
    "turning_radius_mm"; "lift_height_mm" ].

(** The canonical names that are not overwritten at the end of the merge. *)
Definition data_fields : list string :=
  [ "device_name"; "vendor";
    "length_mm"; "width_mm"; "height_mm";
    "payload_kg"; "speed_m_s"; "weight_kg";
    "turning_radius_mm"; "lift_height_mm" ].

(** [getattr(spec, name, None)] on the public attributes. *)
Definition getattr (m : AGVSpec) (name : string) : value :=
  if bool_decide (name = "source_id") then source_id m
  else if bool_decide (name = "tool_trace") then tool_trace m
  else if bool_decide (name = "device_name") then device_name m
  else if bool_decide (name = "vendor") then vendor m
  else if bool_decide (name = "length_mm") then length_mm m
  else if bool_decide (name = "width_mm") then width_mm m
  else if bool_decide (name = "height_mm") then height_mm m
  else if bool_decide (name = "payload_kg") then payload_kg m
  else if bool_decide (name = "speed_m_s") then speed_m_s m
  else if bool_decide (name = "weight_kg") then weight_kg m
  else if bool_decide (name = "turning_radius_mm") then turning_radius_mm m
  else if bool_decide (name = "lift_height_mm") then lift_height_mm m
  else VNone.

Definition set_source_id (v : value) (m : AGVSpec) : AGVSpec :=
  mkAGVSpec v (tool_trace m) (device_name m) (vendor m) (length_mm m)
    (width_mm m) (height_mm m) (payload_kg m) (speed_m_s m) (weight_kg m)
    (turning_radius_mm m) (lift_height_mm m) (_evidence m) (_confidence m).

Definition set_tool_trace (v : value) (m : AGVSpec) : AGVSpec :=
  mkAGVSpec (source_id m) v (device_name m) (vendor m) (length_mm m)
    (width_mm m) (height_mm m) (payload_kg m) (speed_m_s m) (weight_kg m)
    (turning_radius_mm m) (lift_height_mm m) (_evidence m) (_confidence m).

Definition set_evidence (e : gmap string Evidence) (m : AGVSpec) : AGVSpec :=
  mkAGVSpec (source_id m) (tool_trace m) (device_name m) (vendor m)
    (length_mm m) (width_mm m) (height_mm m) (payload_kg m) (speed_m_s m)
    (weight_kg m) (turning_radius_mm m) (lift_height_mm m) e (_confidence m).

Definition set_confidence (c : gmap string Q) (m : AGVSpec) : AGVSpec :=
  mkAGVSpec (source_id m) (tool_trace m) (device_name m) (vendor m)
    (length_mm m) (width_mm m) (height_mm m) (payload_kg m) (speed_m_s m)
    (weight_kg m) (turning_radius_mm m) (lift_height_mm m) (_evidence m) c.

(** [setattr(merged, name, v)] for a canonical name (the merge never calls
    it with another one). *)
Definition setattr (m : AGVSpec) (name : string) (v : value) : AGVSpec :=
  let e := _evidence m in
  let c := _confidence m in
  if bool_decide (name = "source_id") then set_source_id v m
  else if bool_decide (name = "tool_trace") then set_tool_trace v m
  else if bool_decide (name = "device_name") then
    mkAGVSpec (source_id m) (tool_trace m) v (vendor m) (length_mm m)
      (width_mm m) (height_mm m) (payload_kg m) (speed_m_s m) (weight_kg m)
      (turning_radius_mm m) (lift_height_mm m) e c
  else if bool_decide (name = "vendor") then
    mkAGVSpec (source_id m) (tool_trace m) (device_name m) v (length_mm m)
      (width_mm m) (height_mm m) (payload_kg m) (speed_m_s m) (weight_kg m)
      (turning_radius_mm m) (lift_height_mm m) e c
  else if bool_decide (name = "length_mm") then
    mkAGVSpec (source_id m) (tool_trace m) (device_name m) (vendor m) v
      (width_mm m) (height_mm m) (payload_kg m) (speed_m_s m) (weight_kg m)
      (turning_radius_mm m) (lift_height_mm m) e c
  else if bool_decide (name = "width_mm") then
    mkAGVSpec (source_id m) (tool_trace m) (device_name m) (vendor m)
      (length_mm m) v (height_mm m) (payload_kg m) (speed_m_s m) (weight_kg m)
      (turning_radius_mm m) (lift_height_mm m) e c
  else if bool_decide (name = "height_mm") then
    mkAGVSpec (source_id m) (tool_trace m) (device_name m) (vendor m)
      (length_mm m) (width_mm m) v (payload_kg m) (speed_m_s m) (weight_kg m)
      (turning_radius_mm m) (lift_height_mm m) e c
  else if bool_decide (name = "payload_kg") then
    mkAGVSpec (source_id m) (tool_trace m) (device_name m) (vendor m)
      (length_mm m) (width_mm m) (height_mm m) v (speed_m_s m) (weight_kg m)
      (turning_radius_mm m) (lift_height_mm m) e c
  else if bool_decide (name = "speed_m_s") then
    mkAGVSpec (source_id m) (tool_trace m) (device_name m) (vendor m)
      (length_mm m) (width_mm m) (height_mm m) (payload_kg m) v (weight_kg m)
      (turning_radius_mm m) (lift_height_mm m) e c
  else if bool_decide (name = "weight_kg") then
    mkAGVSpec (source_id m) (tool_trace m) (device_name m) (vendor m)
      (length_mm m) (width_mm m) (height_mm m) (payload_kg m) (speed_m_s m) v
      (turning_radius_mm m) (lift_height_mm m) e c
  else if bool_decide (name = "turning_radius_mm") then
    mkAGVSpec (source_id m) (tool_trace m) (device_name m) (vendor m)
      (length_mm m) (width_mm m) (height_mm m) (payload_kg m) (speed_m_s m)
      (weight_kg m) v (lift_height_mm m) e c
  else if bool_decide (name = "lift_height_mm") then
    mkAGVSpec (source_id m) (tool_trace m) (device_name m) (vendor m)
      (length_mm m) (width_mm m) (height_mm m) (payload_kg m) (speed_m_s m)
      (weight_kg m) (turning_radius_mm m) v e c
  else m.

(** ** agent/merge.py *)

(** The triple [(conf, val, evidence)] kept per field in [best]. *)
Definition best_entry : Type := Q * value * option Evidence.

Definition entry_conf (e : best_entry) : Q := e.1.1.
Definition entry_val (e : best_entry) : value := e.1.2.
Definition entry_ev (e : best_entry) : option Evidence := e.2.

(** Body of the inner loop, for one item [(field, val)] of [cand.fields]. *)
Definition merge_item (cand : AGVSpecCandidate) (field : string) (val : value)
    (best : gmap string best_entry) : gmap string best_entry :=
  if bool_decide (field ∈ canonical) then
    if is_none val then best
    else
      let conf := default 0%Q (confidence cand !! field) in
      let ev := evidence cand !! field in
      match best !! field with
      | None => <[field := (conf, val, ev)]> best
      | Some b =>
          if Qlt_le_dec (entry_conf b) conf
          then <[field := (conf, val, ev)]> best
          else best
      end
  else best.

(** [for field, val in cand.fields.items(): ...] *)
Definition merge_cand (best : gmap string best_entry) (cand : AGVSpecCandidate)
    : gmap string best_entry :=
  map_fold (merge_item cand) best (fields cand).

(** The table [best] after the loop over all candidates. *)
Definition best_table (candidates : list AGVSpecCandidate) : gmap string best_entry :=
  foldl merge_cand ∅ candidates.

(** Body of the loop that writes the winners into the record. *)
Definition write_best (field : string) (b : best_entry) (merged : AGVSpec) : AGVSpec :=
  let m1 := setattr merged field (entry_val b) in
  let m2 := match entry_ev b with
            | Some ev => set_evidence (<[field := ev]> (_evidence m1)) m1
            | None => m1
            end in
  set_confidence (<[field := entry_conf b]> (_confidence m2)) m2.

Definition merge_candidates (candidates : list AGVSpecCandidate) : AGVSpec :=
  let merged := AGVSpec_default in
  match last candidates with
  | None => merged
  | Some last_cand =>
      let best := best_table candidates in
      let merged := map_fold write_best merged best in
      let merged := set_source_id (VStr (cand_source_id last_cand)) merged in
      set_tool_trace (VList (map tool candidates)) merged
  end.

(** ** String primitives used by the normalizer and the planner *)

Definition is_upper (c : ascii) : bool :=
  let n := nat_of_ascii c in (65 <=? n)%nat && (n <=? 90)%nat.

Definition lower_ascii (c : ascii) : ascii :=
  if is_upper c then ascii_of_nat (nat_of_ascii c + 32) else c.

(** [s.lower()] *)
Fixpoint lower (s : string) : string :=
  match s with
  | EmptyString => EmptyString
  | String c rest => String (lower_ascii c) (lower rest)
  end.

(** [needle in hay] *)
Fixpoint contains (needle hay : string) : bool :=
  String.prefix needle hay ||
  match hay with
  | EmptyString => false
  | String _ rest => contains needle rest
  end.

(** [s.replace(old, new)] for a non-empty [old]; [skip] counts the
    characters of a replaced occurrence that remain to be dropped. *)
Fixpoint replace_from (old new : string) (skip : nat) (s : string) : string :=
  match s with
  | EmptyString => EmptyString
  | String c rest =>
      match skip with
      | S k => replace_from old new k rest
      | O =>
          if String.prefix old s
          then String.app new (replace_from old new (String.length old - 1) rest)
          else String c (replace_from old new 0 rest)
      end
  end.

Definition replace (old new s : string) : string := replace_from old new 0 s.

Definition is_digit (c : ascii) : bool :=
  let n := nat_of_ascii c in (48 <=? n)%nat && (n <=? 57)%nat.

Definition digit_val (c : ascii) : Z := Z.of_nat (nat_of_ascii c - 48).

Definition starts_with_digit (s : string) : bool :=
  match s with
  | String c _ => is_digit c
  | EmptyString => false
  end.

(** Whitespace removed by [str.strip()], within the ASCII range. *)
Definition py_isspace (c : ascii) : bool :=
  let n := nat_of_ascii c in
  ((9 <=? n)%nat && (n <=? 13)%nat) || ((28 <=? n)%nat && (n <=? 32)%nat).

Fixpoint lstrip (s : string) : string :=
  match s with
  | EmptyString => EmptyString
  | String c rest => if py_isspace c then lstrip rest else s
  end.

(** [s.strip()] *)
Definition strip (s : string) : string :=
  String.rev (lstrip (String.rev (lstrip s))).

(** ** schema/normalize.py *)

(** The class [\d] of the number patterns is read within the ASCII range.
    The code's [re] and [float] also take the decimal digits of other
    scripts, which this model passes over: the number functions below
    agree with the code on ASCII text, and what is said of their outcome
    on a whole text is stated for ASCII text. *)

(** The digits of the match of [\d+(\.\d+)?] at the head of [s], read as one
    integer [acc], with the number [k] of digits after the point. *)
Fixpoint read_frac (acc : Z) (k : nat) (s : string) : Z * nat :=
  match s with
  | String c rest =>
      if is_digit c then read_frac (10 * acc + digit_val c) (S k) rest
      else (acc, k)
  | EmptyString => (acc, k)
  end.

Fixpoint read_number (acc : Z) (s : string) : Z * nat :=
  match s with
  | String c rest =>
      if is_digit c then read_number (10 * acc + digit_val c) rest
      else if bool_decide (c = "."%char) && starts_with_digit rest
      then read_frac acc 0 rest
      else (acc, 0%nat)
  | EmptyString => (acc, 0%nat)
  end.

(** [float(m.group(0))] for an unsigned match at the head of [s]. *)
Definition float_of_digits (s : string) : Q :=
  let '(n, k) := read_number 0 s in
  match k with
  | O => inject_Z n
  | S _ => Qmake n (Pos.pow 10 (Pos.of_nat k))
  end.

(** [re.search(r"[-+]?\d+(\.\d+)?", s)] followed by [float]. *)
Fixpoint search_float (s : string) : option Q :=
  match s with
  | EmptyString => None
  | String c rest =>
      if is_digit c then Some (float_of_digits s)
      else if bool_decide (c = "-"%char) && starts_with_digit rest
      then Some (Qopp (float_of_digits rest))
      else if bool_decide (c = "+"%char) && starts_with_digit rest
      then Some (float_of_digits rest)
      else search_float rest
  end.

Definition _to_float (s : string) : option Q :=
  search_float (replace "," "." s).

Definition opt_num (o : option Q) : value :=
  match o with
  | Some q => VNum q
  | None => VNone
  end.

(** Scanner states of [re.findall(r"\d+(?:[.,]\d+)?", t)]. *)
Inductive scan_state : Type := Idle | InInt | InFrac.

Definition is_sep (c : ascii) : bool :=
  bool_decide (c = "."%char) || bool_decide (c = ","%char).

(** [cur] holds the characters of the match in progress, last one first. *)
Fixpoint findall_from (st : scan_state) (cur : string) (s : string) : list string :=
  match s with
  | EmptyString =>
      match st with
      | Idle => []
      | _ => [String.rev cur]
      end
  | String c rest =>
      match st with
      | Idle =>
          if is_digit c then findall_from InInt (String c EmptyString) rest
          else findall_from Idle EmptyString rest
      | InInt =>
          if is_digit c then findall_from InInt (String c cur) rest
          else if is_sep c && starts_with_digit rest
          then findall_from InFrac (String c cur) rest
          else String.rev cur :: findall_from Idle EmptyString rest
      | InFrac =>
          if is_digit c then findall_from InFrac (String c cur) rest
          else String.rev cur :: findall_from Idle EmptyString rest
      end
  end.

Definition findall_numbers (t : string) : list string :=
  findall_from Idle EmptyString t.

Definition _parse_dimensions_mm (text : string) : value * value * value :=
  let t := replace "Ã—" "x" (lower text) in
  let nums := findall_numbers t in
  match nums with
  | n0 :: n1 :: n2 :: _ =>
      (opt_num (_to_float n0), opt_num (_to_float n1), opt_num (_to_float n2))
  | _ => (VNone, VNone, VNone)
  end.

Definition dim_key (kl : string) : bool :=
  contains "abmess" kl || contains "abmasse" kl || contains "dimensions" kl.

(** [fields.get(k)] *)
Definition fget (fs : gmap string value) (k : string) : value :=
  default VNone (fs !! k).

(** [k in fields] *)
Definition has_key (fs : gmap string value) (k : string) : bool :=
  bool_decide (is_Some (fs !! k)).

(** Body of [for k, v in kv.items()]. *)
Definition normalize_kv_item (fs : gmap string value) (kv : string * string)
    : gmap string value :=
  let '(k, v) := kv in
  let kl := lower k in
  let fs :=
    if dim_key kl then
      let '(l, w, h) := _parse_dimensions_mm v in
      <["height_mm" := h]> (<["width_mm" := w]> (<["length_mm" := l]> fs))
    else fs in
  let fs :=
    if contains "trag" kl || contains "payload" kl || contains "last" kl
    then <["payload_kg" := opt_num (_to_float v)]> fs else fs in
  let fs :=
    if contains "geschwind" kl || contains "speed" kl
    then <["speed_m_s" := opt_num (_to_float v)]> fs else fs in
  let fs :=
    if contains "eigengewicht" kl || contains "weight" kl
    then <["weight_kg" := opt_num (_to_float v)]> fs else fs in
  let fs :=
    if contains "drehkreis" kl || contains "turn" kl
    then <["turning_radius_mm" := opt_num (_to_float v)]> fs else fs in
  if contains "hubh" kl || contains "lift" kl
  then <["lift_height_mm" := opt_num (_to_float v)]> fs else fs.

(** [if isinstance(fields.get(raw), str) and fields.get(canon) is None] *)
Definition fill_from_raw (raw canon : string) (fs : gmap string value)
    : gmap string value :=
  match fget fs raw with
  | VStr s =>
      if is_none (fget fs canon)
      then <[canon := opt_num (_to_float s)]> fs
      else fs
  | _ => fs
  end.

Definition set_fields (fs : gmap string value) (c : AGVSpecCandidate)
    : AGVSpecCandidate :=
  mkCandidate (cand_source_id c) (tool c) fs (confidence c) (evidence c).

Definition set_cand_confidence (cf : gmap string Q) (c : AGVSpecCandidate)
    : AGVSpecCandidate :=
  mkCandidate (cand_source_id c) (tool c) (fields c) cf (evidence c).

(** [if isinstance(kv, dict): for k, v in kv.items(): ...] *)
Definition normalize_kv (fs : gmap string value) : gmap string value :=
  match fget fs "_kv" with
  | VDict kv => foldl normalize_kv_item fs kv
  | _ => fs
  end.

(** [if "abmasse" in fields and isinstance(fields["abmasse"], str): ...] *)
Definition normalize_abmasse (fs : gmap string value) : gmap string value :=
  match fs !! "abmasse" with
  | Some (VStr s) =>
      let '(l, w, h) := _parse_dimensions_mm s in
      let fs := <["length_mm" := py_or (fget fs "length_mm") l]> fs in
      let fs := <["width_mm" := py_or (fget fs "width_mm") w]> fs in
      <["height_mm" := py_or (fget fs "height_mm") h]> fs
  | _ => fs
  end.

(** The four fallback fill-ins from the AGILOX regex fields. *)
Definition normalize_agilox (fs : gmap string value) : gmap string value :=
  let fs := fill_from_raw "max_last" "payload_kg" fs in
  let fs := fill_from_raw "eigengewicht" "weight_kg" fs in
  let fs := fill_from_raw "drehkreis" "turning_radius_mm" fs in
  fill_from_raw "max_hubhoehe" "lift_height_mm" fs.

(** Device and vendor naming; [orig] is [c.fields]. *)
Definition normalize_names (orig fs : gmap string value) : gmap string value :=
  let fs :=
    if negb (has_key fs "device_name") && has_key fs "device"
    then <["device_name" := fget fs "device"]> fs else fs in
  if negb (has_key fs "vendor") && has_key orig "vendor"
  then match orig !! "vendor" with
       | Some v => <["vendor" := v]> fs
       | None => fs
       end
  else fs.

Definition normalize_candidate (c : AGVSpecCandidate) : AGVSpecCandidate :=
  let fs := fields c in
  let fs := normalize_kv fs in
  let fs := normalize_abmasse fs in
  let fs := normalize_agilox fs in
  let fs := normalize_names (fields c) fs in
  set_fields fs c.

(** ** schema/validate.py *)

(** [penalize(key)] with the default factor 0.5. *)
Definition penalize (key : string) (cf : gmap string Q) : gmap string Q :=
  match cf !! key with
  | Some q => <[key := (q * 0.5)%Q]> cf
  | None => cf
  end.

(** [v <= 0 or v > hi] *)
Definition out_of_range (hi : Q) (v : Q) : bool :=
  Qle_bool v 0 || negb (Qle_bool v hi).

(** One plausibility check: the field [key] against the upper bound [hi]. *)
Definition check_range (f : gmap string value) (key : string) (hi : Q)
    (cf : gmap string Q) : gmap string Q :=
  match num_of (fget f key) with
  | Some v => if out_of_range hi v then penalize key cf else cf
  | None => cf
  end.

Definition validate_candidate (c : AGVSpecCandidate) : AGVSpecCandidate :=
  let f := fields c in
  let cf := check_range f "payload_kg" 100000 (confidence c) in
  let cf := foldl (fun cf dim => check_range f dim 50000 cf) cf
              ["length_mm"; "width_mm"; "height_mm"] in
  set_cand_confidence cf c.

(** ** schema/models.py: candidate constructors *)

Definition from_flat_dict (d : list (string * value)) (sid tl : string)
    : AGVSpecCandidate :=
  let fs :=
    foldl (fun (fs : gmap string value) (kv : string * value) =>
             let '(k, v) := kv in
             if bool_decide (k = "device") || bool_decide (k = "device_name")
             then <["device_name" := v]> fs
             else if bool_decide (k = "vendor") then <["vendor" := v]> fs
             else <[k := v]> fs) ∅ d in
  mkCandidate sid tl fs
    ((fun _ => 0.65%Q) <$> fs)
    ((fun _ => mkEvidence None (Some tl) (Some sid)) <$> fs).

Definition from_key_values (kv : list (string * string)) (sid tl : string)
    : AGVSpecCandidate :=
  let preview :=
    String.concat "; "
      (map (fun kv : string * string => String.app kv.1 (String.app ": " kv.2))
           (take 5 kv)) in
  mkCandidate sid tl
    {[ "_kv" := VDict kv ]}
    {[ "_kv" := 0.55%Q ]}
    {[ "_kv" := mkEvidence (Some preview) (Some tl) (Some sid) ]}.

(** ** agent/scoring.py *)

Definition CORE_FIELDS : list string :=
  [ "device_name"; "length_mm"; "width_mm"; "height_mm";
    "payload_kg"; "speed_m_s" ].

(** Body of the loop: [continue] leaves [filled] unchanged. *)
Definition score_step (spec : AGVSpec) (filled : nat) (f : string) : nat :=
  let v := getattr spec f in
  if is_none v then filled
  else match v with
       | VStr s => if bool_decide (strip s = "") then filled else S filled
       | _ => S filled
       end.

Definition filled_count (spec : AGVSpec) : nat :=
  foldl (score_step spec) 0%nat CORE_FIELDS.

Definition completeness_score (spec : AGVSpec) : Q :=
  (inject_Z (Z.of_nat (filled_count spec))
   / inject_Z (Z.of_nat (length CORE_FIELDS)))%Q.

(** ** agent/orchestrator.py *)

Definition _looks_like_agilox (text : string) : bool :=
  let t := lower text in
  contains "agilox" t || contains "nfk" t || contains "drehkreis" t
  || contains "eigengewicht" t.

Definition _tool_plan_for_text (text : string) : list string :=
  if _looks_like_agilox text
  then ["regex_agilox"; "key_value"; "llm"]
  else ["key_value"; "regex_generic"; "llm"].

(** [l[:n]] with Python's treatment of a negative bound. *)
Definition slice_to {A : Type} (n : Z) (l : list A) : list A :=
  if (0 <=? n)%Z then take (Z.to_nat n) l
  else take (length l - Z.to_nat (- n)) l.

(** [[t for t in tools if t != "llm"]] *)
Definition drop_llm (tools : list string) : list string :=
  filter (fun t => t ≠ "llm") tools.

(** The list [tools] the loop of [run_extraction_auto] iterates over. *)
Definition planned_tools (text : string) (max_steps : Z) (llm_backend : string)
    : list string :=
  let tools := _tool_plan_for_text text in
  let tools := if bool_decide (llm_backend = "none") then drop_llm tools else tools in
  slice_to max_steps tools.

(** The order of the two adjustments as the specification words it:
    truncate to the step budget, then drop the model-assisted tool. *)
Definition spec_planned_tools (text : string) (max_steps : Z) (llm_backend : string)
    : list string :=
  let tools := slice_to max_steps (_tool_plan_for_text text) in
  if bool_decide (llm_backend = "none") then drop_llm tools else tools.

(** One executed step of the loop: the tool, the cumulative candidate list
    after its candidates were appended, and the score of the trial merge. *)
Record step : Type := mkStep {
  step_tool : string;
  step_candidates : list AGVSpecCandidate;
  step_score : Q
}.

Section Orchestrator.

(** The extractors are collaborators outside the core; each is a function
    of the document text.  [llm_response text backend] is the dictionary
    that the backend [openai] or [local] yields for the text: the JSON
    object of the answer, or the empty dictionary when the backend is not
    configured or the call fails (every exception of the call is caught in
    [extract_with_llm]). *)
Variable extract_agilox_from_text : string -> list (list (string * value)).
Variable extract_features_from_text :
  string -> list string -> list (string * value).
Variable extract_key_values_from_text : string -> list (string * string).
Variable llm_response : string -> string -> list (string * value).

(** extract/llm_extractor.py: the dispatch on the backend; [None] stands
    for [raise ValueError("Unknown LLM backend")]. *)
Definition extract_with_llm (text backend : string)
    : option (list (string * value)) :=
  if bool_decide (backend = "none") then Some []
  else if bool_decide (backend = "openai") then Some (llm_response text backend)
  else if bool_decide (backend = "local") then Some (llm_response text backend)
  else None.

(** [None] stands for a raised [ValueError]: the one of [_run_tool] for an
    unknown tool, or the one of [extract_with_llm] for an unknown backend,
    which [_run_tool] lets through. *)
Definition _run_tool (tl text sid llm_backend : string)
    : option (list AGVSpecCandidate) :=
  if bool_decide (tl = "regex_agilox") then
    Some (map (fun row => from_flat_dict row sid tl)
              (extract_agilox_from_text text))
  else if bool_decide (tl = "regex_generic") then
    let wanted := ["dimensions"; "payload"; "speed"; "weight"; "turning radius"] in
    Some [from_flat_dict (extract_features_from_text text wanted) sid tl]
  else if bool_decide (tl = "key_value") then
    Some [from_key_values (extract_key_values_from_text text) sid tl]
  else if bool_decide (tl = "llm") then
    match extract_with_llm text llm_backend with
    | Some llm_out => Some [from_flat_dict llm_out sid tl]
    | None => None
    end
  else None.

(** [for step, tool in enumerate(tools, start=1): ...]; the result is the
    list of executed steps and the final cumulative candidate list. *)
Fixpoint tool_loop (text sid : string) (min_completeness : Q)
    (llm_backend : string) (tools : list string)
    (candidates : list AGVSpecCandidate)
    : option (list step * list AGVSpecCandidate) :=
  match tools with
  | [] => Some ([], candidates)
  | tl :: rest =>
      match _run_tool tl text sid llm_backend with
      | None => None
      | Some new_cands =>
          let candidates :=
            (candidates ++
             map (fun c => validate_candidate (normalize_candidate c)) new_cands)%list in
          let best := merge_candidates candidates in
          let score := completeness_score best in
          let this := mkStep tl candidates score in
          if Qle_bool min_completeness score
          then Some ([this], candidates)
          else
            match tool_loop text sid min_completeness llm_backend rest candidates with
            | None => None
            | Some (steps, final) => Some (this :: steps, final)
            end
      end
  end.

(** The body of the per-document loop of [run_extraction_auto], from the
    tool plan to the final merge. *)
Definition process_document (text sid : string) (min_completeness : Q)
    (max_steps : Z) (llm_backend : string) : option (list step * AGVSpec) :=
  let tools := planned_tools text max_steps llm_backend in
  match tool_loop text sid min_completeness llm_backend tools [] with
  | None => None
  | Some (steps, candidates) => Some (steps, merge_candidates candidates)
  end.

End Orchestrator.

(** ** utils/io.py *)

(** What the file system holds at a path: a regular file, or a directory
    with the names of its entries. *)
Inductive fs_node : Type :=
  | FsFile
  | FsDir (names : list string).

Definition ends_with (suffix s : string) : bool :=
  String.prefix (String.rev suffix) (String.rev s).

(** [p.glob("*" + suffix)], as entry names. *)
Definition glob_suffix (suffix : string) (names : list string) : list string :=
  filter (fun n => ends_with suffix n = true) names.

(** [name.rfind(".")], counted from position [i]. *)
Fixpoint rfind_dot (i : nat) (s : string) : option nat :=
  match s with
  | EmptyString => None
  | String c rest =>
      match rfind_dot (S i) rest with
      | Some j => Some j
      | None => if bool_decide (c = "."%char) then Some i else None
      end
  end.

(** [Path.stem] *)
Definition stem (name : string) : string :=
  match rfind_dot 0 name with
  | Some i =>
      if (0 <? i)%nat && (i <? String.length name - 1)%nat
      then String.substring 0 i name
      else name
  | None => name
  end.

(** [p / name] *)
Definition joinpath (p name : string) : string :=
  String.app p (String.app "/" name).

(** [sorted(...)] on the entries of one directory. *)
Definition sorted_names (names : list string) : list string :=
  merge_sort String.le names.

(** [None] stands for [raise FileNotFoundError]; otherwise the paths in the
    order they are yielded. *)
Definition iter_inputs (fs : string -> option fs_node) (p : string)
    : option (list string) :=
  match fs p with
  | Some FsFile => Some [p]
  | Some (FsDir names) =>
      let pdfs := sorted_names (glob_suffix ".pdf" names) in
      let pdf_stems : gset string := list_to_set (map stem pdfs) in
      Some (map (joinpath p) pdfs ++
            map (joinpath p)
              (filter (fun f => stem f ∉ pdf_stems)
                 (sorted_names (glob_suffix ".txt" names))))%list
  | None => None
  end.

(** ** Specification-level views of the merge *)

(** What candidate [cand] proposes for field [f], given the entry [ov] of
    its field mapping: nothing for a non-canonical name, a missing key or a
    null value, otherwise the triple the merge would record. *)
Definition propose (cand : AGVSpecCandidate) (f : string) (ov : option value)
    : option best_entry :=
  match ov with
  | Some v =>
      if bool_decide (f ∈ canonical) && negb (is_none v)
      then Some (default 0%Q (confidence cand !! f), v, evidence cand !! f)
      else None
  | None => None
  end.

Definition proposal (cand : AGVSpecCandidate) (f : string) : option best_entry :=
  propose cand f (fields cand !! f).

(** The update [if field not in best or conf > best[field][0]] on one key. *)
Definition better (acc p : option best_entry) : option best_entry :=
  match p with
  | None => acc
  | Some e =>
      match acc with
      | None => Some e
      | Some b => if Qlt_le_dec (entry_conf b) (entry_conf e) then Some e else Some b
      end
  end.

(** The winner for field [f]: the fold of [better] over the proposals. *)
Definition winner (f : string) (candidates : list AGVSpecCandidate)
    : option best_entry :=
  foldl better None (map (fun c => proposal c f) candidates).

(** [cand] proposes a non-null value for [f] with a confidence equal to [q]. *)
Definition proposes_at (f : string) (q : Q) (cand : AGVSpecCandidate) : bool :=
  match proposal cand f with
  | Some e => Qeq_bool (entry_conf e) q
  | None => false
  end.

(** [cand.confidence.get(f, 0.0)] *)
Definition conf_for (cand : AGVSpecCandidate) (f : string) : Q :=
  default 0%Q (confidence cand !! f).

(** [cand] supplies a non-null value under the name [f]. *)
Definition proposes (cand : AGVSpecCandidate) (f : string) : Prop :=
  exists v, fields cand !! f = Some v /\ v <> VNone.

(** ** The plausibility ranges *)

(** The fields the validator checks, and the upper bound of each range. *)
Definition range_keys : list string :=
  ["payload_kg"; "length_mm"; "width_mm"; "height_mm"].

Definition range_bound (key : string) : Q :=
  if bool_decide (key = "payload_kg") then 100000%Q else 50000%Q.

(** ** The completeness score as the specification words it *)

(** A core value counts when it is non-null and, for a string, non-blank
    after trimming. *)
Definition core_filled (v : value) : bool :=
  match v with
  | VNone => false
  | VStr s => negb (bool_decide (strip s = ""))
  | _ => true
  end.

(** The six core fields of a record. *)
Definition core_values (spec : AGVSpec) : list value :=
  [ device_name spec; length_mm spec; width_mm spec; height_mm spec;
    payload_kg spec; speed_m_s spec ].

(** ** Concrete inputs used as witnesses and counterexamples *)

(** A candidate as [from_flat_dict] builds it from a model answer that
    carries a key named like the record's document identifier. *)
Definition cand_with_source_id_field : AGVSpecCandidate :=
  from_flat_dict [("source_id", VStr "X")] "a.pdf" "llm".

(** A candidate built from an empty model answer. *)
Definition cand_without_fields : AGVSpecCandidate :=
  from_flat_dict [] "a.pdf" "llm".

Definition cand_payload_250 : AGVSpecCandidate :=
  from_flat_dict [("payload_kg", VNum 250)] "a.pdf" "regex_agilox".

Definition cand_payload_300 : AGVSpecCandidate :=
  from_flat_dict [("payload_kg", VNum 300)] "a.pdf" "regex_generic".

Definition cand_payload_too_heavy : AGVSpecCandidate :=
  from_flat_dict [("payload_kg", VNum 100000.01)] "a.pdf" "regex_generic".

Definition cand_payload_9999999 : AGVSpecCandidate :=
  from_flat_dict [("payload_kg", VNum 9999999)] "a.pdf" "regex_generic".

Definition kv_scenario : list (string * string) :=
  [("Abmessungen", "1500 x 800 x 1200 mm"); ("Tragfähigkeit", "500 kg")].

(** The key-value candidate of the scenario, normalized and validated. *)
Definition cand_kv_scenario : AGVSpecCandidate :=
  validate_candidate
    (normalize_candidate (from_key_values kv_scenario "a.pdf" "key_value")).

(** A directory with two PDFs and three text files, one of which shares
    its stem with a PDF. *)
Definition fs_scenario (p : string) : option fs_node :=
  if bool_decide (p = "docs")
  then Some (FsDir ["b.txt"; "b.pdf"; "notes.txt"; "a.pdf"; "a.txt.txt"])
  else if bool_decide (p = "docs/b.pdf") then Some FsFile
  else None.

(** ** schema/models.py: [AGVSpec.to_row_dict] *)

Definition opt_str (o : option string) : value :=
  match o with
  | Some s => VStr s
  | None => VNone
  end.

(** The characters of a string, each as a string of its own. *)
Fixpoint chars (s : string) : list string :=
  match s with
  | EmptyString => []
  | String c rest => String c EmptyString :: chars rest
  end.

(** [",".join(self.tool_trace) if self.tool_trace else None]; the outer
    [None] stands for the [TypeError] that [join] raises on a truthy value
    that is not iterable. *)
Definition join_tool_trace (v : value) : option value :=
  if truthy v then
    match v with
    | VList l => Some (VStr (String.concat "," l))
    | VStr s => Some (VStr (String.concat "," (chars s)))
    | VDict kv => Some (VStr (String.concat "," (map fst kv)))
    | _ => None
    end
  else Some VNone.

(** The row as a mapping from column name to value; the order of the
    columns is not modelled (no two iterations of a loop write the same
    column, so the content does not depend on the iteration order). *)
Definition to_row_dict (m : AGVSpec) : option (gmap string value) :=
  let row :=
    foldl (fun (row : gmap string value) name => <[name := getattr m name]> row)
          ∅ canonical in
  let row :=
    map_fold (fun k ev (row : gmap string value) =>
                <[String.app "source_" k := opt_str (source_tool ev)]>
                  (<[String.app "evidence_" k := opt_str (snippet ev)]> row))
             row (_evidence m) in
  let row :=
    map_fold (fun k conf (row : gmap string value) =>
                <[String.app "confidence_" k := VNum conf]> row)
             row (_confidence m) in
  match join_tool_trace (tool_trace m) with
  | Some v => Some (<["tool_trace" := v]> row)
  | None => None
  end.

(** ** extract/key_value.py *)

(** A line boundary of [str.splitlines()], within the ASCII range: line
    feed, vertical tab, form feed, carriage return and the file, group and
    record separators. *)
Definition is_linebreak (c : ascii) : bool :=
  let n := nat_of_ascii c in
  ((10 <=? n)%nat && (n <=? 13)%nat) || ((28 <=? n)%nat && (n <=? 30)%nat).

Definition push_char (c : ascii) (ls : list string) : list string :=
  match ls with
  | [] => [String c EmptyString]
  | l :: rest => String c l :: rest
  end.

(** [s.splitlines()]; [after_cr] tells that the previous character was a
    carriage return, which forms one boundary with a line feed after it. *)
Fixpoint splitlines_from (after_cr : bool) (s : string) : list string :=
  match s with
  | EmptyString => []
  | String c rest =>
      if after_cr && bool_decide (c = "010"%char) then splitlines_from false rest
      else if is_linebreak c
      then EmptyString :: splitlines_from (bool_decide (c = "013"%char)) rest
      else push_char c (splitlines_from false rest)
  end.

Definition splitlines (s : string) : list string := splitlines_from false s.

(** [line.split(":", 1)] of a line that holds a colon. *)
Fixpoint split_colon (s : string) : option (string * string) :=
  match s with
  | EmptyString => None
  | String c rest =>
      if bool_decide (c = ":"%char) then Some (EmptyString, rest)
      else match split_colon rest with
           | Some (k, v) => Some (String c k, v)
           | None => None
           end
  end.

(** [re.sub(r"\s+", " ", s)]; [in_run] tells that the previous character
    belonged to the run of whitespace being replaced. *)
Fixpoint sub_ws_from (in_run : bool) (s : string) : string :=
  match s with
  | EmptyString => EmptyString
  | String c rest =>
      if py_isspace c
      then if in_run then sub_ws_from true rest
           else String " " (sub_ws_from true rest)
      else String c (sub_ws_from false rest)
  end.

Definition sub_ws (s : string) : string := sub_ws_from false s.

(** [kv[key] = value]: an existing key keeps its position. *)
Fixpoint dict_set (key value : string) (kv : list (string * string))
    : list (string * string) :=
  match kv with
  | [] => [(key, value)]
  | (k, v) :: rest =>
      if bool_decide (k = key) then (k, value) :: rest
      else (k, v) :: dict_set key value rest
  end.

(** Body of the loop for one line; [None] is [continue]. *)
Definition kv_line (line : string) : option (string * string) :=
  let line := strip line in
  if bool_decide (line = "") || negb (contains ":" line) then None
  else
    match split_colon line with
    | None => None
    | Some (key, value) =>
        let key := strip (sub_ws key) in
        let value := strip (sub_ws value) in
        if bool_decide (key = "") || bool_decide (value = "") then None
        else if (80 <? String.length key)%nat then None
        else Some (key, value)
    end.

Definition kv_step (kv : list (string * string)) (line : string)
    : list (string * string) :=
  match kv_line line with
  | Some (key, value) => dict_set key value kv
  | None => kv
  end.

Definition extract_key_values_from_text (text : string)
    : list (string * string) :=
  foldl kv_step [] (splitlines text).

(** ** Further views used by the properties beyond the claims *)

(** A candidate with the non-canonical and the null entries of its field
    mapping removed. *)
Definition strip_junk (c : AGVSpecCandidate) : AGVSpecCandidate :=
  set_fields
    (filter (fun kv : string * value => kv.1 ∈ canonical /\ is_none kv.2 = false)
            (fields c)) c.

(** The only keys the normalizer ever writes. *)
Definition normalized_keys : list string :=
  [ "length_mm"; "width_mm"; "height_mm"; "payload_kg"; "speed_m_s";
    "weight_kg"; "turning_radius_mm"; "lift_height_mm"; "device_name" ].

(** The scalar canonical fields the key-value stage writes, each with the
    fragments of its vocabulary. *)
Definition kv_vocabulary : list (string * list string) :=
  [ ("payload_kg", ["trag"; "payload"; "last"]);
    ("speed_m_s", ["geschwind"; "speed"]);
    ("weight_kg", ["eigengewicht"; "weight"]);
    ("turning_radius_mm", ["drehkreis"; "turn"]);
    ("lift_height_mm", ["hubh"; "lift"]) ].

(** The lower-cased key holds one of the fragments. *)
Definition key_matches (frags : list string) (k : string) : bool :=
  existsb (fun f => contains f (lower k)) frags.

(** The raw AGILOX field and the canonical field it may fill in. *)
Definition agilox_fill_ins : list (string * string) :=
  [ ("max_last", "payload_kg"); ("eigengewicht", "weight_kg");
    ("drehkreis", "turning_radius_mm"); ("max_hubhoehe", "lift_height_mm") ].

(** The name under which [from_flat_dict] stores the value of an input key:
    [device] is an alias of [device_name]. *)
Definition flat_key (k : string) : string :=
  if bool_decide (k = "device") then "device_name" else k.

(** The tool identifiers [_run_tool] dispatches on. *)
Definition known_tools : list string :=
  ["regex_agilox"; "regex_generic"; "key_value"; "llm"].

(** The backends [extract_with_llm] dispatches on. *)
Definition llm_backends : list string := ["none"; "openai"; "local"].

(** The vendor markers of [_looks_like_agilox]. *)
Definition agilox_markers : list string :=
  ["agilox"; "nfk"; "drehkreis"; "eigengewicht"].

(** Some character of [s] is an ASCII digit. *)
Fixpoint has_digit (s : string) : bool :=
  match s with
  | EmptyString => false
  | String c rest => is_digit c || has_digit rest
  end.

(** A candidate holding a raw table whose dimension value has two numbers,
    beside a textual [abmasse] field. *)
Definition cand_kv_abmasse : AGVSpecCandidate :=
  mkCandidate "a.pdf" "key_value"
    (<["abmasse" := VStr "10 x 20 x 30"]>
       {[ "_kv" := VDict [("Abmessungen", "1500 x 800")] ]})
    ∅ ∅.

Definition cand_agilox_raw : AGVSpecCandidate :=
  from_flat_dict
    [("vendor", VStr "AGILOX"); ("device", VStr "ONE");
     ("max_last", VStr "1.000 kg"); ("abmasse", VStr "1510 x 800 x 1870 mm");
     ("payload_kg", VNum 750)]
    "a.pdf" "regex_agilox".

(** The text holds ASCII characters only. *)
Definition is_ascii (s : string) : bool :=
  forallb (fun c => (nat_of_ascii c <? 128)%nat) (list_ascii_of_string s).


Definition starts_ws (s : string) : bool :=
  match s with
  | String c _ => py_isspace c
  | EmptyString => false
  end.

Definition ends_ws (s : string) : bool := starts_ws (String.rev s).

Definition only_space_ws (s : string) : bool :=
  forallb (fun c => negb (py_isspace c) || bool_decide (c = " "%char))
          (list_ascii_of_string s).

(** The pairs accepted line by line, in the order of the lines. *)
Definition accepted_pairs (text : string) : list (string * string) :=
  omap kv_line (splitlines text).

Definition text_kv_scenario : string :=
  String.concat (String "010" "")
    ["AGV data sheet"; "  Payload :   500 kg  "; "Speed: 1.5 m/s"; "Note:";
     "Payload: 600 kg"; ": 3"].

(** * Properties *)

(** Case analysis on every conditional of the goal. *)
Ltac case_ifs :=
  repeat match goal with
         | |- context [if ?b then _ else _] => destruct b
         end.


(** ** The merge, field by field *)

Lemma merge_item_lookup_ne cand i x best f :
  i ≠ f -> merge_item cand i x best !! f = best !! f.
Proof.
  intros Hne. unfold merge_item.
  case_bool_decide; [|done].
  destruct (is_none x); [done|].
  destruct (best !! i) as [b|]; [destruct (Qlt_le_dec _ _)|];
    by rewrite ?lookup_insert_ne.
Qed.

Lemma merge_item_lookup_eq cand i x best :
  merge_item cand i x best !! i = better (best !! i) (propose cand i (Some x)).
Proof.
  unfold merge_item, propose.
  case_bool_decide; simpl; [|done].
  destruct (is_none x); simpl; [done|].
  destruct (best !! i) as [b|] eqn:Hb; simpl.
  - unfold entry_conf at 2. simpl.
    destruct (Qlt_le_dec _ _); by rewrite ?lookup_insert_eq.
  - by rewrite lookup_insert_eq.
Qed.

Lemma merge_fold_lookup cand best (m : gmap string value) f :
  map_fold (merge_item cand) best m !! f
  = better (best !! f) (propose cand f (m !! f)).
Proof.
  revert f.
  apply (map_fold_weak_ind
           (fun r (m : gmap string value) =>
              forall f, r !! f = better (best !! f) (propose cand f (m !! f)))).
  - intros f. by rewrite lookup_empty.
  - intros i x m' r Hi IH f.
    destruct (decide (i = f)) as [->|Hne].
    + rewrite merge_item_lookup_eq, lookup_insert_eq, IH, Hi. done.
    + rewrite merge_item_lookup_ne, lookup_insert_ne, IH by done. done.
Qed.

Lemma merge_cand_lookup best cand f :
  merge_cand best cand !! f = better (best !! f) (proposal cand f).
Proof. apply merge_fold_lookup. Qed.

Lemma foldl_merge_cand_lookup cands best f :
  foldl merge_cand best cands !! f
  = foldl better (best !! f) (map (fun c => proposal c f) cands).
Proof.
  revert best. induction cands as [|c cands IH]; intros best; simpl; [done|].
  by rewrite IH, merge_cand_lookup.
Qed.

Lemma best_table_lookup cands f : best_table cands !! f = winner f cands.
Proof.
  unfold best_table, winner. by rewrite foldl_merge_cand_lookup, lookup_empty.
Qed.

Lemma winner_snoc f cands c :
  winner f (cands ++ [c]) = better (winner f cands) (proposal c f).
Proof. unfold winner. by rewrite map_app, foldl_app. Qed.

Lemma proposal_Some c f e :
  proposal c f = Some e <->
  f ∈ canonical /\
  exists v, fields c !! f = Some v /\ v <> VNone /\
            e = (default 0%Q (confidence c !! f), v, evidence c !! f).
Proof.
  unfold proposal, propose. split.
  - destruct (fields c !! f) as [v|]; [|done].
    case_bool_decide; simpl; [|done].
    destruct v; simpl; try done; intros [= <-]; split; eauto.
  - intros [Hc (v & -> & Hv & ->)].
    rewrite bool_decide_true by done. by destruct v.
Qed.

(** The winner is the first proposal of maximal confidence. *)
Lemma winner_spec f cands :
  match winner f cands with
  | None => forall c, c ∈ cands -> proposal c f = None
  | Some e =>
      exists pre c post,
        cands = pre ++ c :: post /\ proposal c f = Some e /\
        (forall c' e', c' ∈ pre -> proposal c' f = Some e' ->
                       (entry_conf e' < entry_conf e)%Q) /\
        (forall c' e', c' ∈ post -> proposal c' f = Some e' ->
                       (entry_conf e' <= entry_conf e)%Q)
  end.
Proof.
  induction cands as [|x cands IH] using rev_ind.
  - simpl. intros c Hc. by apply elem_of_nil in Hc.
  - rewrite winner_snoc.
    destruct (proposal x f) as [ex|] eqn:Hx; simpl.
    + destruct (winner f cands) as [b|] eqn:Hw.
      * destruct (Qlt_le_dec (entry_conf b) (entry_conf ex)) as [Hlt|Hle].
        -- exists cands, x, []. split_and!; [done|done| |].
           ++ destruct IH as (pre & c & post & -> & Hc & Hpre & Hpost).
              intros c' e' Hin He'.
              apply elem_of_app in Hin as [Hin|Hin].
              ** eapply Qlt_trans; [by eapply Hpre|done].
              ** apply elem_of_cons in Hin as [->|Hin].
                 --- by simplify_eq.
                 --- eapply Qle_lt_trans; [by eapply Hpost|done].
           ++ intros c' e' Hin. by apply elem_of_nil in Hin.
        -- destruct IH as (pre & c & post & -> & Hc & Hpre & Hpost).
           exists pre, c, (post ++ [x]). split_and!; [|done|done|].
           ++ by rewrite <- app_assoc.
           ++ intros c' e' Hin He'.
              apply elem_of_app in Hin as [Hin|Hin]; [by eapply Hpost|].
              apply list_elem_of_singleton in Hin as ->. by simplify_eq.
      * exists cands, x, []. split_and!; [done|done| |].
        -- intros c' e' Hin He'. by rewrite IH in He'.
        -- intros c' e' Hin. by apply elem_of_nil in Hin.
    + destruct (winner f cands) as [b|] eqn:Hw.
      * destruct IH as (pre & c & post & -> & Hc & Hpre & Hpost).
        exists pre, c, (post ++ [x]). split_and!; [|done|done|].
        -- by rewrite <- app_assoc.
        -- intros c' e' Hin He'.
           apply elem_of_app in Hin as [Hin|Hin]; [by eapply Hpost|].
           apply list_elem_of_singleton in Hin as ->. by simplify_eq.
      * intros c Hin. apply elem_of_app in Hin as [Hin|Hin]; [by apply IH|].
        by apply list_elem_of_singleton in Hin as ->.
Qed.

(** ** Writing the winners into the record *)

Lemma data_fields_canonical f : f ∈ data_fields -> f ∈ canonical.
Proof.
  intros Hf. unfold data_fields in Hf.
  repeat (apply elem_of_cons in Hf as [->|Hf]; [by apply (bool_decide_unpack _)|]).
  by apply elem_of_nil in Hf.
Qed.

Lemma getattr_setattr_ne m i v f :
  i ≠ f -> getattr (setattr m i v) f = getattr m f.
Proof.
  intros Hne.
  unfold setattr, set_source_id, set_tool_trace.
  repeat (case_bool_decide; [subst i; unfold getattr;
                             repeat (case_bool_decide; [by subst f|]); done|]).
  done.
Qed.

Lemma getattr_setattr_eq m f v :
  f ∈ canonical -> getattr (setattr m f v) f = v.
Proof.
  intros Hf. unfold canonical in Hf.
  repeat (apply elem_of_cons in Hf as [->|Hf]; [reflexivity|]).
  by apply elem_of_nil in Hf.
Qed.

Lemma getattr_not_canonical m f : f ∉ canonical -> getattr m f = VNone.
Proof.
  intros Hf. unfold getattr.
  repeat (case_bool_decide;
          [exfalso; apply Hf; subst f; unfold canonical; set_solver|]).
  done.
Qed.

Lemma evidence_setattr m i v : _evidence (setattr m i v) = _evidence m.
Proof. unfold setattr. repeat (case_bool_decide; [done|]). done. Qed.

Lemma confidence_setattr m i v : _confidence (setattr m i v) = _confidence m.
Proof. unfold setattr. repeat (case_bool_decide; [done|]). done. Qed.

Lemma getattr_set_evidence m e f : getattr (set_evidence e m) f = getattr m f.
Proof. done. Qed.

Lemma getattr_set_confidence m c f : getattr (set_confidence c m) f = getattr m f.
Proof. done. Qed.

Lemma getattr_write_best i b m f :
  getattr (write_best i b m) f
  = if bool_decide (i = f /\ f ∈ canonical) then entry_val b else getattr m f.
Proof.
  unfold write_best. rewrite getattr_set_confidence.
  assert (getattr (match entry_ev b with
                   | Some ev =>
                       set_evidence (<[i:=ev]> (_evidence (setattr m i (entry_val b))))
                         (setattr m i (entry_val b))
                   | None => setattr m i (entry_val b)
                   end) f = getattr (setattr m i (entry_val b)) f) as ->.
  { by destruct (entry_ev b). }
  case_bool_decide as H.
  - destruct H as [-> Hf]. by apply getattr_setattr_eq.
  - destruct (decide (i = f)) as [->|Hne].
    + rewrite !getattr_not_canonical; [done| |]; naive_solver.
    + by apply getattr_setattr_ne.
Qed.

Lemma confidence_write_best i b m :
  _confidence (write_best i b m) = <[i := entry_conf b]> (_confidence m).
Proof.
  unfold write_best. simpl. f_equal.
  destruct (entry_ev b); simpl; by rewrite confidence_setattr.
Qed.

Lemma evidence_write_best i b m :
  _evidence (write_best i b m)
  = match entry_ev b with
    | Some ev => <[i := ev]> (_evidence m)
    | None => _evidence m
    end.
Proof.
  unfold write_best. simpl.
  destruct (entry_ev b); simpl; by rewrite evidence_setattr.
Qed.

(** The record after the loop over [best.items()]. *)
Lemma write_best_fold (best : gmap string best_entry) :
  let r := map_fold write_best AGVSpec_default best in
  (forall f, f ∈ canonical ->
             getattr r f = match best !! f with
                           | Some e => entry_val e
                           | None => getattr AGVSpec_default f
                           end) /\
  (forall f, _confidence r !! f = entry_conf <$> best !! f) /\
  (forall f, _evidence r !! f = best !! f ≫= entry_ev).
Proof.
  simpl.
  apply (map_fold_weak_ind
           (fun r (m : gmap string best_entry) =>
              (forall f, f ∈ canonical ->
                 getattr r f = match m !! f with
                               | Some e => entry_val e
                               | None => getattr AGVSpec_default f
                               end) /\
              (forall f, _confidence r !! f = entry_conf <$> m !! f) /\
              (forall f, _evidence r !! f = m !! f ≫= entry_ev))).
  - split_and!; intros f; rewrite ?lookup_empty; done.
  - intros i x m r Hi (Hg & Hc & He). split_and!.
    + intros f Hf. rewrite getattr_write_best.
      case_bool_decide as H.
      * destruct H as [-> _]. by rewrite lookup_insert_eq.
      * rewrite lookup_insert_ne by naive_solver. by apply Hg.
    + intros f. rewrite confidence_write_best.
      destruct (decide (i = f)) as [->|Hne].
      * by rewrite !lookup_insert_eq.
      * rewrite !lookup_insert_ne by done. apply Hc.
    + intros f. rewrite evidence_write_best.
      destruct (decide (i = f)) as [->|Hne].
      * rewrite lookup_insert_eq. simpl.
        destruct (entry_ev x) eqn:Hx.
        -- by rewrite lookup_insert_eq.
        -- by rewrite He, Hi.
      * rewrite lookup_insert_ne by done.
        destruct (entry_ev x); rewrite ?lookup_insert_ne by done; apply He.
Qed.

(** The value of a data field of the merged record. *)
Lemma merge_getattr cands f :
  f ∈ data_fields ->
  getattr (merge_candidates cands) f
  = from_option entry_val VNone (winner f cands).
Proof.
  intros Hf. unfold merge_candidates.
  destruct (last cands) as [lc|] eqn:Hlast.
  - assert (f ∈ canonical) as Hcan by (by apply data_fields_canonical).
    destruct (write_best_fold (best_table cands)) as (Hg & _ & _).
    simpl in Hg. specialize (Hg f Hcan).
    rewrite best_table_lookup in Hg.
    assert (forall m v w, getattr (set_tool_trace v (set_source_id w m)) f = getattr m f)
      as ->.
    { intros m v w. unfold data_fields in Hf.
      repeat (apply elem_of_cons in Hf as [->|Hf]; [reflexivity|]).
      by apply elem_of_nil in Hf. }
    rewrite Hg. destruct (winner f cands); simpl; [done|].
    unfold data_fields in Hf.
    repeat (apply elem_of_cons in Hf as [->|Hf]; [reflexivity|]).
    by apply elem_of_nil in Hf.
  - apply last_None in Hlast as ->. simpl.
    unfold data_fields in Hf.
    repeat (apply elem_of_cons in Hf as [->|Hf]; [reflexivity|]).
    by apply elem_of_nil in Hf.
Qed.

Lemma merge_confidence cands f :
  _confidence (merge_candidates cands) !! f = entry_conf <$> winner f cands.
Proof.
  unfold merge_candidates.
  destruct (last cands) as [lc|] eqn:Hlast.
  - destruct (write_best_fold (best_table cands)) as (_ & Hc & _).
    simpl in *. by rewrite Hc, best_table_lookup.
  - apply last_None in Hlast as ->. done.
Qed.

Lemma merge_evidence cands f :
  _evidence (merge_candidates cands) !! f = winner f cands ≫= entry_ev.
Proof.
  unfold merge_candidates.
  destruct (last cands) as [lc|] eqn:Hlast.
  - destruct (write_best_fold (best_table cands)) as (_ & _ & He).
    simpl in *. by rewrite He, best_table_lookup.
  - apply last_None in Hlast as ->. done.
Qed.

(** ** Order sensitivity of the merge *)

Lemma elem_of_middle {A} (pre : list A) c post : c ∈ pre ++ c :: post.
Proof. apply elem_of_app. right. by left. Qed.

Lemma proposes_at_true f q c :
  proposes_at f q c = true <->
  exists e, proposal c f = Some e /\ (entry_conf e == q)%Q.
Proof.
  unfold proposes_at. destruct (proposal c f) as [e|].
  - rewrite Qeq_bool_iff. split.
    + intros He. by exists e.
    + by intros (e0 & [= <-] & He).
  - split; [done|]. by intros (e0 & ? & _).
Qed.

Lemma filter_proposes_at_head f e pre c post :
  proposal c f = Some e ->
  (forall c' e', c' ∈ pre -> proposal c' f = Some e' ->
                 (entry_conf e' < entry_conf e)%Q) ->
  filter (fun c => proposes_at f (entry_conf e) c = true) (pre ++ c :: post)
  = c :: filter (fun c => proposes_at f (entry_conf e) c = true) post.
Proof.
  intros Hc Hpre. rewrite filter_app.
  assert (filter (fun c => proposes_at f (entry_conf e) c = true) pre = []) as ->.
  { induction pre as [|x pre IH]; [done|].
    rewrite filter_cons_False.
    - apply IH. intros c' e' Hin. apply Hpre. by right.
    - intros (e' & He' & Heq)%proposes_at_true.
      specialize (Hpre x e' ltac:(left) He').
      rewrite Heq in Hpre. by apply Qlt_irrefl in Hpre. }
  simpl. rewrite filter_cons_True; [done|].
  apply proposes_at_true. exists e. split; [done|reflexivity].
Qed.

Lemma winner_le f (l : list AGVSpecCandidate) e c e' :
  winner f l = Some e -> c ∈ l -> proposal c f = Some e' ->
  (entry_conf e' <= entry_conf e)%Q.
Proof.
  intros Hw Hin Hc. pose proof (winner_spec f l) as Hs. rewrite Hw in Hs.
  destruct Hs as (pre & c0 & post & -> & Hc0 & Hpre & Hpost).
  apply elem_of_app in Hin as [Hin|Hin].
  - apply Qlt_le_weak. by eapply Hpre.
  - apply elem_of_cons in Hin as [->|Hin].
    + simplify_eq. apply Qle_refl.
    + by eapply Hpost.
Qed.

Lemma filter_eq_elem f (l1 l2 : list AGVSpecCandidate) c e :
  (forall q, filter (fun c => proposes_at f q c = true) l1
             = filter (fun c => proposes_at f q c = true) l2) ->
  c ∈ l1 -> proposal c f = Some e -> c ∈ l2.
Proof.
  intros Hf Hin Hc.
  assert (c ∈ filter (fun c => proposes_at f (entry_conf e) c = true) l1) as H.
  { apply list_elem_of_filter. split; [|done].
    apply proposes_at_true. exists e. split; [done|reflexivity]. }
  rewrite Hf in H. by apply list_elem_of_filter in H as [_ ?].
Qed.

(** Two lists in which, for every confidence level, the proposers of [f] at
    that level form the same sequence have the same winner for [f]. *)
Lemma winner_order_insensitive f (l1 l2 : list AGVSpecCandidate) :
  (forall q, filter (fun c => proposes_at f q c = true) l1
             = filter (fun c => proposes_at f q c = true) l2) ->
  winner f l1 = winner f l2.
Proof.
  intros Hf.
  pose proof (winner_spec f l1) as H1. pose proof (winner_spec f l2) as H2.
  destruct (winner f l1) as [e1|] eqn:Hw1, (winner f l2) as [e2|] eqn:Hw2.
  - destruct H1 as (pre1 & c1 & post1 & E1 & Hc1 & Hpre1 & Hpost1).
    destruct H2 as (pre2 & c2 & post2 & E2 & Hc2 & Hpre2 & Hpost2).
    assert (entry_conf e1 <= entry_conf e2)%Q as Hle12.
    { eapply (winner_le f l2); [done| |done].
      eapply (filter_eq_elem f l1 l2); [done| |done].
      rewrite E1. apply elem_of_middle. }
    assert (entry_conf e2 <= entry_conf e1)%Q as Hle21.
    { eapply (winner_le f l1); [done| |done].
      eapply (filter_eq_elem f l2 l1); [done| |done].
      rewrite E2. apply elem_of_middle. }
    assert (entry_conf e2 == entry_conf e1)%Q as Heq by (by apply Qle_antisym).
    pose proof (Hf (entry_conf e1)) as Hq.
    rewrite E1 in Hq at 1. rewrite (filter_proposes_at_head f e1) in Hq by done.
    assert (filter (fun c => proposes_at f (entry_conf e1) c = true) l2
            = filter (fun c => proposes_at f (entry_conf e2) c = true) l2) as Hsw.
    { apply list_filter_iff. intros c. rewrite !proposes_at_true.
      split; intros (e & ? & He); exists e; split; try done.
      - by rewrite He, Heq.
      - by rewrite He, Heq. }
    rewrite Hsw, E2 in Hq.
    rewrite (filter_proposes_at_head f e2) in Hq by done.
    injection Hq as Hq _. subst c2. congruence.
  - exfalso. destruct H1 as (pre1 & c1 & post1 & E1 & Hc1 & _).
    rewrite (H2 c1) in Hc1; [done|].
    eapply (filter_eq_elem f l1 l2); [done| |done]. rewrite E1. apply elem_of_middle.
  - exfalso. destruct H2 as (pre2 & c2 & post2 & E2 & Hc2 & _).
    rewrite (H1 c2) in Hc2; [done|].
    eapply (filter_eq_elem f l2 l1); [done| |done]. rewrite E2. apply elem_of_middle.
  - done.
Qed.

Lemma winner_Some_iff f cands :
  is_Some (winner f cands) <-> f ∈ canonical /\ exists c, c ∈ cands /\ proposes c f.
Proof.
  pose proof (winner_spec f cands) as Hs. split.
  - intros [e He]. rewrite He in Hs.
    destruct Hs as (pre & c & post & -> & Hc & _).
    apply proposal_Some in Hc as (Hcan & v & Hv & Hnn & _).
    split; [done|]. exists c. split; [apply elem_of_middle|]. by exists v.
  - intros (Hcan & c & Hin & v & Hv & Hnn).
    destruct (winner f cands) as [e|]; [eauto|].
    specialize (Hs c Hin).
    assert (proposal c f = Some (default 0%Q (confidence c !! f), v, evidence c !! f)) as H.
    { apply proposal_Some. eauto. }
    congruence.
Qed.

(** ** The merged record: first proposer at the maximal confidence *)

Lemma proposes_proposal c f :
  f ∈ canonical ->
  proposes c f <->
  exists v, v <> VNone /\ fields c !! f = Some v /\
            proposal c f = Some (conf_for c f, v, evidence c !! f).
Proof.
  intros Hcan. unfold proposes. split.
  - intros (v & Hv & Hnn). exists v. split_and!; [done..|].
    apply proposal_Some. split; [done|]. by exists v.
  - intros (v & Hnn & Hv & _). by exists v.
Qed.

(** C1 (amended to the canonical fields other than [source_id] and
    [tool_trace]).  For every candidate list and every such field [f]:
    the field is populated on the merged record exactly when some candidate
    supplies a non-null value under the name [f]; in that case the list
    splits around a candidate [c] whose value, evidence and confidence
    (0.0 when it records none) are the ones stored, every proposer before
    [c] has a strictly lower confidence and every proposer after it has a
    confidence that is not higher; when nobody proposes, the side maps have
    no entry for [f]; and any permutation of the list that keeps, for each
    confidence level, the sequence of proposers at that level leaves the
    value, evidence and confidence stored for [f] unchanged. *)
Theorem merge_candidates_first_max (cands : list AGVSpecCandidate) (f : string) :
  f ∈ data_fields ->
  (getattr (merge_candidates cands) f <> VNone
   <-> exists c, c ∈ cands /\ proposes c f) /\
  ((exists c, c ∈ cands /\ proposes c f) ->
   exists pre c post v,
     cands = pre ++ c :: post /\
     fields c !! f = Some v /\ v <> VNone /\
     getattr (merge_candidates cands) f = v /\
     _evidence (merge_candidates cands) !! f = evidence c !! f /\
     _confidence (merge_candidates cands) !! f = Some (conf_for c f) /\
     (forall c', c' ∈ pre -> proposes c' f -> (conf_for c' f < conf_for c f)%Q) /\
     (forall c', c' ∈ post -> proposes c' f -> (conf_for c' f <= conf_for c f)%Q)) /\
  ((~ exists c, c ∈ cands /\ proposes c f) ->
   _evidence (merge_candidates cands) !! f = None /\
   _confidence (merge_candidates cands) !! f = None) /\
  (forall cands',
     cands ≡ₚ cands' ->
     (forall q, filter (fun c => proposes_at f q c = true) cands
                = filter (fun c => proposes_at f q c = true) cands') ->
     getattr (merge_candidates cands') f = getattr (merge_candidates cands) f /\
     _evidence (merge_candidates cands') !! f
     = _evidence (merge_candidates cands) !! f /\
     _confidence (merge_candidates cands') !! f
     = _confidence (merge_candidates cands) !! f).
Proof.
  intros Hf. pose proof (data_fields_canonical f Hf) as Hcan.
  pose proof (winner_spec f cands) as Hs.
  pose proof (winner_Some_iff f cands) as Hiff.
  split_and!.
  - rewrite merge_getattr by done. split.
    + intros Hnn. apply Hiff. destruct (winner f cands); [eauto|done].
    + intros Hex. destruct Hiff as [_ Hiff].
      destruct Hiff as [e He]; [done|]. rewrite He in *. simpl.
      destruct Hs as (pre & c & post & _ & Hc & _).
      apply proposal_Some in Hc as (_ & v & _ & Hnn & ->). done.
  - intros Hex. destruct Hiff as [_ Hiff].
    destruct Hiff as [e He]; [done|]. rewrite He in Hs.
    destruct Hs as (pre & c & post & -> & Hc & Hpre & Hpost).
    pose proof Hc as Hc'.
    apply proposal_Some in Hc' as (_ & v & Hv & Hnn & ->).
    exists pre, c, post, v.
    rewrite merge_getattr, merge_evidence, merge_confidence, He by done.
    split_and!; try done.
    + intros c' Hin (v' & Hnn' & Hv' & Hp')%proposes_proposal; [|done].
      exact (Hpre _ _ Hin Hp').
    + intros c' Hin (v' & Hnn' & Hv' & Hp')%proposes_proposal; [|done].
      exact (Hpost _ _ Hin Hp').
  - intros Hno. rewrite merge_evidence, merge_confidence.
    destruct (winner f cands) as [e|] eqn:He; [|done].
    exfalso. apply Hno. apply Hiff. eauto.
  - intros cands' _ Hfil.
    rewrite !merge_getattr, !merge_evidence, !merge_confidence by done.
    by rewrite (winner_order_insensitive f cands cands').
Qed.

Lemma merge_candidates_first_max_witness :
  "payload_kg" ∈ data_fields /\
  (getattr (merge_candidates [cand_payload_250; cand_payload_300]) "payload_kg"
   <> VNone
   <-> exists c, c ∈ [cand_payload_250; cand_payload_300]
                 /\ proposes c "payload_kg").
Proof.
  assert ("payload_kg" ∈ data_fields) as H by (by apply (bool_decide_unpack _)).
  split; [exact H|].
  exact (proj1 (merge_candidates_first_max
                  [cand_payload_250; cand_payload_300] "payload_kg" H)).
Defined.

(** C1, as stated for every canonical name, fails on [source_id]: the name
    is canonical, the only candidate proposes the value ["X"] for it with
    confidence 0.65, and the confidence side map records that proposal, yet
    the stored value is the candidate's document identifier; and a
    candidate that proposes nothing still leaves [source_id] populated. *)
Lemma merge_candidates_source_id_counterexample :
  "source_id" ∈ canonical /\
  fields cand_with_source_id_field !! "source_id" = Some (VStr "X") /\
  _confidence (merge_candidates [cand_with_source_id_field]) !! "source_id"
  = Some 0.65%Q /\
  getattr (merge_candidates [cand_with_source_id_field]) "source_id"
  = VStr "a.pdf" /\
  getattr (merge_candidates [cand_with_source_id_field]) "source_id"
  <> VStr "X" /\
  fields cand_without_fields = ∅ /\
  getattr (merge_candidates [cand_without_fields]) "source_id" = VStr "a.pdf".
Proof.
  split_and!; try (by apply (bool_decide_unpack _)); try (vm_compute; reflexivity).
  vm_compute. discriminate.
Qed.

(** ** The completeness score *)

Lemma score_step_count spec n f :
  score_step spec n f
  = (n + if core_filled (getattr spec f) then 1 else 0)%nat.
Proof.
  unfold score_step, core_filled.
  destruct (getattr spec f); simpl; try lia.
  case_bool_decide; simpl; lia.
Qed.

Lemma foldl_score_step spec n l :
  foldl (score_step spec) n l
  = (n + length (filter (fun v => core_filled v = true) (map (getattr spec) l)))%nat.
Proof.
  revert n. induction l as [|f l IH]; intros n; simpl; [lia|].
  rewrite IH, score_step_count, filter_cons.
  destruct (core_filled (getattr spec f)) eqn:Hc.
  - rewrite decide_True by done. simpl. lia.
  - rewrite decide_False by done. lia.
Qed.

Lemma core_values_getattr spec : map (getattr spec) CORE_FIELDS = core_values spec.
Proof. reflexivity. Qed.

Lemma filled_count_spec spec :
  filled_count spec
  = length (filter (fun v => core_filled v = true) (core_values spec)).
Proof.
  unfold filled_count. by rewrite foldl_score_step, core_values_getattr.
Qed.

Lemma filled_count_le spec : (filled_count spec <= 6)%nat.
Proof.
  rewrite filled_count_spec.
  etrans; [apply length_filter|]. done.
Qed.

Lemma completeness_score_frac spec :
  (completeness_score spec == Z.of_nat (filled_count spec) # 6)%Q.
Proof.
  unfold completeness_score. simpl length.
  unfold Qeq, Qdiv, Qmult, Qinv, inject_Z. simpl. lia.
Qed.

Lemma completeness_score_nonneg spec : (0 <= completeness_score spec)%Q.
Proof.
  rewrite completeness_score_frac. unfold Qle. simpl. lia.
Qed.

Lemma completeness_score_le_1 spec : (completeness_score spec <= 1)%Q.
Proof.
  rewrite completeness_score_frac. pose proof (filled_count_le spec).
  unfold Qle. simpl. lia.
Qed.


Lemma getattr_setattr_core spec f v :
  f ∉ CORE_FIELDS -> core_values (setattr spec f v) = core_values spec.
Proof.
  intros Hf. rewrite <- !core_values_getattr.
  apply map_ext_in. intros g Hg%list_elem_of_In.
  apply getattr_setattr_ne. by intros ->.
Qed.

(** C5.  The score is the number of core fields that are non-null and, for
    strings, non-blank after trimming, divided by six; it lies in [0,1];
    two records with the same six core values have the same score, so
    setting an attribute outside the core, or replacing the evidence or
    confidence side maps, leaves the score unchanged. *)
Theorem completeness_score_core_fraction (spec : AGVSpec) :
  completeness_score spec
  = (inject_Z (Z.of_nat (length (filter (fun v => core_filled v = true)
                                        (core_values spec))))
     / inject_Z 6)%Q /\
  (completeness_score spec
   == Z.of_nat (length (filter (fun v => core_filled v = true)
                               (core_values spec))) # 6)%Q /\
  (0 <= completeness_score spec)%Q /\
  (completeness_score spec <= 1)%Q /\
  (forall spec', core_values spec' = core_values spec ->
                 completeness_score spec' = completeness_score spec) /\
  (forall f v, f ∉ CORE_FIELDS ->
               completeness_score (setattr spec f v) = completeness_score spec) /\
  (forall e c, completeness_score (set_confidence c (set_evidence e spec))
               = completeness_score spec).
Proof.
  split_and!.
  - unfold completeness_score. by rewrite filled_count_spec.
  - rewrite completeness_score_frac. by rewrite filled_count_spec.
  - apply completeness_score_nonneg.
  - apply completeness_score_le_1.
  - intros spec' Heq. unfold completeness_score.
    by rewrite !filled_count_spec, Heq.
  - intros f v Hf. unfold completeness_score.
    by rewrite !filled_count_spec, getattr_setattr_core.
  - intros e c. reflexivity.
Qed.

Lemma completeness_score_core_fraction_witness :
  core_values (setattr AGVSpec_default "vendor" (VStr "AGILOX"))
  = core_values AGVSpec_default /\
  completeness_score (setattr AGVSpec_default "vendor" (VStr "AGILOX"))
  = completeness_score AGVSpec_default.
Proof.
  split; [reflexivity|].
  apply (proj1 (proj2 (proj2 (proj2 (proj2
           (completeness_score_core_fraction AGVSpec_default)))))).
  reflexivity.
Defined.

(** ** The tool plan *)

Lemma plan_cases text :
  _tool_plan_for_text text = ["regex_agilox"; "key_value"; "llm"] \/
  _tool_plan_for_text text = ["key_value"; "regex_generic"; "llm"].
Proof. unfold _tool_plan_for_text. destruct (_looks_like_agilox text); auto. Qed.

Lemma slice_to_nonneg {A} n (l : list A) :
  (0 <= n)%Z -> slice_to n l = take (Z.to_nat n) l.
Proof. intros Hn. unfold slice_to. by rewrite (proj2 (Z.leb_le 0 n)). Qed.

Lemma slice_to_prefix {A} n (l : list A) : slice_to n l `prefix_of` l.
Proof. unfold slice_to. destruct (0 <=? n)%Z; apply prefix_take. Qed.



(** ** The per-document loop *)

Section LoopFacts.

Variable ea : string -> list (list (string * value)).
Variable ef : string -> list string -> list (string * value).
Variable ek : string -> list (string * string).
Variable el : string -> string -> list (string * value).
Variables (text sid : string) (thr : Q) (backend : string).

Local Abbreviation run := (fun tl => _run_tool ea ef ek el tl text sid backend).
Local Abbreviation loop := (tool_loop ea ef ek el text sid thr backend).
Local Abbreviation processed :=
  (map (fun c => validate_candidate (normalize_candidate c))).
Local Abbreviation score_of cands := (completeness_score (merge_candidates cands)).

Lemma extract_with_llm_is_Some :
  backend ∈ llm_backends -> is_Some (extract_with_llm el text backend).
Proof.
  intros Hin. unfold llm_backends in Hin.
  repeat (apply elem_of_cons in Hin as [->|Hin]; [by eexists|]).
  by apply elem_of_nil in Hin.
Qed.

Lemma extract_with_llm_None :
  extract_with_llm el text backend = None <-> backend ∉ llm_backends.
Proof.
  split.
  - intros Hn Hin. apply extract_with_llm_is_Some in Hin as [d Hd]. congruence.
  - intros Hno. unfold extract_with_llm.
    rewrite !bool_decide_false; [done|..];
      intros ->; apply Hno; by apply (bool_decide_unpack _).
Qed.


Lemma run_None tl :
  run tl = None
  <-> tl ∉ known_tools \/ (tl = "llm" /\ backend ∉ llm_backends).
Proof.
  split.
  - intros Hrun.
    destruct (decide (tl ∈ known_tools)) as [Hin|Hno]; [|by left].
    right. unfold known_tools in Hin.
    repeat (apply elem_of_cons in Hin as [->|Hin]; [done|]).
    apply elem_of_cons in Hin as [->|Hin]; [|by apply elem_of_nil in Hin].
    split; [done|]. apply extract_with_llm_None.
    unfold _run_tool in Hrun. cbn in Hrun.
    by destruct (extract_with_llm el text backend).
  - intros [Hno|[-> Hb]].
    + unfold _run_tool.
      rewrite !bool_decide_false; [done|..];
        intros ->; apply Hno; by apply (bool_decide_unpack _).
    + apply extract_with_llm_None in Hb. unfold _run_tool. cbn. by rewrite Hb.
Qed.



Lemma tool_loop_no_candidates tools cands :
  (forall t, t ∈ tools -> run t = Some []) ->
  exists steps, loop tools cands = Some (steps, cands).
Proof.
  revert cands. induction tools as [|tl rest IH]; intros cands Hk; simpl.
  - by eexists.
  - pose proof (Hk tl ltac:(left)) as Hnew. simpl in Hnew. rewrite Hnew.
    simpl. rewrite app_nil_r.
    destruct (Qle_bool _ _); [by eexists|].
    destruct (IH cands) as [steps ->]; [|by eexists].
    intros t Ht. apply Hk. by right.
Qed.



(** Everything the list of executed steps records about one run. *)
Lemma tool_loop_trace tools cands steps final :
  loop tools cands = Some (steps, final) ->
  map step_tool steps `prefix_of` tools /\
  final = default cands (step_candidates <$> last steps) /\
  (is_Some (steps !! 0%nat) <-> (0 < length tools)%nat) /\
  (forall k st, steps !! k = Some st ->
     (exists new,
        run (step_tool st) = Some new /\
        step_candidates st
        = match k with
          | O => cands
          | S j => default [] (step_candidates <$> steps !! j)
          end ++ processed new) /\
     step_score st = score_of (step_candidates st) /\
     (is_Some (steps !! S k)
      <-> (S k < length tools)%nat /\ (step_score st < thr)%Q)).
Proof.
  revert cands steps final.
  induction tools as [|tl rest IH]; intros cands steps final; simpl.
  - intros [= <- <-]. split_and!; [done|done| |done].
    simpl. split; [by intros [? ?]|lia].
  - destruct (_run_tool ea ef ek el tl text sid backend) as [new|] eqn:Hnew;
      [|done].
    destruct (Qle_bool thr (score_of (cands ++ processed new))) eqn:Hle.
    + intros [= <- <-]. split_and!.
      * apply prefix_cons, prefix_nil.
      * done.
      * simpl. split; [lia|eauto].
      * intros [|k] st; simpl; [|done]. intros [= <-]. simpl.
        split_and!; [by exists new|done|].
        split; [by intros [? ?]|].
        intros [_ Hlt]. apply Qle_bool_iff in Hle.
        exfalso. by apply (Qlt_not_le _ _ Hlt).
    + destruct (loop rest (cands ++ processed new)) as [[steps' final']|] eqn:Hl;
        [|done].
      intros [= <- <-].
      destruct (IH _ _ _ Hl) as (Hpre & Hfin & H0 & Hk).
      split_and!.
      * simpl. by apply prefix_cons.
      * rewrite Hfin. destruct steps' as [|s1 steps'] using rev_ind; [done|].
        rewrite last_snoc.
        replace ({| step_tool := tl; step_candidates := cands ++ processed new;
                    step_score := score_of (cands ++ processed new) |}
                 :: steps' ++ [s1])
          with (({| step_tool := tl; step_candidates := cands ++ processed new;
                    step_score := score_of (cands ++ processed new) |}
                 :: steps') ++ [s1]) by done.
        by rewrite last_snoc.
      * simpl. split; [lia|eauto].
      * intros [|k] st; simpl.
        -- intros [= <-]. simpl. split_and!; [by exists new|done|].
           rewrite H0. split.
           ++ intros Hlen. split; [lia|].
              apply Qnot_le_lt. intros Hge%Qle_bool_iff. congruence.
           ++ intros [Hlen _]. lia.
        -- intros Hst. destruct (Hk k st Hst) as ((new' & Hrun & Hc) & Hs & Hnext).
           split_and!; [|done|].
           ++ exists new'. split; [done|]. rewrite Hc. by destruct k.
           ++ rewrite Hnext. split; intros [? ?]; split; (lia || done).
Qed.




Lemma tool_loop_runs_all tools cands steps final :
  loop tools cands = Some (steps, final) ->
  (forall st, st ∈ steps -> (step_score st < thr)%Q) ->
  length steps = length tools.
Proof.
  intros Hl Hlow. apply tool_loop_trace in Hl as (Hpre & _ & H0 & Hk).
  apply prefix_length in Hpre. rewrite length_map in Hpre.
  destruct (decide (length steps = length tools)) as [|Hne]; [done|].
  exfalso.
  destruct steps as [|s0 steps'] using rev_ind.
  - destruct H0 as [_ H0]. destruct H0 as [? H0]; [simpl in *; lia|done].
  - clear IHsteps'. rewrite length_app in *. simpl in *.
    assert ((steps' ++ [s0]) !! length steps' = Some s0) as Hlast.
    { by rewrite lookup_app_r, Nat.sub_diag by lia. }
    destruct (Hk _ _ Hlast) as (_ & _ & Hnext).
    destruct Hnext as [_ Hnext]. destruct Hnext as [s Hs].
    + split; [lia|]. apply Hlow. apply elem_of_app. right. by left.
    + apply lookup_lt_Some in Hs. rewrite length_app in Hs. simpl in Hs. lia.
Qed.


End LoopFacts.




(** C6.  The merge of no candidates is the default record: every canonical
    field other than the tool trace is null, the tool trace is the empty
    list, and the evidence and confidence side maps are empty.  Hence a
    document all of whose planned tools yield no candidate is processed
    without failure into that empty record. *)
Theorem merge_candidates_empty :
  merge_candidates [] = AGVSpec_default /\
  (forall f, f ∈ canonical -> f <> "tool_trace" ->
             getattr (merge_candidates []) f = VNone) /\
  tool_trace (merge_candidates []) = VList [] /\
  _evidence (merge_candidates []) = ∅ /\
  _confidence (merge_candidates []) = ∅ /\
  (forall ea ef ek el text sid thr max_steps backend,
     (forall t, t ∈ planned_tools text max_steps backend ->
                _run_tool ea ef ek el t text sid backend = Some []) ->
     exists steps,
       process_document ea ef ek el text sid thr max_steps backend
       = Some (steps, merge_candidates [])).
Proof.
  split_and!; try reflexivity.
  - intros f Hf Hne. unfold canonical in Hf.
    repeat (apply elem_of_cons in Hf as [->|Hf]; [done || reflexivity|]).
    by apply elem_of_nil in Hf.
  - intros ea ef ek el text sid thr max_steps backend Hrun.
    destruct (tool_loop_no_candidates ea ef ek el text sid thr backend
                (planned_tools text max_steps backend) [] Hrun) as [steps Hl].
    exists steps. unfold process_document. by rewrite Hl.
Qed.

Lemma merge_candidates_empty_witness :
  exists steps,
    process_document (fun _ => []) (fun _ _ => []) (fun _ => []) (fun _ _ => [])
      "AGILOX ONE" "a.pdf" 0.6%Q 1%Z "none"
    = Some (steps, merge_candidates []).
Proof.
  apply (proj2 (proj2 (proj2 (proj2 (proj2 merge_candidates_empty))))).
  intros t Ht.
  change (planned_tools "AGILOX ONE" 1 "none") with ["regex_agilox"] in Ht.
  apply list_elem_of_singleton in Ht as ->. reflexivity.
Defined.

(** ** Truncating and dropping the model-assisted tool *)

(** C8 (amended to non-negative step budgets, or a configured backend).
    The tool list the loop iterates over, obtained by dropping the
    model-assisted tool and then truncating, equals the list obtained by
    truncating first and dropping afterwards; both planner plans end with
    the model-assisted tool; and the tools of the executed steps are a
    prefix of that list, the whole of it when no trial merge reaches the
    threshold. *)
Theorem planned_tools_truncate_then_drop
    (text : string) (max_steps : Z) (backend : string) :
  (0 <= max_steps)%Z \/ backend <> "none" ->
  planned_tools text max_steps backend = spec_planned_tools text max_steps backend /\
  last (_tool_plan_for_text text) = Some "llm" /\
  (forall ea ef ek el sid thr steps final,
     tool_loop ea ef ek el text sid thr backend
       (planned_tools text max_steps backend) [] = Some (steps, final) ->
     map step_tool steps `prefix_of` spec_planned_tools text max_steps backend /\
     ((forall st, st ∈ steps -> (step_score st < thr)%Q) ->
      map step_tool steps = spec_planned_tools text max_steps backend)).
Proof.
  intros Hcase.
  assert (planned_tools text max_steps backend
          = spec_planned_tools text max_steps backend) as Heq.
  { unfold planned_tools, spec_planned_tools.
    case_bool_decide as Hb; [|done].
    destruct Hcase as [Hn|Hn]; [|done].
    rewrite !slice_to_nonneg by done.
    destruct (plan_cases text) as [E|E]; rewrite E;
      by destruct (Z.to_nat max_steps) as [|[|[|[|k]]]]. }
  split_and!.
  - done.
  - by destruct (plan_cases text) as [E|E]; rewrite E.
  - intros ea ef ek el sid thr steps final Hl. rewrite <- Heq. split.
    + by apply tool_loop_trace in Hl as (Hpre & _).
    + intros Hlow.
      pose proof (tool_loop_runs_all _ _ _ _ _ _ _ _ _ _ _ _ Hl Hlow) as Hlen.
      apply tool_loop_trace in Hl as (Hpre & _).
      apply prefix_length_eq; [done|]. rewrite length_map. lia.
Qed.

Lemma planned_tools_truncate_then_drop_witness :
  ((0 <= 2)%Z \/ "none" <> "none") /\
  planned_tools "Payload: 500 kg" 2 "none"
  = spec_planned_tools "Payload: 500 kg" 2 "none".
Proof.
  assert ((0 <= 2)%Z \/ "none" <> "none") as H by (left; lia).
  split; [exact H|].
  exact (proj1 (planned_tools_truncate_then_drop "Payload: 500 kg" 2 "none" H)).
Defined.

(** C8, as stated for every step budget, fails for a negative one: with no
    backend and a budget of -1 the loop iterates over one tool, while
    truncating before dropping leaves two.  And the tools that are executed
    are only a prefix of the list: with a threshold of 0.0 and a budget of 4
    the loop runs the first of two listed tools and stops. *)
Lemma planned_tools_negative_budget_counterexample :
  planned_tools "" (-1) "none" = ["key_value"] /\
  spec_planned_tools "" (-1) "none" = ["key_value"; "regex_generic"] /\
  planned_tools "" (-1) "none" <> spec_planned_tools "" (-1) "none" /\
  spec_planned_tools "" 4 "none" = ["key_value"; "regex_generic"] /\
  (fun r : list step * AGVSpec => map step_tool r.1)
    <$> process_document (fun _ => []) (fun _ _ => []) (fun _ => [])
          (fun _ _ => []) "" "a.txt" 0%Q 4%Z "none"
  = Some ["key_value"].
Proof.
  split_and!; [reflexivity|reflexivity| |reflexivity|by vm_compute].
  vm_compute. discriminate.
Qed.

(** ** The validator *)

Lemma penalize_lookup_ne key cf k : key ≠ k -> penalize key cf !! k = cf !! k.
Proof.
  intros Hne. unfold penalize. destruct (cf !! key); [|done].
  by rewrite lookup_insert_ne.
Qed.

Lemma penalize_lookup_eq key cf :
  penalize key cf !! key = (fun q => (q * 0.5)%Q) <$> cf !! key.
Proof.
  unfold penalize. destruct (cf !! key) as [q|] eqn:Hq; [|by rewrite Hq].
  by rewrite lookup_insert_eq.
Qed.

Lemma check_range_lookup_ne f key hi cf k :
  key ≠ k -> check_range f key hi cf !! k = cf !! k.
Proof.
  intros Hne. unfold check_range.
  destruct (num_of _); [|done]. destruct (out_of_range _ _); [|done].
  by apply penalize_lookup_ne.
Qed.

Lemma check_range_lookup_eq f key hi cf :
  check_range f key hi cf !! key
  = match num_of (fget f key) with
    | Some v =>
        if out_of_range hi v
        then (fun q => (q * 0.5)%Q) <$> cf !! key
        else cf !! key
    | None => cf !! key
    end.
Proof.
  unfold check_range.
  destruct (num_of _); [|done]. destruct (out_of_range _ _); [|done].
  apply penalize_lookup_eq.
Qed.

Lemma out_of_range_true hi v :
  out_of_range hi v = true <-> (v <= 0)%Q \/ (hi < v)%Q.
Proof.
  unfold out_of_range. rewrite orb_true_iff, negb_true_iff, Qle_bool_iff.
  split; intros [H|H]; auto; right.
  - apply Qnot_le_lt. intros Hle%Qle_bool_iff. congruence.
  - apply not_true_is_false. intros Hle%Qle_bool_iff.
    by apply (Qlt_not_le _ _ H).
Qed.

Lemma out_of_range_false hi v :
  out_of_range hi v = false <-> (0 < v)%Q /\ (v <= hi)%Q.
Proof.
  rewrite <- not_true_iff_false, out_of_range_true. split.
  - intros Hn. split.
    + apply Qnot_le_lt. intros ?. apply Hn. by left.
    + apply Qnot_lt_le. intros ?. apply Hn. by right.
  - intros [H0 Hhi] [H|H].
    + by apply (Qlt_not_le _ _ H0).
    + by apply (Qlt_not_le _ _ H).
Qed.

(** The confidence of each checked field after validation. *)
Lemma validate_confidence_checked c key :
  key ∈ range_keys ->
  confidence (validate_candidate c) !! key
  = check_range (fields c) key (range_bound key) (confidence c) !! key.
Proof.
  intros Hk. unfold validate_candidate, range_keys in *. simpl.
  repeat (apply elem_of_cons in Hk as [->|Hk];
          [rewrite ?check_range_lookup_ne by done;
           rewrite check_range_lookup_eq;
           rewrite ?check_range_lookup_ne by done;
           by rewrite <- check_range_lookup_eq|]).
  by apply elem_of_nil in Hk.
Qed.

Lemma validate_confidence_other c k :
  k ∉ range_keys -> confidence (validate_candidate c) !! k = confidence c !! k.
Proof.
  intros Hk. unfold validate_candidate. simpl.
  rewrite !check_range_lookup_ne; [done|..];
    intros <-; apply Hk; by apply (bool_decide_unpack _).
Qed.

Lemma validate_fields c : fields (validate_candidate c) = fields c.
Proof. reflexivity. Qed.

Lemma validate_evidence c : evidence (validate_candidate c) = evidence c.
Proof. reflexivity. Qed.

(** Every confidence entry is kept or halved; no key appears or vanishes. *)
Lemma validate_confidence_cases c k :
  confidence (validate_candidate c) !! k = confidence c !! k \/
  exists q, confidence c !! k = Some q /\
            confidence (validate_candidate c) !! k = Some (q * 0.5)%Q.
Proof.
  destruct (decide (k ∈ range_keys)) as [Hk|Hk].
  - rewrite validate_confidence_checked, check_range_lookup_eq by done.
    destruct (num_of _) as [x|]; [|by left].
    destruct (out_of_range _ _); [|by left].
    destruct (confidence c !! k) as [q0|]; [|by left].
    right. by exists q0.
  - left. by apply validate_confidence_other.
Qed.

Lemma check_range_unchanged f key hi cf x :
  num_of (fget f key) = Some x -> (0 < x)%Q /\ (x <= hi)%Q ->
  check_range f key hi cf !! key = cf !! key.
Proof.
  intros Hx Hin. rewrite check_range_lookup_eq, Hx.
  by rewrite (proj2 (out_of_range_false hi x) Hin).
Qed.

Lemma check_range_halved f key hi cf x :
  num_of (fget f key) = Some x -> (x <= 0)%Q \/ (hi < x)%Q ->
  check_range f key hi cf !! key = (fun q => (q * 0.5)%Q) <$> cf !! key.
Proof.
  intros Hx Hout. rewrite check_range_lookup_eq, Hx.
  by rewrite (proj2 (out_of_range_true hi x) Hout).
Qed.

(** C3.  For each checked field (payload with bound 100000, the three
    dimensions with bound 50000) holding a numeric value [x]: the field's
    confidence entry is halved when [x <= 0] or [x] exceeds the bound, and
    is left as it is when [0 < x <= bound]; a field whose value is not
    numeric keeps its confidence.  In particular a payload of exactly
    100000 is not penalized, a payload of 100000.01 is, and so is a payload
    of 0 or less. *)
Theorem validate_candidate_ranges (c : AGVSpecCandidate) :
  (forall key x,
     key ∈ range_keys -> num_of (fget (fields c) key) = Some x ->
     ((x <= 0)%Q \/ (range_bound key < x)%Q ->
      confidence (validate_candidate c) !! key
      = (fun q => (q * 0.5)%Q) <$> confidence c !! key) /\
     ((0 < x)%Q /\ (x <= range_bound key)%Q ->
      confidence (validate_candidate c) !! key = confidence c !! key)) /\
  (forall key,
     key ∈ range_keys -> num_of (fget (fields c) key) = None ->
     confidence (validate_candidate c) !! key = confidence c !! key) /\
  (range_bound "payload_kg" = 100000%Q /\ range_bound "length_mm" = 50000%Q /\
   range_bound "width_mm" = 50000%Q /\ range_bound "height_mm" = 50000%Q) /\
  (forall q, fields c !! "payload_kg" = Some (VNum 100000) ->
             confidence c !! "payload_kg" = Some q ->
             confidence (validate_candidate c) !! "payload_kg" = Some q) /\
  (forall q, fields c !! "payload_kg" = Some (VNum 100000.01) ->
             confidence c !! "payload_kg" = Some q ->
             confidence (validate_candidate c) !! "payload_kg"
             = Some (q * 0.5)%Q) /\
  (forall x q, (x <= 0)%Q ->
               fields c !! "payload_kg" = Some (VNum x) ->
               confidence c !! "payload_kg" = Some q ->
               confidence (validate_candidate c) !! "payload_kg"
               = Some (q * 0.5)%Q).
Proof.
  assert ("payload_kg" ∈ range_keys) as Hp by (by apply (bool_decide_unpack _)).
  split_and!; try reflexivity.
  - intros key x Hk Hx. rewrite validate_confidence_checked by done. split.
    + by apply check_range_halved.
    + by apply check_range_unchanged.
  - intros key Hk Hx. rewrite validate_confidence_checked by done.
    by rewrite check_range_lookup_eq, Hx.
  - intros q Hv Hq. rewrite validate_confidence_checked by done.
    rewrite (check_range_unchanged _ _ _ _ 100000%Q), Hq; [done| |done].
    unfold fget. by rewrite Hv.
  - intros q Hv Hq. rewrite validate_confidence_checked by done.
    rewrite (check_range_halved _ _ _ _ 100000.01%Q), Hq; [done| |by right].
    unfold fget. by rewrite Hv.
  - intros x q Hx Hv Hq. rewrite validate_confidence_checked by done.
    rewrite (check_range_halved _ _ _ _ x), Hq; [done| |by left].
    unfold fget. by rewrite Hv.
Qed.

Lemma validate_candidate_ranges_witness :
  fields cand_payload_too_heavy !! "payload_kg" = Some (VNum 100000.01) /\
  confidence cand_payload_too_heavy !! "payload_kg" = Some 0.65%Q /\
  confidence (validate_candidate cand_payload_too_heavy) !! "payload_kg"
  = Some (0.65 * 0.5)%Q.
Proof.
  assert (fields cand_payload_too_heavy !! "payload_kg" = Some (VNum 100000.01))
    as Hv by reflexivity.
  assert (confidence cand_payload_too_heavy !! "payload_kg" = Some 0.65%Q)
    as Hq by reflexivity.
  split_and!; [exact Hv|exact Hq|].
  exact (proj1 (proj2 (proj2 (proj2 (proj2
           (validate_candidate_ranges cand_payload_too_heavy)))))
           0.65%Q Hv Hq).
Defined.

Lemma sole_proposer_wins f (l1 l2 : list AGVSpecCandidate) c e :
  proposal c f = Some e ->
  (forall c', c' ∈ l1 ++ l2 -> proposal c' f = None) ->
  winner f (l1 ++ c :: l2) = Some e.
Proof.
  intros Hc Hnone. pose proof (winner_spec f (l1 ++ c :: l2)) as Hs.
  destruct (winner f (l1 ++ c :: l2)) as [e0|].
  - destruct Hs as (pre & c0 & post & Heq & Hc0 & _).
    assert (c0 ∈ l1 ++ c :: l2) as Hin by (rewrite Heq; apply elem_of_middle).
    apply elem_of_app in Hin as [Hin|Hin].
    + rewrite Hnone in Hc0; [done|]. apply elem_of_app. by left.
    + apply elem_of_cons in Hin as [->|Hin]; [congruence|].
      rewrite Hnone in Hc0; [done|]. apply elem_of_app. by right.
  - rewrite (Hs c) in Hc; [done|]. apply elem_of_middle.
Qed.

Lemma not_proposes_proposal c f : ~ proposes c f -> proposal c f = None.
Proof.
  intros Hn. destruct (proposal c f) as [e|] eqn:He; [|done].
  exfalso. apply Hn. apply proposal_Some in He as (_ & v & Hv & Hnn & _).
  by exists v.
Qed.

(** C7.  Validation leaves the identifiers, the field mapping and the
    evidence mapping of a candidate as they are; every confidence entry is
    either kept or halved, so a non-negative confidence never grows; and a
    value of the validated candidate, in range or not, is the merged value
    of its field whenever no other candidate proposes that field. *)
Theorem validate_candidate_keeps_values (c : AGVSpecCandidate) :
  fields (validate_candidate c) = fields c /\
  evidence (validate_candidate c) = evidence c /\
  cand_source_id (validate_candidate c) = cand_source_id c /\
  tool (validate_candidate c) = tool c /\
  (forall k,
     confidence (validate_candidate c) !! k = confidence c !! k \/
     exists q, confidence c !! k = Some q /\
               confidence (validate_candidate c) !! k = Some (q * 0.5)%Q) /\
  (forall k q q',
     confidence c !! k = Some q -> (0 <= q)%Q ->
     confidence (validate_candidate c) !! k = Some q' -> (q' <= q)%Q) /\
  (forall f v l1 l2,
     f ∈ data_fields -> fields c !! f = Some v -> v <> VNone ->
     (forall c', c' ∈ l1 ++ l2 -> ~ proposes c' f) ->
     getattr (merge_candidates (l1 ++ validate_candidate c :: l2)) f = v).
Proof.
  split_and!; try reflexivity.
  - apply validate_confidence_cases.
  - intros k q q' Hq Hpos Hq'.
    destruct (validate_confidence_cases c k) as [Heq|(q0 & Hq0 & Hh)].
    + rewrite Heq, Hq in Hq'. injection Hq' as <-. apply Qle_refl.
    + rewrite Hq in Hq0. injection Hq0 as <-.
      rewrite Hh in Hq'. injection Hq' as <-.
      unfold Qle in *. simpl in *. lia.
  - intros f v l1 l2 Hf Hv Hnn Hsole.
    rewrite merge_getattr by done.
    assert (proposal (validate_candidate c) f
            = Some (conf_for (validate_candidate c) f, v, evidence c !! f)) as Hp.
    { apply proposal_Some. split; [by apply data_fields_canonical|].
      exists v. by rewrite validate_fields. }
    rewrite (sole_proposer_wins _ _ _ _ _ Hp); [done|].
    intros c' Hin. apply not_proposes_proposal. by apply Hsole.
Qed.

Lemma validate_candidate_keeps_values_witness :
  "payload_kg" ∈ data_fields /\
  fields cand_payload_9999999 !! "payload_kg" = Some (VNum 9999999) /\
  confidence (validate_candidate cand_payload_9999999) !! "payload_kg"
  = Some (0.65 * 0.5)%Q /\
  getattr (merge_candidates ([] ++ validate_candidate cand_payload_9999999 :: []))
    "payload_kg" = VNum 9999999.
Proof.
  assert ("payload_kg" ∈ data_fields) as Hf by (by apply (bool_decide_unpack _)).
  assert (fields cand_payload_9999999 !! "payload_kg" = Some (VNum 9999999))
    as Hv by reflexivity.
  split_and!; [exact Hf|exact Hv|reflexivity|].
  apply (proj2 (proj2 (proj2 (proj2 (proj2 (proj2
           (validate_candidate_keeps_values cand_payload_9999999)))))));
    [exact Hf|exact Hv|discriminate|].
  intros c' Hin. simpl in Hin. by apply elem_of_nil in Hin.
Defined.

(** ** Candidates without a confidence entry for their fields *)

(** A proposal that is dominated by another proposer of the list does not
    influence the fold. *)
Lemma foldl_better_dominated x y ps e' :
  Some e' ∈ ps -> (entry_conf x < entry_conf e')%Q ->
  (y = None \/ exists w, y = Some w /\ (entry_conf w <= entry_conf x)%Q) ->
  foldl better (Some x) ps = foldl better y ps.
Proof.
  revert x y. induction ps as [|p ps IH]; intros x y Hin Hlt Hy.
  - by apply elem_of_nil in Hin.
  - cbn [foldl]. destruct p as [z|].
    + change (better (Some x) (Some z))
        with (if Qlt_le_dec (entry_conf x) (entry_conf z) then Some z else Some x).
      destruct (Qlt_le_dec (entry_conf x) (entry_conf z)) as [Hxz|Hzx].
      * assert (better y (Some z) = Some z) as ->; [|done].
        destruct Hy as [->|(w & -> & Hw)]; [done|]. simpl.
        destruct (Qlt_le_dec (entry_conf w) (entry_conf z)) as [|Hle]; [done|].
        exfalso. apply (Qlt_not_le _ _ Hxz). by eapply Qle_trans.
      * apply IH.
        -- apply elem_of_cons in Hin as [[= ->]|Hin]; [|done].
           exfalso. by apply (Qlt_not_le _ _ Hlt).
        -- done.
        -- right. destruct Hy as [->|(w & -> & Hw)]; simpl.
           ++ by exists z.
           ++ destruct (Qlt_le_dec (entry_conf w) (entry_conf z)); eauto.
    + simpl. apply IH; [|done|done].
      by apply elem_of_cons in Hin as [?|Hin].
Qed.

Lemma winner_app f l1 l2 :
  winner f (l1 ++ l2)
  = foldl better (winner f l1) (map (fun c => proposal c f) l2).
Proof. unfold winner. by rewrite map_app, foldl_app. Qed.

Lemma winner_drop_dominated f (l1 l2 : list AGVSpecCandidate) c c' e' :
  c' ∈ l1 ++ l2 -> proposal c' f = Some e' ->
  (forall e, proposal c f = Some e -> (entry_conf e < entry_conf e')%Q) ->
  winner f (l1 ++ c :: l2) = winner f (l1 ++ l2).
Proof.
  intros Hin Hc' Hdom.
  rewrite !winner_app. simpl.
  destruct (proposal c f) as [e|] eqn:He; [|done].
  specialize (Hdom e eq_refl).
  destruct (winner f l1) as [b|] eqn:Hw; simpl.
  - destruct (Qlt_le_dec (entry_conf b) (entry_conf e)) as [Hbe|]; [|done].
    apply (foldl_better_dominated _ _ _ e').
    + apply elem_of_app in Hin as [Hin|Hin].
      * exfalso. pose proof (winner_le f l1 b c' e' Hw Hin Hc') as Hle.
        apply (Qlt_not_le _ _ Hdom). eapply Qle_trans; [exact Hle|].
        by apply Qlt_le_weak.
      * rewrite <- Hc'. apply list_elem_of_fmap. by exists c'.
    + done.
    + right. exists b. split; [done|]. by apply Qlt_le_weak.
  - apply (foldl_better_dominated _ _ _ e').
    + apply elem_of_app in Hin as [Hin|Hin].
      * exfalso. pose proof (winner_spec f l1) as Hs. rewrite Hw in Hs.
        by rewrite (Hs c' Hin) in Hc'.
      * rewrite <- Hc'. apply list_elem_of_fmap. by exists c'.
    + done.
    + by left.
Qed.

Lemma check_range_absent f key hi cf :
  cf !! key = None -> check_range f key hi cf = cf.
Proof.
  intros Hk. unfold check_range, penalize.
  destruct (num_of _); [|done]. destruct (out_of_range _ _); [|done].
  by rewrite Hk.
Qed.

Lemma key_value_confidence kv sid tl :
  confidence (validate_candidate (normalize_candidate (from_key_values kv sid tl)))
  = {[ "_kv" := 0.55%Q ]}.
Proof.
  change (confidence (validate_candidate
                        (normalize_candidate (from_key_values kv sid tl))))
    with (foldl (fun cf dim =>
                   check_range (fields (normalize_candidate
                                          (from_key_values kv sid tl))) dim 50000 cf)
            (check_range (fields (normalize_candidate (from_key_values kv sid tl)))
               "payload_kg" 100000 {[ "_kv" := 0.55%Q ]})
            ["length_mm"; "width_mm"; "height_mm"]).
  cbn [foldl].
  rewrite (check_range_absent _ "payload_kg") by (by apply lookup_singleton_ne).
  rewrite (check_range_absent _ "length_mm") by (by apply lookup_singleton_ne).
  rewrite (check_range_absent _ "width_mm") by (by apply lookup_singleton_ne).
  by rewrite (check_range_absent _ "height_mm") by (by apply lookup_singleton_ne).
Qed.

(** C9.  A proposal is merged with confidence 0.0 when the candidate has no
    confidence entry for the field.  A candidate built by [from_key_values]
    has a single confidence entry, under ["_kv"], before and after
    normalization and validation, so each of its proposals carries
    confidence 0.0; and wherever it stands in the list, as soon as another
    candidate proposes the field with a strictly positive confidence the
    merge is the one obtained without the key-value candidate, with a
    strictly positive recorded confidence. *)
Theorem key_value_candidate_loses (kv : list (string * string)) (sid tl : string) :
  (forall c f e, proposal c f = Some e -> confidence c !! f = None ->
                 entry_conf e = 0%Q) /\
  confidence (from_key_values kv sid tl) = {[ "_kv" := 0.55%Q ]} /\
  confidence (validate_candidate (normalize_candidate (from_key_values kv sid tl)))
  = {[ "_kv" := 0.55%Q ]} /\
  (forall f e,
     proposal (validate_candidate (normalize_candidate (from_key_values kv sid tl))) f
     = Some e ->
     entry_conf e = 0%Q) /\
  (forall f l1 l2 c',
     f ∈ data_fields -> c' ∈ l1 ++ l2 -> proposes c' f ->
     (0 < conf_for c' f)%Q ->
     getattr (merge_candidates
                (l1 ++ validate_candidate
                         (normalize_candidate (from_key_values kv sid tl)) :: l2)) f
     = getattr (merge_candidates (l1 ++ l2)) f /\
     _evidence (merge_candidates
                  (l1 ++ validate_candidate
                           (normalize_candidate (from_key_values kv sid tl)) :: l2)) !! f
     = _evidence (merge_candidates (l1 ++ l2)) !! f /\
     _confidence (merge_candidates
                    (l1 ++ validate_candidate
                             (normalize_candidate (from_key_values kv sid tl)) :: l2)) !! f
     = _confidence (merge_candidates (l1 ++ l2)) !! f /\
     exists q,
       _confidence (merge_candidates
                      (l1 ++ validate_candidate
                               (normalize_candidate (from_key_values kv sid tl)) :: l2)) !! f
       = Some q /\ (0 < q)%Q).
Proof.
  assert (forall f e,
            proposal (validate_candidate
                        (normalize_candidate (from_key_values kv sid tl))) f = Some e ->
            entry_conf e = 0%Q) as Hzero.
  { intros f e (Hcan & v & _ & _ & ->)%proposal_Some.
    rewrite key_value_confidence.
    rewrite lookup_singleton_ne; [done|].
    intros <-. revert Hcan. by apply (bool_decide_unpack _). }
  split_and!.
  - intros c f e (_ & v & _ & _ & ->)%proposal_Some Hnone.
    unfold entry_conf. simpl. by rewrite Hnone.
  - reflexivity.
  - apply key_value_confidence.
  - exact Hzero.
  - intros f l1 l2 c' Hf Hin Hprop Hpos.
    pose proof (data_fields_canonical f Hf) as Hcan.
    apply proposes_proposal in Hprop as (v & Hnn & Hv & Hp); [|done].
    assert (winner f (l1 ++ validate_candidate
                             (normalize_candidate (from_key_values kv sid tl)) :: l2)
            = winner f (l1 ++ l2)) as Hw.
    { apply (winner_drop_dominated f l1 l2 _ c' _ Hin Hp).
      intros e He. by rewrite (Hzero f e He). }
    rewrite !merge_getattr, !merge_evidence, !merge_confidence, Hw by done.
    split_and!; try done.
    destruct (winner f (l1 ++ l2)) as [b|] eqn:Hb.
    + exists (entry_conf b). split; [done|].
      eapply Qlt_le_trans; [exact Hpos|].
      by apply (winner_le f (l1 ++ l2) b c' _ Hb Hin Hp).
    + exfalso. pose proof (winner_spec f (l1 ++ l2)) as Hs. rewrite Hb in Hs.
      by rewrite (Hs c' Hin) in Hp.
Qed.

Lemma key_value_candidate_loses_witness :
  ("payload_kg" ∈ data_fields /\
   cand_payload_250 ∈ [] ++ [cand_payload_250] /\
   proposes cand_payload_250 "payload_kg" /\
   (0 < conf_for cand_payload_250 "payload_kg")%Q) /\
  getattr (merge_candidates ([] ++ cand_kv_scenario :: [cand_payload_250]))
    "payload_kg"
  = getattr (merge_candidates ([] ++ [cand_payload_250])) "payload_kg".
Proof.
  assert ("payload_kg" ∈ data_fields) as Hf by (by apply (bool_decide_unpack _)).
  assert (cand_payload_250 ∈ [] ++ [cand_payload_250]) as Hin by (by left).
  assert (proposes cand_payload_250 "payload_kg") as Hp.
  { exists (VNum 250). split; [reflexivity|discriminate]. }
  assert (0 < conf_for cand_payload_250 "payload_kg")%Q as Hq by reflexivity.
  split; [by split_and!|].
  exact (proj1 (proj2 (proj2 (proj2 (proj2
           (key_value_candidate_loses kv_scenario "a.pdf" "key_value"))))
           "payload_kg" [] [cand_payload_250] cand_payload_250 Hf Hin Hp Hq)).
Defined.

(** ** The normalizer: dimensions from the raw key-value table *)

Lemma normalize_kv_item_dims fs k v :
  let p := _parse_dimensions_mm v in
  normalize_kv_item fs (k, v) !! "length_mm"
  = (if dim_key (lower k) then Some p.1.1 else fs !! "length_mm") /\
  normalize_kv_item fs (k, v) !! "width_mm"
  = (if dim_key (lower k) then Some p.1.2 else fs !! "width_mm") /\
  normalize_kv_item fs (k, v) !! "height_mm"
  = (if dim_key (lower k) then Some p.2 else fs !! "height_mm").
Proof.
  unfold normalize_kv_item. destruct (_parse_dimensions_mm v) as [[l w] h].
  simpl. destruct (dim_key (lower k)); split_and!; case_ifs;
    rewrite ?lookup_insert_ne by done; by rewrite ?lookup_insert_eq.
Qed.

Lemma normalize_kv_item_abmasse fs kv :
  normalize_kv_item fs kv !! "abmasse" = fs !! "abmasse".
Proof.
  destruct kv as [k v]. unfold normalize_kv_item.
  destruct (_parse_dimensions_mm v) as [[l w] h].
  case_ifs; by rewrite ?lookup_insert_ne by done.
Qed.

Lemma foldl_normalize_kv_abmasse kv fs :
  foldl normalize_kv_item fs kv !! "abmasse" = fs !! "abmasse".
Proof.
  revert fs. induction kv as [|x kv IH]; intros fs; cbn [foldl]; [done|].
  by rewrite IH, normalize_kv_item_abmasse.
Qed.

Lemma foldl_normalize_kv_no_dims post fs :
  (forall k' v', (k', v') ∈ post -> dim_key (lower k') = false) ->
  foldl normalize_kv_item fs post !! "length_mm" = fs !! "length_mm" /\
  foldl normalize_kv_item fs post !! "width_mm" = fs !! "width_mm" /\
  foldl normalize_kv_item fs post !! "height_mm" = fs !! "height_mm".
Proof.
  revert fs. induction post as [|[k v] post IH]; intros fs Hno; cbn [foldl];
    [done|].
  destruct (IH (normalize_kv_item fs (k, v))) as (-> & -> & ->).
  { intros k' v' Hin. apply (Hno k' v'). by right. }
  destruct (normalize_kv_item_dims fs k v) as (-> & -> & ->).
  by rewrite (Hno k v) by (by left).
Qed.

Lemma foldl_normalize_kv_last_dims pre k v post fs :
  dim_key (lower k) = true ->
  (forall k' v', (k', v') ∈ post -> dim_key (lower k') = false) ->
  let p := _parse_dimensions_mm v in
  foldl normalize_kv_item fs (pre ++ (k, v) :: post) !! "length_mm" = Some p.1.1 /\
  foldl normalize_kv_item fs (pre ++ (k, v) :: post) !! "width_mm" = Some p.1.2 /\
  foldl normalize_kv_item fs (pre ++ (k, v) :: post) !! "height_mm" = Some p.2.
Proof.
  intros Hk Hno p. rewrite foldl_app. cbn [foldl].
  destruct (foldl_normalize_kv_no_dims post
              (normalize_kv_item (foldl normalize_kv_item fs pre) (k, v)) Hno)
    as (-> & -> & ->).
  destruct (normalize_kv_item_dims (foldl normalize_kv_item fs pre) k v)
    as (-> & -> & ->).
  by rewrite Hk.
Qed.

Lemma fill_from_raw_lookup_ne raw canon fs d :
  canon ≠ d -> fill_from_raw raw canon fs !! d = fs !! d.
Proof.
  intros Hne. unfold fill_from_raw.
  destruct (fget fs raw); try done.
  destruct (is_none _); [|done]. by rewrite lookup_insert_ne.
Qed.

Lemma normalize_agilox_dims fs d :
  d ∈ ["length_mm"; "width_mm"; "height_mm"] ->
  normalize_agilox fs !! d = fs !! d.
Proof.
  intros Hd. unfold normalize_agilox.
  repeat (apply elem_of_cons in Hd as [->|Hd];
          [by rewrite !fill_from_raw_lookup_ne by done|]).
  by apply elem_of_nil in Hd.
Qed.

Lemma normalize_names_dims orig fs d :
  d ∈ ["length_mm"; "width_mm"; "height_mm"] ->
  normalize_names orig fs !! d = fs !! d.
Proof.
  intros Hd. unfold normalize_names.
  repeat (apply elem_of_cons in Hd as [->|Hd];
          [case_ifs; try destruct (orig !! "vendor");
           by rewrite ?lookup_insert_ne by done|]).
  by apply elem_of_nil in Hd.
Qed.

Lemma normalize_abmasse_skip fs :
  (forall s, fs !! "abmasse" <> Some (VStr s)) -> normalize_abmasse fs = fs.
Proof.
  intros Hno. unfold normalize_abmasse.
  destruct (fs !! "abmasse") as [[]|] eqn:E; try done.
  by destruct (Hno s).
Qed.

(** The dimension fields of a normalized candidate whose raw table has a
    last dimension-matching key: what the key-value stage writes, and what
    the later stages make of it, without and with a textual [abmasse]. *)
Lemma normalize_candidate_kv_dims c kv pre k v post :
  fields c !! "_kv" = Some (VDict kv) ->
  kv = pre ++ (k, v) :: post ->
  dim_key (lower k) = true ->
  (forall k' v', (k', v') ∈ post -> dim_key (lower k') = false) ->
  let p := _parse_dimensions_mm v in
  (normalize_kv (fields c) !! "length_mm" = Some p.1.1 /\
   normalize_kv (fields c) !! "width_mm" = Some p.1.2 /\
   normalize_kv (fields c) !! "height_mm" = Some p.2) /\
  ((forall s, fields c !! "abmasse" <> Some (VStr s)) ->
   fields (normalize_candidate c) !! "length_mm" = Some p.1.1 /\
   fields (normalize_candidate c) !! "width_mm" = Some p.1.2 /\
   fields (normalize_candidate c) !! "height_mm" = Some p.2) /\
  (forall s, fields c !! "abmasse" = Some (VStr s) ->
   fields (normalize_candidate c) !! "length_mm"
   = Some (py_or p.1.1 (_parse_dimensions_mm s).1.1) /\
   fields (normalize_candidate c) !! "width_mm"
   = Some (py_or p.1.2 (_parse_dimensions_mm s).1.2) /\
   fields (normalize_candidate c) !! "height_mm"
   = Some (py_or p.2 (_parse_dimensions_mm s).2)).
Proof.
  intros Hkv -> Hk Hno p.
  change (fields (normalize_candidate c))
    with (normalize_names (fields c)
            (normalize_agilox (normalize_abmasse (normalize_kv (fields c))))).
  assert (normalize_kv (fields c)
          = foldl normalize_kv_item (fields c) (pre ++ (k, v) :: post)) as Hn.
  { unfold normalize_kv, fget. by rewrite Hkv. }
  assert (normalize_kv (fields c) !! "length_mm" = Some p.1.1 /\
          normalize_kv (fields c) !! "width_mm" = Some p.1.2 /\
          normalize_kv (fields c) !! "height_mm" = Some p.2) as Hst.
  { rewrite Hn. by apply foldl_normalize_kv_last_dims. }
  split; [exact Hst|]. destruct Hst as (Hl & Hw & Hh). split.
  - intros Hab. rewrite normalize_abmasse_skip.
    + by rewrite !normalize_names_dims, !normalize_agilox_dims
        by (by apply (bool_decide_unpack _)).
    + intros s. by rewrite Hn, foldl_normalize_kv_abmasse.
  - intros s Hab.
    rewrite !normalize_names_dims, !normalize_agilox_dims
      by (by apply (bool_decide_unpack _)).
    unfold normalize_abmasse.
    assert (normalize_kv (fields c) !! "abmasse" = Some (VStr s)) as ->.
    { by rewrite Hn, foldl_normalize_kv_abmasse. }
    destruct (_parse_dimensions_mm s) as [[l w] h]. cbn [fst snd].
    unfold fget.
    rewrite ?(lookup_insert_ne _ "height_mm" "width_mm"),
      ?(lookup_insert_ne _ "height_mm" "length_mm"),
      ?(lookup_insert_ne _ "width_mm" "length_mm"),
      ?(lookup_insert_ne _ "width_mm" "height_mm"),
      ?(lookup_insert_ne _ "length_mm" "width_mm"),
      ?(lookup_insert_ne _ "length_mm" "height_mm") by done.
    rewrite ?Hl, ?Hw, ?Hh. cbn [default].
    split_and!; by rewrite lookup_insert_eq.
Qed.

(** ** Every match of the number pattern parses as a number *)

Lemma head_rev_app cur acc acc' :
  cur <> EmptyString ->
  starts_with_digit (String.rev_app cur acc)
  = starts_with_digit (String.rev_app cur acc').
Proof.
  revert acc acc'. induction cur as [|a cur IH]; intros acc acc' Hne; [done|].
  simpl. destruct cur as [|b cur]; [done|]. by apply IH.
Qed.

Lemma starts_with_digit_rev_cons c cur :
  starts_with_digit (String.rev cur) = true ->
  starts_with_digit (String.rev (String c cur)) = true.
Proof.
  intros H. unfold String.rev in *. simpl.
  destruct cur as [|b cur]; [done|].
  by rewrite (head_rev_app _ _ EmptyString).
Qed.

Lemma findall_from_starts_with_digit s st cur n :
  n ∈ findall_from st cur s ->
  (st <> Idle -> starts_with_digit (String.rev cur) = true) ->
  starts_with_digit n = true.
Proof.
  revert st cur. induction s as [|c rest IH]; intros st cur Hin Hinv.
  - destruct st; simpl in Hin.
    + by apply elem_of_nil in Hin.
    + apply list_elem_of_singleton in Hin as ->. by apply Hinv.
    + apply list_elem_of_singleton in Hin as ->. by apply Hinv.
  - destruct st; simpl in Hin.
    + destruct (is_digit c) eqn:Hc.
      * apply (IH _ _ Hin). intros _. done.
      * apply (IH _ _ Hin). done.
    + destruct (is_digit c) eqn:Hc.
      * apply (IH _ _ Hin). intros _. apply starts_with_digit_rev_cons. by apply Hinv.
      * destruct (is_sep c && starts_with_digit rest).
        -- apply (IH _ _ Hin). intros _.
           apply starts_with_digit_rev_cons. by apply Hinv.
        -- apply elem_of_cons in Hin as [->|Hin]; [by apply Hinv|].
           apply (IH _ _ Hin). done.
    + destruct (is_digit c) eqn:Hc.
      * apply (IH _ _ Hin). intros _. apply starts_with_digit_rev_cons. by apply Hinv.
      * apply elem_of_cons in Hin as [->|Hin]; [by apply Hinv|].
        apply (IH _ _ Hin). done.
Qed.

Lemma to_float_of_match n :
  starts_with_digit n = true -> is_Some (_to_float n).
Proof.
  destruct n as [|c rest]; [done|]. cbn [starts_with_digit]. intros Hc.
  unfold _to_float, replace. cbn [replace_from].
  assert (String.prefix "," (String c rest) = false) as ->.
  { cbn -[ascii_dec].
    destruct (ascii_dec "," c) as [<-|Hne]; [by vm_compute in Hc|done]. }
  cbn [search_float]. rewrite Hc. by eexists.
Qed.

Lemma findall_numbers_parse t n :
  n ∈ findall_numbers t -> is_Some (_to_float n).
Proof.
  intros Hin. apply to_float_of_match.
  by apply (findall_from_starts_with_digit t Idle EmptyString).
Qed.

(** C4 (amended: a textual [abmasse] field beside the table is a fallback
    that a later stage applies).  Let the raw table of a candidate have a
    last key matching the dimension vocabulary, with value [v].  The
    key-value stage writes three dimension values: if [v] contains at least
    three numbers, the first three, parsed, each a number; if it contains
    fewer, three nulls.  When the candidate carries no textual [abmasse]
    field these are the length, width and height of the normalized
    candidate: no non-null dimension results from fewer than three numbers.
    When it carries one, each dimension is the written value if that is
    truthy and the number parsed from [abmasse] otherwise.  The table of
    the scenario normalizes to length 1500, width 800, height 1200 and
    payload 500. *)
Theorem normalize_candidate_dimensions
    (c : AGVSpecCandidate) (kv pre post : list (string * string)) (k v : string) :
  fields c !! "_kv" = Some (VDict kv) ->
  kv = pre ++ (k, v) :: post ->
  dim_key (lower k) = true ->
  (forall k' v', (k', v') ∈ post -> dim_key (lower k') = false) ->
  (exists l w h,
     match findall_numbers (replace "Ã—" "x" (lower v)) with
     | n0 :: n1 :: n2 :: _ =>
         exists q0 q1 q2,
           _to_float n0 = Some q0 /\ _to_float n1 = Some q1 /\
           _to_float n2 = Some q2 /\
           l = VNum q0 /\ w = VNum q1 /\ h = VNum q2
     | _ => l = VNone /\ w = VNone /\ h = VNone
     end /\
     normalize_kv (fields c) !! "length_mm" = Some l /\
     normalize_kv (fields c) !! "width_mm" = Some w /\
     normalize_kv (fields c) !! "height_mm" = Some h /\
     ((forall s, fields c !! "abmasse" <> Some (VStr s)) ->
      fields (normalize_candidate c) !! "length_mm" = Some l /\
      fields (normalize_candidate c) !! "width_mm" = Some w /\
      fields (normalize_candidate c) !! "height_mm" = Some h) /\
     (forall s, fields c !! "abmasse" = Some (VStr s) ->
      fields (normalize_candidate c) !! "length_mm"
      = Some (py_or l (_parse_dimensions_mm s).1.1) /\
      fields (normalize_candidate c) !! "width_mm"
      = Some (py_or w (_parse_dimensions_mm s).1.2) /\
      fields (normalize_candidate c) !! "height_mm"
      = Some (py_or h (_parse_dimensions_mm s).2))) /\
  (forall sid tl,
     fields (normalize_candidate (from_key_values kv_scenario sid tl)) !! "length_mm"
     = Some (VNum 1500) /\
     fields (normalize_candidate (from_key_values kv_scenario sid tl)) !! "width_mm"
     = Some (VNum 800) /\
     fields (normalize_candidate (from_key_values kv_scenario sid tl)) !! "height_mm"
     = Some (VNum 1200) /\
     fields (normalize_candidate (from_key_values kv_scenario sid tl)) !! "payload_kg"
     = Some (VNum 500)).
Proof.
  intros Hkv Hsplit Hk Hno. split.
  - destruct (normalize_candidate_kv_dims c kv pre k v post Hkv Hsplit Hk Hno)
      as (Hst & Hfree & Hab).
    exists (_parse_dimensions_mm v).1.1, (_parse_dimensions_mm v).1.2,
           (_parse_dimensions_mm v).2.
    split; [|by split_and!; try apply Hst].
    unfold _parse_dimensions_mm.
    pose proof (findall_numbers_parse (replace "Ã—" "x" (lower v))) as Hnum.
    destruct (findall_numbers (replace "Ã—" "x" (lower v)))
      as [|n0 [|n1 [|n2 ns]]]; [done..|].
    destruct (Hnum n0) as [q0 H0]; [by left|].
    destruct (Hnum n1) as [q1 H1]; [by right; left|].
    destruct (Hnum n2) as [q2 H2]; [by right; right; left|].
    exists q0, q1, q2. by rewrite H0, H1, H2.
  - intros sid tl. split_and!; reflexivity.
Qed.

Lemma normalize_candidate_dimensions_witness :
  fields (normalize_candidate (from_key_values kv_scenario "a.pdf" "key_value"))
    !! "length_mm" = Some (VNum 1500) /\
  fields (normalize_candidate
            (from_key_values [("Dimensions", "see drawing 2")] "a.pdf" "key_value"))
    !! "length_mm" = Some VNone.
Proof.
  split.
  - destruct (normalize_candidate_dimensions
                (from_key_values kv_scenario "a.pdf" "key_value") kv_scenario
                [] [("Tragfähigkeit", "500 kg")] "Abmessungen"
                "1500 x 800 x 1200 mm") as [(l & w & h & H & _ & _ & _ & Hfree & _) _].
    + reflexivity.
    + reflexivity.
    + reflexivity.
    + intros k' v' Hin. apply list_elem_of_singleton in Hin as [= -> ->].
      reflexivity.
    + assert (findall_numbers (replace "Ã—" "x" (lower "1500 x 800 x 1200 mm"))
              = ["1500"; "800"; "1200"]) as E by reflexivity.
      rewrite E in H. destruct H as (q0 & q1 & q2 & H0 & _ & _ & -> & _).
      vm_compute in H0. injection H0 as <-.
      apply Hfree. intros s. discriminate.
  - destruct (normalize_candidate_dimensions
                (from_key_values [("Dimensions", "see drawing 2")] "a.pdf" "key_value")
                [("Dimensions", "see drawing 2")] [] [] "Dimensions" "see drawing 2")
      as [(l & w & h & H & _ & _ & _ & Hfree & _) _].
    + reflexivity.
    + reflexivity.
    + reflexivity.
    + intros k' v' Hin. by apply elem_of_nil in Hin.
    + assert (findall_numbers (replace "Ã—" "x" (lower "see drawing 2")) = ["2"])
        as E by reflexivity.
      rewrite E in H. destruct H as (-> & _).
      apply Hfree. intros s. discriminate.
Defined.

(** C4, as stated for every candidate carrying a raw table, fails for a
    candidate that also carries a textual [abmasse] field: the dimension
    value of the table holds two numbers only, and yet the normalized
    candidate has three non-null dimensions, those of [abmasse]. *)
Lemma normalize_candidate_abmasse_counterexample :
  fields cand_kv_abmasse !! "_kv" = Some (VDict [("Abmessungen", "1500 x 800")]) /\
  dim_key (lower "Abmessungen") = true /\
  findall_numbers (replace "Ã—" "x" (lower "1500 x 800")) = ["1500"; "800"] /\
  fields (normalize_candidate cand_kv_abmasse) !! "length_mm" = Some (VNum 10) /\
  fields (normalize_candidate cand_kv_abmasse) !! "width_mm" = Some (VNum 20) /\
  fields (normalize_candidate cand_kv_abmasse) !! "height_mm" = Some (VNum 30).
Proof. split_and!; reflexivity. Qed.

(** ** Enumerating the input files *)

Lemma StronglySorted_filter {A} (R : relation A) (P : A -> Prop)
    `{!forall x, Decision (P x)} (l : list A) :
  StronglySorted R l -> StronglySorted R (filter P l).
Proof.
  induction 1 as [|x l Hs IH Hall]; [constructor|].
  rewrite filter_cons. destruct (decide (P x)); [|done].
  constructor; [done|].
  apply Forall_forall. intros y [_ Hy]%list_elem_of_filter.
  by apply (proj1 (Forall_forall _ _) Hall).
Qed.

Lemma sorted_names_sorted names : StronglySorted String.le (sorted_names names).
Proof. apply StronglySorted_merge_sort; apply _. Qed.

Lemma sorted_names_perm names : sorted_names names ≡ₚ names.
Proof. apply merge_sort_Permutation. Qed.

Lemma elem_of_glob_suffix suffix names n :
  n ∈ glob_suffix suffix names <-> n ∈ names /\ ends_with suffix n = true.
Proof. unfold glob_suffix. rewrite list_elem_of_filter. tauto. Qed.

Lemma pdf_stem_shared names f :
  stem f ∈ (list_to_set (map stem (sorted_names (glob_suffix ".pdf" names)))
            : gset string)
  <-> exists g, g ∈ names /\ ends_with ".pdf" g = true /\ stem g = stem f.
Proof.
  rewrite elem_of_list_to_set. split.
  - intros (g & Heq & Hg)%list_elem_of_fmap.
    rewrite sorted_names_perm in Hg. apply elem_of_glob_suffix in Hg as [? ?].
    by exists g.
  - intros (g & Hg & Hpdf & Heq). rewrite <- Heq.
    apply list_elem_of_fmap. exists g. split; [done|].
    rewrite sorted_names_perm. by apply elem_of_glob_suffix.
Qed.

(** C10.  On a directory the paths are yielded in two runs: first every
    entry matching [*.pdf], in ascending name order, then, also in ascending
    name order, exactly those entries matching [*.txt] whose stem is not the
    stem of any [*.pdf] entry.  A path that is neither a file nor a
    directory raises the file-not-found error, and a file path is yielded
    as it is. *)
Theorem iter_inputs_directory (fs : string -> option fs_node) (p : string) :
  (forall names,
     fs p = Some (FsDir names) ->
     exists pdfs txts,
       iter_inputs fs p = Some (map (joinpath p) pdfs ++ map (joinpath p) txts) /\
       pdfs ≡ₚ glob_suffix ".pdf" names /\
       StronglySorted String.le pdfs /\
       StronglySorted String.le txts /\
       txts ≡ₚ filter (fun f => stem f ∉ map stem (glob_suffix ".pdf" names))
                 (glob_suffix ".txt" names) /\
       (forall f,
          f ∈ txts <->
          f ∈ names /\ ends_with ".txt" f = true /\
          ~ exists g, g ∈ names /\ ends_with ".pdf" g = true /\ stem g = stem f)) /\
  (fs p = None -> iter_inputs fs p = None) /\
  (fs p = Some FsFile -> iter_inputs fs p = Some [p]).
Proof.
  split_and!.
  - intros names Hdir.
    exists (sorted_names (glob_suffix ".pdf" names)),
      (filter (fun f => stem f ∉ (list_to_set
                 (map stem (sorted_names (glob_suffix ".pdf" names))) : gset string))
         (sorted_names (glob_suffix ".txt" names))).
    split_and!.
    + unfold iter_inputs. by rewrite Hdir.
    + apply sorted_names_perm.
    + apply sorted_names_sorted.
    + apply StronglySorted_filter, sorted_names_sorted.
    + rewrite (list_filter_iff
                 (fun f => stem f ∉ (list_to_set
                    (map stem (sorted_names (glob_suffix ".pdf" names))) : gset string))
                 (fun f => stem f ∉ map stem (glob_suffix ".pdf" names))).
      * by rewrite sorted_names_perm.
      * intros f. by rewrite elem_of_list_to_set, sorted_names_perm.
    + intros f. rewrite list_elem_of_filter, pdf_stem_shared.
      rewrite (sorted_names_perm (glob_suffix ".txt" names)), elem_of_glob_suffix.
      tauto.
  - intros Hnone. unfold iter_inputs. by rewrite Hnone.
  - intros Hfile. unfold iter_inputs. by rewrite Hfile.
Qed.

Lemma iter_inputs_directory_witness :
  fs_scenario "docs"
  = Some (FsDir ["b.txt"; "b.pdf"; "notes.txt"; "a.pdf"; "a.txt.txt"]) /\
  (exists pdfs txts,
     iter_inputs fs_scenario "docs"
     = Some (map (joinpath "docs") pdfs ++ map (joinpath "docs") txts) /\
     pdfs ≡ₚ glob_suffix ".pdf" ["b.txt"; "b.pdf"; "notes.txt"; "a.pdf"; "a.txt.txt"]) /\
  iter_inputs fs_scenario "docs"
  = Some ["docs/a.pdf"; "docs/b.pdf"; "docs/a.txt.txt"; "docs/notes.txt"] /\
  fs_scenario "missing" = None /\
  iter_inputs fs_scenario "missing" = None.
Proof.
  assert (fs_scenario "docs"
          = Some (FsDir ["b.txt"; "b.pdf"; "notes.txt"; "a.pdf"; "a.txt.txt"]))
    as Hdir by reflexivity.
  assert (fs_scenario "missing" = None) as Hnone by reflexivity.
  split_and!; [exact Hdir| |reflexivity|exact Hnone|].
  - destruct (proj1 (iter_inputs_directory fs_scenario "docs") _ Hdir)
      as (pdfs & txts & Hit & Hperm & _).
    exists pdfs, txts. by split.
  - exact (proj1 (proj2 (iter_inputs_directory fs_scenario "missing")) Hnone).
Defined.

(** * Further properties of the merge *)

Lemma winner_entry_val_not_none f cands e :
  winner f cands = Some e -> entry_val e <> VNone.
Proof.
  intros Hw. pose proof (winner_spec f cands) as Hs. rewrite Hw in Hs.
  destruct Hs as (pre & c & post & _ & Hc & _).
  by apply proposal_Some in Hc as (_ & v & _ & Hnn & ->).
Qed.

Lemma merge_tool_trace cands :
  tool_trace (merge_candidates cands) = VList (map tool cands).
Proof.
  unfold merge_candidates. destruct (last cands) eqn:Hl; [done|].
  by apply last_None in Hl as ->.
Qed.

Lemma merge_source_id cands c :
  last cands = Some c ->
  source_id (merge_candidates cands) = VStr (cand_source_id c).
Proof. intros Hl. unfold merge_candidates. by rewrite Hl. Qed.

(** X1.  Invariants of every merged record: the confidence side map has
    entries under canonical names only; an evidence entry never comes
    without a confidence entry; a data field is non-null exactly when a
    confidence is recorded for it; the tool trace lists the tools of all
    candidates in order, contributing or not; and the document identifier
    is the one of the last candidate. *)
Theorem merge_candidates_side_maps (cands : list AGVSpecCandidate) :
  (forall f, is_Some (_confidence (merge_candidates cands) !! f) -> f ∈ canonical) /\
  (forall f, is_Some (_evidence (merge_candidates cands) !! f) ->
             is_Some (_confidence (merge_candidates cands) !! f)) /\
  (forall f, f ∈ data_fields ->
             getattr (merge_candidates cands) f <> VNone
             <-> is_Some (_confidence (merge_candidates cands) !! f)) /\
  tool_trace (merge_candidates cands) = VList (map tool cands) /\
  (forall c, last cands = Some c ->
             source_id (merge_candidates cands) = VStr (cand_source_id c)).
Proof.
  split_and!.
  - intros f. rewrite merge_confidence, fmap_is_Some.
    by intros [Hc _]%winner_Some_iff.
  - intros f. rewrite merge_evidence, merge_confidence, fmap_is_Some.
    destruct (winner f cands); [eauto|]. by intros [? ?].
  - intros f Hf. rewrite merge_getattr, merge_confidence, fmap_is_Some by done.
    destruct (winner f cands) as [e|] eqn:He; simpl.
    + split; [eauto|]. intros _. by eapply winner_entry_val_not_none.
    + split; [done|]. by intros [? ?].
  - apply merge_tool_trace.
  - intros c. apply merge_source_id.
Qed.

Lemma merge_candidates_side_maps_witness :
  last [cand_payload_250; cand_without_fields] = Some cand_without_fields /\
  source_id (merge_candidates [cand_payload_250; cand_without_fields])
  = VStr "a.pdf".
Proof.
  assert (last [cand_payload_250; cand_without_fields] = Some cand_without_fields)
    as Hl by reflexivity.
  split; [exact Hl|].
  exact (proj2 (proj2 (proj2 (proj2
           (merge_candidates_side_maps [cand_payload_250; cand_without_fields])))) _ Hl).
Defined.

Lemma proposal_strip_junk c f : proposal (strip_junk c) f = proposal c f.
Proof.
  unfold proposal, strip_junk. simpl.
  rewrite map_lookup_filter.
  destruct (fields c !! f) as [v|] eqn:Hv; simpl; [|done].
  unfold propose. case_guard as Hg; simpl.
  - done.
  - case_bool_decide as Hc; simpl; [|done].
    destruct v; simpl; try done; exfalso; apply Hg; by split.
Qed.

Lemma merge_candidates_ext (l1 l2 : list AGVSpecCandidate) :
  map cand_source_id l1 = map cand_source_id l2 ->
  map tool l1 = map tool l2 ->
  (forall f, map (fun c => proposal c f) l1 = map (fun c => proposal c f) l2) ->
  merge_candidates l1 = merge_candidates l2.
Proof.
  intros Hsid Htool Hprop.
  assert (best_table l1 = best_table l2) as Hbest.
  { apply map_eq. intros f. rewrite !best_table_lookup. unfold winner.
    by rewrite Hprop. }
  unfold merge_candidates. rewrite Hbest, Htool.
  assert (cand_source_id <$> last l1 = cand_source_id <$> last l2) as Hlast.
  { rewrite <- !fmap_last. exact (f_equal last Hsid). }
  destruct (last l1) as [c1|], (last l2) as [c2|]; simpl in Hlast; try done.
  by injection Hlast as ->.
Qed.

(** X2.  Junk never leaks: removing from every candidate the entries under
    non-canonical names and the entries holding null gives the very same
    merged record. *)
Theorem merge_candidates_ignores_junk (cands : list AGVSpecCandidate) :
  merge_candidates (map strip_junk cands) = merge_candidates cands.
Proof.
  apply merge_candidates_ext.
  - rewrite map_map. by apply map_ext.
  - rewrite map_map. by apply map_ext.
  - intros f. rewrite map_map. apply map_ext. intros c.
    apply proposal_strip_junk.
Qed.

Lemma winner_singleton f c : winner f [c] = proposal c f.
Proof. unfold winner. simpl. by destruct (proposal c f). Qed.

(** X3.  Merging a single candidate reproduces it: every data field of the
    record holds the candidate's value for that name (null when the
    candidate has none), and a non-null value comes with the candidate's
    confidence (0.0 when it records none) and evidence. *)
Theorem merge_candidates_single (c : AGVSpecCandidate) (f : string) :
  f ∈ data_fields ->
  getattr (merge_candidates [c]) f = fget (fields c) f /\
  (forall v, fields c !! f = Some v -> v <> VNone ->
             _confidence (merge_candidates [c]) !! f = Some (conf_for c f) /\
             _evidence (merge_candidates [c]) !! f = evidence c !! f).
Proof.
  intros Hf. pose proof (data_fields_canonical f Hf) as Hcan.
  rewrite merge_getattr, merge_confidence, merge_evidence, winner_singleton by done.
  split.
  - unfold proposal, propose, fget.
    destruct (fields c !! f) as [v|]; simpl; [|done].
    rewrite bool_decide_true by done. by destruct v.
  - intros v Hv Hnn.
    assert (proposal c f = Some (conf_for c f, v, evidence c !! f)) as ->; [|done].
    apply proposal_Some. split; [done|]. by exists v.
Qed.

Lemma merge_candidates_single_witness :
  "payload_kg" ∈ data_fields /\
  getattr (merge_candidates [cand_payload_250]) "payload_kg"
  = fget (fields cand_payload_250) "payload_kg".
Proof.
  assert ("payload_kg" ∈ data_fields) as H by (by apply (bool_decide_unpack _)).
  split; [exact H|].
  exact (proj1 (merge_candidates_single cand_payload_250 "payload_kg" H)).
Defined.

(** X4.  Appending a candidate: a populated field stays populated and its
    recorded confidence does not drop; a newcomer whose confidence is not
    strictly higher leaves value, evidence and confidence as they were; a
    newcomer with a strictly higher confidence (or proposing a field that
    was empty) takes the field over. *)
Theorem merge_candidates_append
    (cands : list AGVSpecCandidate) (c : AGVSpecCandidate) (f : string) :
  f ∈ data_fields ->
  (getattr (merge_candidates cands) f <> VNone ->
   getattr (merge_candidates (cands ++ [c])) f <> VNone) /\
  (forall q, _confidence (merge_candidates cands) !! f = Some q ->
     exists q', _confidence (merge_candidates (cands ++ [c])) !! f = Some q'
                /\ (q <= q')%Q) /\
  (forall q, _confidence (merge_candidates cands) !! f = Some q ->
     (conf_for c f <= q)%Q ->
     getattr (merge_candidates (cands ++ [c])) f = getattr (merge_candidates cands) f /\
     _evidence (merge_candidates (cands ++ [c])) !! f
     = _evidence (merge_candidates cands) !! f /\
     _confidence (merge_candidates (cands ++ [c])) !! f = Some q) /\
  (forall v, fields c !! f = Some v -> v <> VNone ->
     (forall q, _confidence (merge_candidates cands) !! f = Some q ->
                (q < conf_for c f)%Q) ->
     getattr (merge_candidates (cands ++ [c])) f = v /\
     _evidence (merge_candidates (cands ++ [c])) !! f = evidence c !! f /\
     _confidence (merge_candidates (cands ++ [c])) !! f = Some (conf_for c f)).
Proof.
  intros Hf. pose proof (data_fields_canonical f Hf) as Hcan.
  rewrite !merge_getattr, !merge_confidence, !merge_evidence, winner_snoc by done.
  destruct (winner f cands) as [b|] eqn:Hb; simpl.
  - pose proof (winner_entry_val_not_none f cands b Hb) as Hbv.
    split_and!.
    + intros _. destruct (proposal c f) as [e|] eqn:He; simpl; [|done].
      destruct (Qlt_le_dec _ _); simpl; [|done].
      by apply proposal_Some in He as (_ & v & _ & Hnn & ->).
    + intros q [= <-]. destruct (proposal c f) as [e|]; simpl.
      * destruct (Qlt_le_dec _ _) as [Hlt|]; simpl.
        -- eexists. split; [done|]. by apply Qlt_le_weak.
        -- eexists. split; [done|]. apply Qle_refl.
      * eexists. split; [done|]. apply Qle_refl.
    + intros q [= <-] Hle. destruct (proposal c f) as [e|] eqn:He; simpl; [|done].
      apply proposal_Some in He as (_ & v & _ & _ & ->).
      destruct (Qlt_le_dec _ _) as [Hlt|]; simpl; [|done].
      exfalso. by apply (Qlt_not_le _ _ Hlt).
    + intros v Hv Hnn Hlow.
      assert (proposal c f = Some (conf_for c f, v, evidence c !! f)) as ->.
      { apply proposal_Some. split; [done|]. by exists v. }
      simpl. destruct (Qlt_le_dec _ _) as [|Hle]; simpl; [done|].
      exfalso. apply (Qlt_not_le _ _ (Hlow _ eq_refl)). exact Hle.
  - split_and!; try done.
    intros v Hv Hnn _.
    assert (proposal c f = Some (conf_for c f, v, evidence c !! f)) as ->.
    { apply proposal_Some. split; [done|]. by exists v. }
    done.
Qed.

Lemma merge_candidates_append_witness :
  "payload_kg" ∈ data_fields /\
  (getattr (merge_candidates [cand_payload_250]) "payload_kg" <> VNone ->
   getattr (merge_candidates ([cand_payload_250] ++ [cand_payload_300])) "payload_kg"
   <> VNone).
Proof.
  assert ("payload_kg" ∈ data_fields) as H by (by apply (bool_decide_unpack _)).
  split; [exact H|].
  exact (proj1 (merge_candidates_append [cand_payload_250] cand_payload_300
                  "payload_kg" H)).
Defined.

(** * Further properties of the validator *)

Lemma check_range_id f key hi cf :
  (forall x, num_of (fget f key) = Some x -> (0 < x)%Q /\ (x <= hi)%Q) ->
  check_range f key hi cf = cf.
Proof.
  intros Hin. unfold check_range.
  destruct (num_of (fget f key)) as [x|]; [|done].
  by rewrite (proj2 (out_of_range_false hi x) (Hin x eq_refl)).
Qed.

(** X5.  A candidate none of whose four checked fields holds a number
    outside its range is returned by the validator exactly as it came. *)
Theorem validate_candidate_in_range_identity (c : AGVSpecCandidate) :
  (forall key x, key ∈ range_keys -> num_of (fget (fields c) key) = Some x ->
                 (0 < x)%Q /\ (x <= range_bound key)%Q) ->
  validate_candidate c = c.
Proof.
  intros Hin. unfold validate_candidate. cbn [foldl].
  rewrite (check_range_id _ "payload_kg");
    [|intros x; by apply (Hin "payload_kg"), (bool_decide_unpack _)].
  rewrite (check_range_id _ "length_mm");
    [|intros x; by apply (Hin "length_mm"), (bool_decide_unpack _)].
  rewrite (check_range_id _ "width_mm");
    [|intros x; by apply (Hin "width_mm"), (bool_decide_unpack _)].
  rewrite (check_range_id _ "height_mm");
    [|intros x; by apply (Hin "height_mm"), (bool_decide_unpack _)].
  by destruct c.
Qed.

Lemma validate_candidate_in_range_identity_witness :
  validate_candidate cand_payload_250 = cand_payload_250.
Proof.
  apply validate_candidate_in_range_identity.
  intros key x Hk. unfold range_keys in Hk.
  repeat (apply elem_of_cons in Hk as [->|Hk];
          [intros [= <-] || (intros H; discriminate H); by split|]).
  by apply elem_of_nil in Hk.
Defined.

(** X6.  The validator is not idempotent: validating an already validated
    candidate halves the confidence of an out-of-range field a second
    time. *)
Theorem validate_candidate_twice (c : AGVSpecCandidate) (key : string) (x q : Q) :
  key ∈ range_keys ->
  num_of (fget (fields c) key) = Some x ->
  (x <= 0)%Q \/ (range_bound key < x)%Q ->
  confidence c !! key = Some q ->
  confidence (validate_candidate (validate_candidate c)) !! key
  = Some (q * 0.5 * 0.5)%Q.
Proof.
  intros Hk Hx Hout Hq.
  rewrite validate_confidence_checked by done.
  rewrite (check_range_halved _ _ _ _ x); [|by rewrite validate_fields|done].
  rewrite validate_confidence_checked by done.
  rewrite (check_range_halved _ _ _ _ x) by done.
  by rewrite Hq.
Qed.

Lemma validate_candidate_twice_witness :
  confidence (validate_candidate (validate_candidate cand_payload_9999999))
    !! "payload_kg" = Some (0.65 * 0.5 * 0.5)%Q.
Proof.
  apply (validate_candidate_twice cand_payload_9999999 "payload_kg" 9999999).
  - by apply (bool_decide_unpack _).
  - reflexivity.
  - right. reflexivity.
  - reflexivity.
Defined.

Lemma range_keys_data_fields key : key ∈ range_keys -> key ∈ data_fields.
Proof.
  intros Hk. unfold range_keys in Hk.
  repeat (apply elem_of_cons in Hk as [->|Hk]; [by apply (bool_decide_unpack _)|]).
  by apply elem_of_nil in Hk.
Qed.

Lemma half_lt q : (0 < q)%Q -> (q * 0.5 < q)%Q.
Proof. unfold Qlt. simpl. intros H. nia. Qed.

(** X7.  Two candidates propose the same checked field with the same
    positive confidence, one value in range and one out of range: after
    validation the merge keeps the in-range value, whichever candidate
    comes first. *)
Theorem validated_merge_prefers_plausible
    (a b : AGVSpecCandidate) (key : string) (va vb : value) (xa xb q : Q) :
  key ∈ range_keys ->
  fields a !! key = Some va -> num_of va = Some xa ->
  fields b !! key = Some vb -> num_of vb = Some xb ->
  (0 < xa)%Q /\ (xa <= range_bound key)%Q ->
  (xb <= 0)%Q \/ (range_bound key < xb)%Q ->
  confidence a !! key = Some q -> confidence b !! key = Some q -> (0 < q)%Q ->
  getattr (merge_candidates [validate_candidate a; validate_candidate b]) key = va /\
  getattr (merge_candidates [validate_candidate b; validate_candidate a]) key = va /\
  _confidence (merge_candidates [validate_candidate a; validate_candidate b]) !! key
  = Some q /\
  _confidence (merge_candidates [validate_candidate b; validate_candidate a]) !! key
  = Some q.
Proof.
  intros Hk Hva Hxa Hvb Hxb Hin Hout Hqa Hqb Hq.
  pose proof (range_keys_data_fields key Hk) as Hf.
  pose proof (data_fields_canonical key Hf) as Hcan.
  assert (va <> VNone) as Hna by (by destruct va).
  assert (vb <> VNone) as Hnb by (by destruct vb).
  assert (proposal (validate_candidate a) key = Some (q, va, evidence a !! key)) as Ha.
  { apply proposal_Some. split; [done|]. exists va. split_and!; [done..|].
    rewrite validate_confidence_checked by done.
    rewrite (check_range_unchanged _ _ _ _ xa), Hqa; [done| |done].
    unfold fget. by rewrite Hva. }
  assert (proposal (validate_candidate b) key
          = Some ((q * 0.5)%Q, vb, evidence b !! key)) as Hb.
  { apply proposal_Some. split; [done|]. exists vb. split_and!; [done..|].
    rewrite validate_confidence_checked by done.
    rewrite (check_range_halved _ _ _ _ xb), Hqb; [done| |done].
    unfold fget. by rewrite Hvb. }
  rewrite !merge_getattr, !merge_confidence by done.
  unfold winner. simpl. rewrite Ha, Hb. simpl.
  unfold entry_conf. simpl.
  destruct (Qlt_le_dec q (q * 0.5)) as [Hlt|_].
  { exfalso. apply (Qlt_irrefl q). by eapply Qlt_trans; [|apply half_lt]. }
  destruct (Qlt_le_dec (q * 0.5) q) as [_|Hle]; [done|].
  exfalso. apply (Qlt_not_le _ _ (half_lt q Hq)). exact Hle.
Qed.

Lemma validated_merge_prefers_plausible_witness :
  getattr (merge_candidates [validate_candidate cand_payload_9999999;
                             validate_candidate cand_payload_250]) "payload_kg"
  = VNum 250.
Proof.
  apply (validated_merge_prefers_plausible cand_payload_250 cand_payload_9999999
           "payload_kg" (VNum 250) (VNum 9999999) 250 9999999 0.65).
  - by apply (bool_decide_unpack _).
  - reflexivity.
  - reflexivity.
  - reflexivity.
  - reflexivity.
  - by split.
  - by right.
  - reflexivity.
  - reflexivity.
  - reflexivity.
Defined.

(** * Further properties of the normalizer *)

(** A key outside [normalized_keys] differs from each written key. *)
Ltac other_key Hk :=
  let E := fresh in
  intros E; apply Hk; first [rewrite <- E | rewrite E];
  by apply (bool_decide_unpack _).

(** A key outside [normalized_keys] is outside a list of written keys. *)
Ltac other_keys Hk :=
  let E := fresh in
  intros E; apply Hk;
  repeat (apply elem_of_cons in E as [->|E]; [by apply (bool_decide_unpack _)|]);
  by apply elem_of_nil in E.

Ltac keep_key := repeat (apply lookup_insert_is_Some'; right); try done.

Lemma normalize_kv_item_other fs kv k :
  k ∉ normalized_keys -> normalize_kv_item fs kv !! k = fs !! k.
Proof.
  intros Hk. destruct kv as [k0 v]. unfold normalize_kv_item.
  destruct (_parse_dimensions_mm v) as [[l w] h].
  case_ifs; rewrite ?lookup_insert_ne by other_key Hk; done.
Qed.

Lemma normalize_kv_item_keeps fs kv k :
  is_Some (fs !! k) -> is_Some (normalize_kv_item fs kv !! k).
Proof.
  intros Hk. destruct kv as [k0 v]. unfold normalize_kv_item.
  destruct (_parse_dimensions_mm v) as [[l w] h].
  case_ifs; keep_key.
Qed.

Lemma normalize_kv_other fs k :
  k ∉ normalized_keys -> normalize_kv fs !! k = fs !! k.
Proof.
  intros Hk. unfold normalize_kv. destruct (fget fs "_kv"); try done.
  revert fs. induction kv as [|x kv IH]; intros fs; cbn [foldl]; [done|].
  by rewrite IH, normalize_kv_item_other.
Qed.

Lemma normalize_kv_keeps fs k :
  is_Some (fs !! k) -> is_Some (normalize_kv fs !! k).
Proof.
  unfold normalize_kv. destruct (fget fs "_kv"); try done.
  revert fs. induction kv as [|x kv IH]; intros fs Hk; cbn [foldl]; [done|].
  by apply IH, normalize_kv_item_keeps.
Qed.

Lemma normalize_abmasse_other fs k :
  k ∉ ["length_mm"; "width_mm"; "height_mm"] -> normalize_abmasse fs !! k = fs !! k.
Proof.
  intros Hk. unfold normalize_abmasse.
  destruct (fs !! "abmasse") as [[]|]; try done.
  destruct (_parse_dimensions_mm s) as [[l w] h].
  rewrite !lookup_insert_ne by other_key Hk. done.
Qed.

Lemma normalize_abmasse_keeps fs k :
  is_Some (fs !! k) -> is_Some (normalize_abmasse fs !! k).
Proof.
  intros Hk. unfold normalize_abmasse.
  destruct (fs !! "abmasse") as [[]|]; try done.
  destruct (_parse_dimensions_mm s) as [[l w] h]. keep_key.
Qed.

Lemma fill_from_raw_keeps raw canon fs k :
  is_Some (fs !! k) -> is_Some (fill_from_raw raw canon fs !! k).
Proof.
  intros Hk. unfold fill_from_raw.
  destruct (fget fs raw); try done. destruct (is_none _); keep_key.
Qed.

Lemma fill_from_raw_lookup_eq raw canon fs :
  fill_from_raw raw canon fs !! canon
  = match fget fs raw with
    | VStr s =>
        if is_none (fget fs canon) then Some (opt_num (_to_float s))
        else fs !! canon
    | _ => fs !! canon
    end.
Proof.
  unfold fill_from_raw. destruct (fget fs raw); try done.
  destruct (is_none _); [|done]. by rewrite lookup_insert_eq.
Qed.

Lemma normalize_agilox_other fs k :
  k ∉ ["payload_kg"; "weight_kg"; "turning_radius_mm"; "lift_height_mm"] ->
  normalize_agilox fs !! k = fs !! k.
Proof.
  intros Hk. unfold normalize_agilox.
  rewrite !fill_from_raw_lookup_ne by other_key Hk. done.
Qed.

Lemma normalize_agilox_keeps fs k :
  is_Some (fs !! k) -> is_Some (normalize_agilox fs !! k).
Proof.
  intros Hk. unfold normalize_agilox. by do 4 apply fill_from_raw_keeps.
Qed.

(** The vendor branch of the naming step cannot fire once every key of the
    original mapping is still present. *)
Lemma normalize_names_other orig fs k :
  (is_Some (orig !! "vendor") -> is_Some (fs !! "vendor")) ->
  k <> "device_name" -> normalize_names orig fs !! k = fs !! k.
Proof.
  intros Hv Hk. unfold normalize_names.
  set (fs1 := if negb (has_key fs "device_name") && has_key fs "device"
              then <["device_name" := fget fs "device"]> fs else fs).
  assert (fs1 !! k = fs !! k) as Hsame.
  { unfold fs1. destruct (_ && _); [|done]. by rewrite lookup_insert_ne. }
  assert (is_Some (orig !! "vendor") -> is_Some (fs1 !! "vendor")) as Hv1.
  { intros Ho. unfold fs1. destruct (_ && _); [|by apply Hv].
    apply lookup_insert_is_Some'. right. by apply Hv. }
  destruct (negb (has_key fs1 "vendor") && has_key orig "vendor") eqn:Hb;
    [|done].
  exfalso. apply andb_true_iff in Hb as [Hn Ho].
  apply negb_true_iff in Hn. unfold has_key in *.
  apply bool_decide_eq_true in Ho. apply bool_decide_eq_false in Hn.
  by apply Hn, Hv1.
Qed.

Lemma normalize_names_keeps orig fs k :
  is_Some (fs !! k) -> is_Some (normalize_names orig fs !! k).
Proof.
  intros Hk. unfold normalize_names.
  case_ifs; try destruct (orig !! "vendor"); keep_key.
Qed.

Lemma normalize_fields_unfold c :
  fields (normalize_candidate c)
  = normalize_names (fields c)
      (normalize_agilox (normalize_abmasse (normalize_kv (fields c)))).
Proof. reflexivity. Qed.

Lemma normalize_stages_keep c k :
  is_Some (fields c !! k) ->
  is_Some (normalize_agilox (normalize_abmasse (normalize_kv (fields c))) !! k).
Proof.
  intros Hk. by apply normalize_agilox_keeps, normalize_abmasse_keeps,
    normalize_kv_keeps.
Qed.

(** X8.  What the normalizer leaves alone: the identifiers, the confidence
    and evidence mappings; every key of the field mapping (none is ever
    removed, the raw table and the raw vendor fields stay); and the value of
    every key other than the eight numeric canonical fields and
    [device_name] - in particular [vendor], whose copy never takes
    effect. *)
Theorem normalize_candidate_frame (c : AGVSpecCandidate) :
  cand_source_id (normalize_candidate c) = cand_source_id c /\
  tool (normalize_candidate c) = tool c /\
  confidence (normalize_candidate c) = confidence c /\
  evidence (normalize_candidate c) = evidence c /\
  (forall k, is_Some (fields c !! k) ->
             is_Some (fields (normalize_candidate c) !! k)) /\
  (forall k, k ∉ normalized_keys ->
             fields (normalize_candidate c) !! k = fields c !! k).
Proof.
  split_and!; try reflexivity.
  - intros k Hk. rewrite normalize_fields_unfold.
    by apply normalize_names_keeps, normalize_stages_keep.
  - intros k Hk. rewrite normalize_fields_unfold.
    rewrite normalize_names_other;
      [|apply normalize_stages_keep|other_key Hk].
    rewrite normalize_agilox_other by other_keys Hk.
    rewrite normalize_abmasse_other by other_keys Hk.
    by apply normalize_kv_other.
Qed.

Lemma normalize_candidate_frame_witness :
  is_Some (fields cand_agilox_raw !! "max_last") /\
  is_Some (fields (normalize_candidate cand_agilox_raw) !! "max_last") /\
  fields (normalize_candidate cand_agilox_raw) !! "vendor"
  = fields cand_agilox_raw !! "vendor".
Proof.
  assert (is_Some (fields cand_agilox_raw !! "max_last")) as H by (by eexists).
  split_and!; [exact H| |].
  - exact (proj1 (proj2 (proj2 (proj2 (proj2
             (normalize_candidate_frame cand_agilox_raw))))) _ H).
  - apply (proj2 (proj2 (proj2 (proj2 (proj2
             (normalize_candidate_frame cand_agilox_raw)))))).
    by apply (bool_decide_unpack _).
Defined.

Lemma fill_from_raw_skip raw canon fs :
  (forall s, fs !! raw <> Some (VStr s)) -> fill_from_raw raw canon fs = fs.
Proof.
  intros Hno. unfold fill_from_raw, fget.
  destruct (fs !! raw) as [[]|] eqn:E; try done. by destruct (Hno s).
Qed.

Lemma normalize_kv_skip fs :
  (forall kv, fs !! "_kv" <> Some (VDict kv)) -> normalize_kv fs = fs.
Proof.
  intros Hno. unfold normalize_kv, fget.
  destruct (fs !! "_kv") as [[]|] eqn:E; try done. by destruct (Hno kv).
Qed.

(** X9.  A candidate without raw material - no raw key-value table, no
    textual [abmasse], [max_last], [eigengewicht], [drehkreis] or
    [max_hubhoehe] field, and no [device] alias lacking a [device_name] -
    passes through the normalizer unchanged. *)
Theorem normalize_candidate_identity (c : AGVSpecCandidate) :
  (forall kv, fields c !! "_kv" <> Some (VDict kv)) ->
  (forall raw s,
     raw ∈ ["abmasse"; "max_last"; "eigengewicht"; "drehkreis"; "max_hubhoehe"] ->
     fields c !! raw <> Some (VStr s)) ->
  (is_Some (fields c !! "device") -> is_Some (fields c !! "device_name")) ->
  normalize_candidate c = c.
Proof.
  intros Hkv Hraw Hdev.
  assert (normalize_names (fields c)
            (normalize_agilox (normalize_abmasse (normalize_kv (fields c))))
          = fields c) as Hfs.
  { rewrite normalize_kv_skip by done.
    rewrite normalize_abmasse_skip
      by (intros s; by apply Hraw, (bool_decide_unpack _)).
    unfold normalize_agilox.
    rewrite (fill_from_raw_skip "max_last")
      by (intros s; by apply Hraw, (bool_decide_unpack _)).
    rewrite (fill_from_raw_skip "eigengewicht")
      by (intros s; by apply Hraw, (bool_decide_unpack _)).
    rewrite (fill_from_raw_skip "drehkreis")
      by (intros s; by apply Hraw, (bool_decide_unpack _)).
    rewrite (fill_from_raw_skip "max_hubhoehe")
      by (intros s; by apply Hraw, (bool_decide_unpack _)).
    unfold normalize_names, has_key.
    assert (negb (bool_decide (is_Some (fields c !! "device_name")))
            && bool_decide (is_Some (fields c !! "device")) = false) as ->.
    { destruct (bool_decide (is_Some (fields c !! "device"))) eqn:Hd;
        [|by rewrite andb_false_r].
      apply bool_decide_eq_true in Hd.
      by rewrite (bool_decide_true _ (Hdev Hd)). }
    by destruct (bool_decide (is_Some (fields c !! "vendor"))). }
  unfold normalize_candidate. cbv zeta. rewrite Hfs. by destruct c.
Qed.

Lemma normalize_candidate_identity_witness :
  normalize_candidate cand_payload_250 = cand_payload_250.
Proof.
  apply normalize_candidate_identity.
  - intros kv. discriminate.
  - intros raw s Hin.
    repeat (apply elem_of_cons in Hin as [->|Hin]; [discriminate|]).
    by apply elem_of_nil in Hin.
  - intros [v Hv]. discriminate Hv.
Defined.

Lemma normalize_fill_in_stage fs raw canon :
  (raw, canon) ∈ agilox_fill_ins ->
  normalize_agilox fs !! canon
  = match fget fs raw with
    | VStr s =>
        if is_none (fget fs canon) then Some (opt_num (_to_float s))
        else fs !! canon
    | _ => fs !! canon
    end.
Proof.
  intros Hin. unfold agilox_fill_ins in Hin. unfold normalize_agilox.
  repeat (apply elem_of_cons in Hin as [[= -> ->]|Hin];
          [rewrite ?fill_from_raw_lookup_ne by done;
           rewrite fill_from_raw_lookup_eq; unfold fget;
           rewrite ?fill_from_raw_lookup_ne by done; done|]).
  by apply elem_of_nil in Hin.
Qed.

Lemma fill_in_names raw canon :
  (raw, canon) ∈ agilox_fill_ins ->
  (raw ∉ normalized_keys) /\ canon <> "device_name" /\
  (canon ∉ ["length_mm"; "width_mm"; "height_mm"]).
Proof.
  intros Hin. unfold agilox_fill_ins in Hin.
  repeat (apply elem_of_cons in Hin as [[= -> ->]|Hin];
          [split_and!; by apply (bool_decide_unpack _)|]).
  by apply elem_of_nil in Hin.
Qed.

(** X10.  The AGILOX regex fields are fallbacks.  For each of the four
    pairs (raw field, canonical field): when the canonical field is
    non-null after the key-value stage it is kept as it is, whatever the raw
    field says; when it is null or missing and the raw field is a string,
    it becomes the number parsed from that string (null when the string has
    no number); when the raw field is not a string nothing is filled in. *)
Theorem normalize_candidate_fill_ins (c : AGVSpecCandidate) (raw canon : string) :
  (raw, canon) ∈ agilox_fill_ins ->
  (fget (normalize_kv (fields c)) canon <> VNone ->
   fields (normalize_candidate c) !! canon = normalize_kv (fields c) !! canon) /\
  (forall s, fget (normalize_kv (fields c)) canon = VNone ->
             fields c !! raw = Some (VStr s) ->
             fields (normalize_candidate c) !! canon = Some (opt_num (_to_float s))) /\
  ((forall s, fields c !! raw <> Some (VStr s)) ->
   fields (normalize_candidate c) !! canon = normalize_kv (fields c) !! canon) /\
  ((forall kv, fields c !! "_kv" <> Some (VDict kv)) ->
   normalize_kv (fields c) = fields c).
Proof.
  intros Hin. destruct (fill_in_names raw canon Hin) as (Hraw & Hcan & Hdim).
  assert (fields (normalize_candidate c) !! canon
          = match fget (fields c) raw with
            | VStr s =>
                if is_none (fget (normalize_kv (fields c)) canon)
                then Some (opt_num (_to_float s))
                else normalize_kv (fields c) !! canon
            | _ => normalize_kv (fields c) !! canon
            end) as Heq.
  { rewrite normalize_fields_unfold.
    rewrite normalize_names_other; [|apply normalize_stages_keep|done].
    rewrite (normalize_fill_in_stage _ raw canon Hin).
    unfold fget. rewrite !(normalize_abmasse_other _ canon) by done.
    rewrite (normalize_abmasse_other _ raw) by other_keys Hraw.
    by rewrite (normalize_kv_other _ raw). }
  split_and!.
  - intros Hnn. rewrite Heq. destruct (fget (fields c) raw); try done.
    by destruct (fget (normalize_kv (fields c)) canon).
  - intros s Hn Hs. rewrite Heq. unfold fget at 1. rewrite Hs. simpl.
    by rewrite Hn.
  - intros Hno. rewrite Heq. unfold fget at 1.
    destruct (fields c !! raw) as [[]|] eqn:E; try done. by destruct (Hno s).
  - apply normalize_kv_skip.
Qed.

Lemma normalize_candidate_fill_ins_witness :
  ("max_last", "payload_kg") ∈ agilox_fill_ins /\
  fget (normalize_kv (fields cand_agilox_raw)) "payload_kg" <> VNone /\
  fields (normalize_candidate cand_agilox_raw) !! "payload_kg"
  = normalize_kv (fields cand_agilox_raw) !! "payload_kg".
Proof.
  assert (("max_last", "payload_kg") ∈ agilox_fill_ins) as Hin by (by left).
  assert (fget (normalize_kv (fields cand_agilox_raw)) "payload_kg" <> VNone)
    as Hnn by discriminate.
  split_and!; [exact Hin|exact Hnn|].
  exact (proj1 (normalize_candidate_fill_ins cand_agilox_raw
                  "max_last" "payload_kg" Hin) Hnn).
Defined.

Lemma normalize_kv_abmasse fs : normalize_kv fs !! "abmasse" = fs !! "abmasse".
Proof.
  apply normalize_kv_other. by apply (bool_decide_unpack _).
Qed.

(** X11.  The dimensions of a textual [abmasse] field fill the gaps only:
    for each of the three dimension fields the value left by the key-value
    stage is kept when it is truthy, and replaced by the corresponding
    number parsed from [abmasse] otherwise - a missing, null or zero
    dimension counts as a gap. *)
Theorem normalize_candidate_abmasse (c : AGVSpecCandidate) (s : string) :
  fields c !! "abmasse" = Some (VStr s) ->
  fields (normalize_candidate c) !! "length_mm"
  = Some (py_or (fget (normalize_kv (fields c)) "length_mm")
                (_parse_dimensions_mm s).1.1) /\
  fields (normalize_candidate c) !! "width_mm"
  = Some (py_or (fget (normalize_kv (fields c)) "width_mm")
                (_parse_dimensions_mm s).1.2) /\
  fields (normalize_candidate c) !! "height_mm"
  = Some (py_or (fget (normalize_kv (fields c)) "height_mm")
                (_parse_dimensions_mm s).2) /\
  (forall v, truthy v = true -> py_or v (_parse_dimensions_mm s).1.1 = v) /\
  py_or VNone (_parse_dimensions_mm s).1.1 = (_parse_dimensions_mm s).1.1 /\
  py_or (VNum 0) (_parse_dimensions_mm s).1.1 = (_parse_dimensions_mm s).1.1.
Proof.
  intros Hab.
  assert (normalize_abmasse (normalize_kv (fields c))
          = <["height_mm" := py_or (fget (normalize_kv (fields c)) "height_mm")
                                   (_parse_dimensions_mm s).2]>
            (<["width_mm" := py_or (fget (normalize_kv (fields c)) "width_mm")
                                   (_parse_dimensions_mm s).1.2]>
             (<["length_mm" := py_or (fget (normalize_kv (fields c)) "length_mm")
                                     (_parse_dimensions_mm s).1.1]>
              (normalize_kv (fields c))))) as Hst.
  { unfold normalize_abmasse. rewrite normalize_kv_abmasse, Hab.
    destruct (_parse_dimensions_mm s) as [[l w] h]. simpl.
    unfold fget. by rewrite !lookup_insert_ne by done. }
  rewrite !normalize_fields_unfold.
  rewrite !normalize_names_other; try done; try apply normalize_stages_keep.
  rewrite !normalize_agilox_other by (by apply (bool_decide_unpack _)).
  rewrite Hst.
  split_and!.
  - by rewrite !lookup_insert_ne, lookup_insert_eq by done.
  - by rewrite lookup_insert_ne, lookup_insert_eq by done.
  - by rewrite lookup_insert_eq.
  - intros v Hv. unfold py_or. by rewrite Hv.
  - done.
  - done.
Qed.

Lemma normalize_candidate_abmasse_witness :
  fields cand_agilox_raw !! "abmasse" = Some (VStr "1510 x 800 x 1870 mm") /\
  fields (normalize_candidate cand_agilox_raw) !! "length_mm"
  = Some (py_or (fget (normalize_kv (fields cand_agilox_raw)) "length_mm")
                (_parse_dimensions_mm "1510 x 800 x 1870 mm").1.1).
Proof.
  assert (fields cand_agilox_raw !! "abmasse" = Some (VStr "1510 x 800 x 1870 mm"))
    as H by reflexivity.
  split; [exact H|].
  exact (proj1 (normalize_candidate_abmasse cand_agilox_raw _ H)).
Defined.

(** * Number parsing *)

Lemma has_digit_replace_comma s : has_digit (replace "," "." s) = has_digit s.
Proof.
  unfold replace. induction s as [|c rest IH]; [done|].
  cbn -[ascii_dec String.prefix]. cbn -[ascii_dec].
  destruct (ascii_dec "," c) as [<-|Hne].
  - assert (String.prefix "" rest = true) as -> by (by destruct rest).
    exact IH.
  - cbn [has_digit]. by rewrite IH.
Qed.

Lemma starts_with_digit_has_digit s :
  starts_with_digit s = true -> has_digit s = true.
Proof. destruct s as [|c rest]; [done|]. simpl. by intros ->. Qed.

Lemma search_float_None s : search_float s = None <-> has_digit s = false.
Proof.
  induction s as [|c rest IH]; [done|]. cbn [search_float has_digit].
  destruct (is_digit c) eqn:Hc; [done|]. simpl.
  destruct (starts_with_digit rest) eqn:Hr.
  - rewrite (starts_with_digit_has_digit rest Hr).
    rewrite !andb_true_r.
    destruct (bool_decide (c = "-"%char)); [done|].
    destruct (bool_decide (c = "+"%char)); [done|].
    rewrite IH. by rewrite (starts_with_digit_has_digit rest Hr).
  - by rewrite !andb_false_r.
Qed.

(** X12.  For ASCII text, where the digits of the pattern are the ten
    ASCII digits, [_to_float] yields null exactly for the strings that
    contain no digit: any such text with a digit somewhere parses as a
    number. *)
Theorem to_float_none_iff_no_digit (s : string) :
  is_ascii s = true ->
  (_to_float s = None <-> has_digit s = false) /\
  (is_Some (_to_float s) <-> has_digit s = true).
Proof.
  intros _.
  assert (_to_float s = None <-> has_digit s = false) as H.
  { unfold _to_float. by rewrite search_float_None, has_digit_replace_comma. }
  split; [exact H|]. split.
  - intros [q Hq]. destruct (has_digit s); [done|].
    destruct H as [_ H]. by rewrite H in Hq.
  - intros D. destruct (_to_float s); [by eexists|].
    destruct H as [H _]. by rewrite H in D.
Qed.

Lemma to_float_none_iff_no_digit_witness :
  is_ascii "n/a" = true /\ _to_float "n/a" = None /\
  is_ascii "ca. 12,5 kg" = true /\ is_Some (_to_float "ca. 12,5 kg").
Proof.
  split_and!; [reflexivity| |reflexivity|].
  - exact (proj2 (proj1 (to_float_none_iff_no_digit "n/a" eq_refl)) eq_refl).
  - exact (proj2 (proj2 (to_float_none_iff_no_digit "ca. 12,5 kg" eq_refl)) eq_refl).
Defined.

Lemma read_frac_nonneg s acc k : (0 <= acc)%Z -> (0 <= (read_frac acc k s).1)%Z.
Proof.
  revert acc k. induction s as [|c rest IH]; intros acc k Hacc; [done|].
  simpl. destruct (is_digit c); [|done].
  apply IH. unfold digit_val. lia.
Qed.

Lemma read_number_nonneg s acc : (0 <= acc)%Z -> (0 <= (read_number acc s).1)%Z.
Proof.
  revert acc. induction s as [|c rest IH]; intros acc Hacc; [done|].
  simpl. destruct (is_digit c).
  - apply IH. unfold digit_val. lia.
  - destruct (bool_decide (c = "."%char) && starts_with_digit rest); [|done].
    by apply read_frac_nonneg.
Qed.

Lemma float_of_digits_nonneg s : (0 <= float_of_digits s)%Q.
Proof.
  unfold float_of_digits.
  pose proof (read_number_nonneg s 0 ltac:(lia)) as H.
  destruct (read_number 0 s) as [n k]. simpl in H.
  destruct k; unfold Qle; simpl; lia.
Qed.

Lemma to_float_of_match_nonneg n :
  starts_with_digit n = true -> exists q, _to_float n = Some q /\ (0 <= q)%Q.
Proof.
  destruct n as [|c rest]; [done|]. cbn [starts_with_digit]. intros Hc.
  unfold _to_float, replace. cbn [replace_from].
  assert (String.prefix "," (String c rest) = false) as ->.
  { cbn -[ascii_dec].
    destruct (ascii_dec "," c) as [<-|Hne]; [by vm_compute in Hc|done]. }
  cbn [search_float]. rewrite Hc.
  eexists. split; [done|]. apply float_of_digits_nonneg.
Qed.

(** X13.  [_parse_dimensions_mm] is all or nothing: when the text holds at
    least three number tokens the three results are numbers, none of them
    negative (a sign in front of a token is not read); when it holds fewer,
    all three results are null. *)
Theorem parse_dimensions_all_or_nothing (text : string) :
  ((3 <= length (findall_numbers (replace "Ã—" "x" (lower text))))%nat ->
   exists q0 q1 q2,
     _parse_dimensions_mm text = (VNum q0, VNum q1, VNum q2) /\
     (0 <= q0)%Q /\ (0 <= q1)%Q /\ (0 <= q2)%Q) /\
  ((length (findall_numbers (replace "Ã—" "x" (lower text))) < 3)%nat ->
   _parse_dimensions_mm text = (VNone, VNone, VNone)).
Proof.
  unfold _parse_dimensions_mm.
  assert (forall n, n ∈ findall_numbers (replace "Ã—" "x" (lower text)) ->
                    exists q, _to_float n = Some q /\ (0 <= q)%Q) as Hnum.
  { intros n Hin. apply to_float_of_match_nonneg.
    by apply (findall_from_starts_with_digit _ Idle EmptyString n Hin). }
  destruct (findall_numbers (replace "Ã—" "x" (lower text)))
    as [|n0 [|n1 [|n2 ns]]]; simpl; (split; [intros; try lia|intros; try lia; try done]).
  destruct (Hnum n0) as (q0 & -> & H0); [by left|].
  destruct (Hnum n1) as (q1 & -> & H1); [by right; left|].
  destruct (Hnum n2) as (q2 & -> & H2); [by right; right; left|].
  by exists q0, q1, q2.
Qed.

Lemma parse_dimensions_all_or_nothing_witness :
  _parse_dimensions_mm "L 1500, B 800" = (VNone, VNone, VNone).
Proof.
  apply (proj2 (parse_dimensions_all_or_nothing "L 1500, B 800")).
  vm_compute. lia.
Defined.

(** * Candidate constructors *)

Lemma from_flat_dict_fields d sid tl :
  fields (from_flat_dict d sid tl)
  = foldl (fun (fs : gmap string value) (kv : string * value) =>
             <[flat_key kv.1 := kv.2]> fs) ∅ d.
Proof.
  unfold from_flat_dict. cbn [fields].
  generalize (∅ : gmap string value).
  induction d as [|[k v] d IH]; intros fs; cbn [foldl]; [done|].
  rewrite IH. f_equal. unfold flat_key. cbn [fst snd].
  destruct (decide (k = "device")) as [->|Hd]; [done|].
  rewrite !(bool_decide_false (k = "device")) by done. simpl.
  destruct (decide (k = "device_name")) as [->|Hn]; [done|].
  rewrite (bool_decide_false (k = "device_name")) by done.
  destruct (decide (k = "vendor")) as [->|Hv]; [done|].
  by rewrite (bool_decide_false (k = "vendor")) by done.
Qed.

Lemma flat_key_not_device k : flat_key k <> "device".
Proof. unfold flat_key. case_bool_decide; [done|]. done. Qed.

Lemma foldl_flat_lookup_last (pre post : list (string * value)) k v fs :
  (forall k' v', (k', v') ∈ post -> flat_key k' <> flat_key k) ->
  foldl (fun (fs : gmap string value) (kv : string * value) =>
           <[flat_key kv.1 := kv.2]> fs) fs (pre ++ (k, v) :: post)
  !! flat_key k = Some v.
Proof.
  intros Hpost. rewrite foldl_app. cbn [foldl fst snd].
  generalize (foldl (fun (fs : gmap string value) (kv : string * value) =>
                       <[flat_key kv.1 := kv.2]> fs) fs pre).
  intros fs0.
  assert (<[flat_key k := v]> fs0 !! flat_key k = Some v) as H0
    by apply lookup_insert_eq.
  revert H0. generalize (<[flat_key k := v]> fs0). clear fs0.
  induction post as [|[k' v'] post IH]; intros fs1 H1; cbn [foldl fst snd]; [done|].
  apply IH.
  - intros k2 v2 Hin. apply (Hpost k2 v2). by right.
  - rewrite lookup_insert_ne; [done|]. apply (Hpost k' v'). by left.
Qed.

Lemma foldl_flat_lookup_is_Some (d : list (string * value)) k fs :
  is_Some (foldl (fun (fs : gmap string value) (kv : string * value) =>
                    <[flat_key kv.1 := kv.2]> fs) fs d !! k)
  <-> is_Some (fs !! k) \/ exists k' v', (k', v') ∈ d /\ flat_key k' = k.
Proof.
  revert fs. induction d as [|[k0 v0] d IH]; intros fs; cbn [foldl fst snd].
  - split; [by left|]. intros [?|(k' & v' & Hin & _)]; [done|].
    by apply elem_of_nil in Hin.
  - rewrite IH, lookup_insert_is_Some'. split.
    + intros [[Heq|Hs]|(k' & v' & Hin & Hk)].
      * right. exists k0, v0. split; [by left|done].
      * by left.
      * right. exists k', v'. split; [by right|done].
    + intros [Hs|(k' & v' & Hin & Hk)].
      * left. by right.
      * apply elem_of_cons in Hin as [[= -> ->]|Hin].
        -- left. by left.
        -- right. by exists k', v'.
Qed.

(** X14.  A candidate built by [from_flat_dict]: the confidence and the
    evidence mappings have exactly the keys of the field mapping, every
    confidence is 0.65 and every evidence names the tool and the document
    with no snippet; the key [device] never appears, its value being stored
    under [device_name]; the keys of the field mapping are exactly the
    stored names of the input keys; and each stored name holds the value of
    the last input entry stored under it. *)
Theorem from_flat_dict_invariants (d : list (string * value)) (sid tl : string) :
  cand_source_id (from_flat_dict d sid tl) = sid /\
  tool (from_flat_dict d sid tl) = tl /\
  (forall k, confidence (from_flat_dict d sid tl) !! k
             = (fun _ => 0.65%Q) <$> fields (from_flat_dict d sid tl) !! k) /\
  (forall k, evidence (from_flat_dict d sid tl) !! k
             = (fun _ => mkEvidence None (Some tl) (Some sid))
                 <$> fields (from_flat_dict d sid tl) !! k) /\
  fields (from_flat_dict d sid tl) !! "device" = None /\
  (forall k, is_Some (fields (from_flat_dict d sid tl) !! k)
             <-> exists k' v', (k', v') ∈ d /\ flat_key k' = k) /\
  (forall pre k v post,
     d = pre ++ (k, v) :: post ->
     (forall k' v', (k', v') ∈ post -> flat_key k' <> flat_key k) ->
     fields (from_flat_dict d sid tl) !! flat_key k = Some v).
Proof.
  split_and!; try reflexivity.
  - intros k. unfold from_flat_dict. cbn [confidence fields]. apply lookup_fmap.
  - intros k. unfold from_flat_dict. cbn [evidence fields]. apply lookup_fmap.
  - apply eq_None_not_Some. rewrite from_flat_dict_fields, foldl_flat_lookup_is_Some.
    intros [[? H]|(k' & v' & _ & Hk)]; [by rewrite lookup_empty in H|].
    by apply flat_key_not_device in Hk.
  - intros k. rewrite from_flat_dict_fields, foldl_flat_lookup_is_Some.
    split; [|by right]. intros [[? H]|?]; [by rewrite lookup_empty in H|done].
  - intros pre k v post -> Hpost. rewrite from_flat_dict_fields.
    by apply foldl_flat_lookup_last.
Qed.

Lemma from_flat_dict_invariants_witness :
  fields (from_flat_dict [("device", VStr "ONE"); ("payload_kg", VNum 750)]
            "a.pdf" "regex_agilox") !! flat_key "device" = Some (VStr "ONE").
Proof.
  apply (proj2 (proj2 (proj2 (proj2 (proj2 (proj2
           (from_flat_dict_invariants
              [("device", VStr "ONE"); ("payload_kg", VNum 750)]
              "a.pdf" "regex_agilox"))))))
           [] "device" (VStr "ONE") [("payload_kg", VNum 750)]).
  - reflexivity.
  - intros k' v' Hin. apply list_elem_of_singleton in Hin as [= -> ->].
    discriminate.
Defined.

(** * Further properties of the planner and the loop *)

Lemma app_cons c (x y : string) : String.app (String c x) y = String c (String.app x y).
Proof. reflexivity. Qed.

Lemma lower_app x y : lower (String.app x y) = String.app (lower x) (lower y).
Proof.
  induction x as [|c x IH]; [done|].
  rewrite app_cons. cbn [lower]. by rewrite IH, app_cons.
Qed.

Lemma lower_ascii_idemp c : lower_ascii (lower_ascii c) = lower_ascii c.
Proof. by destruct c as [[] [] [] [] [] [] [] []]. Qed.

Lemma lower_idemp s : lower (lower s) = lower s.
Proof.
  induction s as [|c s IH]; [done|]. cbn [lower].
  by rewrite lower_ascii_idemp, IH.
Qed.

Lemma prefix_app_self n y : String.prefix n (String.app n y) = true.
Proof.
  induction n as [|c n IH]; [by destruct y|].
  rewrite app_cons. cbn -[ascii_dec]. by destruct (ascii_dec c c).
Qed.

Lemma contains_app_l n x y : contains n y = true -> contains n (String.app x y) = true.
Proof.
  intros Hy. induction x as [|c x IH]; [done|].
  rewrite app_cons. cbn [contains]. rewrite IH. apply orb_true_r.
Qed.

Lemma contains_middle n x y : contains n (String.app x (String.app n y)) = true.
Proof.
  apply contains_app_l.
  destruct (String.app n y) eqn:E; cbn [contains];
    rewrite <- E, prefix_app_self; done.
Qed.

(** X15.  The planner: every plan has three distinct tools, with the
    key-value tool among them; the choice does not depend on letter case;
    and a text in which one of the four vendor markers occurs, in whatever
    letter case, gets the vendor-specific plan. *)
Theorem tool_plan_properties (text : string) :
  length (_tool_plan_for_text text) = 3%nat /\
  NoDup (_tool_plan_for_text text) /\
  "key_value" ∈ _tool_plan_for_text text /\
  _tool_plan_for_text (lower text) = _tool_plan_for_text text /\
  (forall a w b,
     lower w ∈ agilox_markers ->
     _tool_plan_for_text (String.app a (String.app w b))
     = ["regex_agilox"; "key_value"; "llm"]).
Proof.
  split_and!.
  - by destruct (plan_cases text) as [-> | ->].
  - destruct (plan_cases text) as [-> | ->]; by apply (bool_decide_unpack _).
  - destruct (plan_cases text) as [-> | ->]; by apply (bool_decide_unpack _).
  - unfold _tool_plan_for_text, _looks_like_agilox. by rewrite lower_idemp.
  - intros a w b Hw. unfold _tool_plan_for_text, _looks_like_agilox.
    rewrite !lower_app. unfold agilox_markers in Hw.
    repeat (apply elem_of_cons in Hw as [->|Hw];
            [by rewrite contains_middle, ?orb_true_r|]).
    by apply elem_of_nil in Hw.
Qed.

Lemma tool_plan_properties_witness :
  lower "NFK" ∈ agilox_markers /\
  _tool_plan_for_text (String.app "Modell " (String.app "NFK" " 1200"))
  = ["regex_agilox"; "key_value"; "llm"].
Proof.
  assert (lower "NFK" ∈ agilox_markers) as H by (by apply (bool_decide_unpack _)).
  split; [exact H|].
  exact (proj2 (proj2 (proj2 (proj2 (tool_plan_properties "")))) _ _ _ H).
Defined.

Lemma planned_tools_prefix text n backend :
  planned_tools text n backend
  `prefix_of` (if bool_decide (backend = "none")
               then drop_llm (_tool_plan_for_text text)
               else _tool_plan_for_text text).
Proof. apply slice_to_prefix. Qed.

Lemma planned_tools_no_llm text n t :
  t ∈ planned_tools text n "none" -> t <> "llm".
Proof.
  intros Hin. destruct (planned_tools_prefix text n "none") as [k Hk].
  rewrite bool_decide_true in Hk by done.
  assert (t ∈ drop_llm (_tool_plan_for_text text)) as H.
  { rewrite Hk. apply elem_of_app. by left. }
  unfold drop_llm in H. by apply list_elem_of_filter in H as [? _].
Qed.

(** X16.  The tool list of a document: it is a prefix of the plan (of the
    plan without the model-assisted tool when no backend is configured), so
    it never has more than three tools, nor more than the step budget when
    that is not negative; without a backend it never contains the
    model-assisted tool; a budget of 0 runs nothing; a budget of three or
    more with a backend runs the whole plan. *)
Theorem planned_tools_bounds (text : string) (max_steps : Z) (backend : string) :
  planned_tools text max_steps backend
  `prefix_of` (if bool_decide (backend = "none")
               then drop_llm (_tool_plan_for_text text)
               else _tool_plan_for_text text) /\
  (length (planned_tools text max_steps backend) <= 3)%nat /\
  ((0 <= max_steps)%Z ->
   (length (planned_tools text max_steps backend) <= Z.to_nat max_steps)%nat) /\
  (backend = "none" ->
   ("llm" ∉ planned_tools text max_steps backend) /\
   (length (planned_tools text max_steps backend) <= 2)%nat) /\
  planned_tools text 0 backend = [] /\
  ((3 <= max_steps)%Z -> backend <> "none" ->
   planned_tools text max_steps backend = _tool_plan_for_text text).
Proof.
  pose proof (planned_tools_prefix text max_steps backend) as Hpre.
  split_and!.
  - exact Hpre.
  - apply prefix_length in Hpre. etrans; [exact Hpre|].
    destruct (plan_cases text) as [-> | ->];
      destruct (bool_decide (backend = "none")); simpl; lia.
  - intros Hn. unfold planned_tools. rewrite slice_to_nonneg by done.
    rewrite length_take. lia.
  - intros ->. split.
    + intros Hin. by apply planned_tools_no_llm in Hin.
    + apply prefix_length in Hpre. etrans; [exact Hpre|].
      by destruct (plan_cases text) as [-> | ->].
  - unfold planned_tools, slice_to. simpl. apply take_0.
  - intros Hn Hb. unfold planned_tools.
    rewrite bool_decide_false by done. rewrite slice_to_nonneg by lia.
    apply take_ge. destruct (plan_cases text) as [-> | ->]; simpl; lia.
Qed.

Lemma planned_tools_bounds_witness :
  "llm" ∉ planned_tools "AGILOX ONE" 4 "none".
Proof.
  exact (proj1 (proj1 (proj2 (proj2 (proj2
           (planned_tools_bounds "AGILOX ONE" 4 "none")))) eq_refl)).
Defined.


Section Provenance.

Variable ea : string -> list (list (string * value)).
Variable ef : string -> list string -> list (string * value).
Variable ek : string -> list (string * string).
Variable el : string -> string -> list (string * value).
Variables (text sid : string) (thr : Q) (backend : string).

Lemma run_tool_provenance tl new c :
_run_tool ea ef ek el tl text sid backend = Some new -> c ∈ new ->
cand_source_id c = sid /\ tool c = tl.
Proof.
unfold _run_tool. intros Hrun Hin.
destruct (extract_with_llm el text backend) as [d|];
  repeat case_bool_decide; simplify_eq.
- apply list_elem_of_fmap in Hin as (row & -> & _). done.
- by apply list_elem_of_singleton in Hin as ->.
- by apply list_elem_of_singleton in Hin as ->.
- by apply list_elem_of_singleton in Hin as ->.
- apply list_elem_of_fmap in Hin as (row & -> & _). done.
- by apply list_elem_of_singleton in Hin as ->.
- by apply list_elem_of_singleton in Hin as ->.
Qed.


End Provenance.

(** X17.  [_run_tool] raises exactly in two cases: a tool identifier
    outside the four known ones, and the model-assisted tool with a backend
    that [extract_with_llm] does not know.  Every candidate it returns
    carries the document identifier and the tool identifier it was called
    with; the generic and the key-value tool return exactly one candidate,
    the model-assisted tool exactly one for a known backend (an empty one
    for the backend [none]), the vendor-specific tool one per extracted
    row. *)
Theorem run_tool_candidates
    (ea : string -> list (list (string * value)))
    (ef : string -> list string -> list (string * value))
    (ek : string -> list (string * string))
    (el : string -> string -> list (string * value))
    (tl text sid backend : string) :
  (_run_tool ea ef ek el tl text sid backend = None
   <-> tl ∉ known_tools \/ (tl = "llm" /\ backend ∉ llm_backends)) /\
  (forall new c,
     _run_tool ea ef ek el tl text sid backend = Some new -> c ∈ new ->
     cand_source_id c = sid /\ tool c = tl) /\
  (tl ∈ ["regex_generic"; "key_value"] ->
   exists c, _run_tool ea ef ek el tl text sid backend = Some [c]) /\
  (tl = "llm" -> backend ∈ llm_backends ->
   exists c, _run_tool ea ef ek el tl text sid backend = Some [c]) /\
  (tl = "llm" -> backend = "none" ->
   _run_tool ea ef ek el tl text sid backend = Some [from_flat_dict [] sid "llm"]) /\
  (tl = "regex_agilox" ->
   exists new, _run_tool ea ef ek el tl text sid backend = Some new /\
               length new = length (ea text)).
Proof.
  split_and!.
  - apply run_None.
  - apply run_tool_provenance.
  - intros Hin.
    repeat (apply elem_of_cons in Hin as [->|Hin]; [by eexists|]).
    by apply elem_of_nil in Hin.
  - intros -> Hb.
    destruct (extract_with_llm_is_Some el text backend Hb) as [d Hd].
    unfold _run_tool. cbn. rewrite Hd. by eexists.
  - by intros -> ->.
  - intros ->. eexists. split; [reflexivity|]. by rewrite length_map.
Qed.

Lemma run_tool_candidates_witness :
  ("ocr" ∉ known_tools \/ ("ocr" = "llm" /\ "none" ∉ llm_backends)) /\
  _run_tool (fun _ => []) (fun _ _ => []) (fun _ => []) (fun _ _ => [])
    "ocr" "" "a.pdf" "none" = None /\
  ("llm" ∉ known_tools \/ ("llm" = "llm" /\ "gpt" ∉ llm_backends)) /\
  _run_tool (fun _ => []) (fun _ _ => []) (fun _ => []) (fun _ _ => [])
    "llm" "" "a.pdf" "gpt" = None.
Proof.
  assert ("ocr" ∉ known_tools \/ ("ocr" = "llm" /\ "none" ∉ llm_backends)) as H1.
  { left. by apply (bool_decide_unpack _). }
  assert ("llm" ∉ known_tools \/ ("llm" = "llm" /\ "gpt" ∉ llm_backends)) as H2.
  { right. split; [done|]. by apply (bool_decide_unpack _). }
  split_and!; [exact H1| |exact H2|].
  - exact (proj2 (proj1 (run_tool_candidates
                           (fun _ => []) (fun _ _ => []) (fun _ => [])
                           (fun _ _ => []) "ocr" "" "a.pdf" "none")) H1).
  - exact (proj2 (proj1 (run_tool_candidates
                           (fun _ => []) (fun _ _ => []) (fun _ => [])
                           (fun _ _ => []) "llm" "" "a.pdf" "gpt")) H2).
Defined.



(** * Further properties of the input enumeration *)

Lemma app_nil_l_str (t : string) : String.app EmptyString t = t.
Proof. reflexivity. Qed.

Lemma app_assoc_str (a b c : string) :
  String.app (String.app a b) c = String.app a (String.app b c).
Proof. induction a as [|x a IH]; [done|]. by rewrite !app_cons, IH. Qed.

Lemma length_app_str (a b : string) :
  String.length (String.app a b) = (String.length a + String.length b)%nat.
Proof. induction a as [|x a IH]; [done|]. rewrite app_cons. simpl. by rewrite IH. Qed.

Lemma rev_app_spec s acc :
  String.rev_app s acc = String.app (String.rev_app s EmptyString) acc.
Proof.
  revert acc. induction s as [|c s IH]; intros acc; [done|].
  cbn [String.rev_app]. rewrite (IH (String c acc)), (IH (String c EmptyString)).
  by rewrite app_assoc_str.
Qed.

Lemma rev_app_app s t acc :
  String.rev_app (String.app s t) acc = String.rev_app t (String.rev_app s acc).
Proof.
  revert acc. induction s as [|c s IH]; intros acc; [done|].
  rewrite app_cons. cbn [String.rev_app]. apply IH.
Qed.

Lemma ends_with_app s suffix : ends_with suffix (String.app s suffix) = true.
Proof.
  unfold ends_with, String.rev.
  rewrite rev_app_app, (rev_app_spec suffix (String.rev_app s EmptyString)).
  apply prefix_app_self.
Qed.

Lemma pdf_not_txt n : ends_with ".pdf" n = true -> ends_with ".txt" n = true -> False.
Proof.
  unfold ends_with. change (String.rev ".pdf") with "fdp.".
  change (String.rev ".txt") with "txt.".
  destruct (String.rev n) as [|c r]; [done|]. cbn -[ascii_dec].
  destruct (ascii_dec "f" c) as [<-|]; [|done]. intros _.
  by destruct (ascii_dec "t" "f").
Qed.

Lemma rfind_dot_app s t i :
  rfind_dot i (String.app s t)
  = match rfind_dot (i + String.length s) t with
    | Some j => Some j
    | None => rfind_dot i s
    end.
Proof.
  revert i. induction s as [|c s IH]; intros i.
  - rewrite app_nil_l_str. simpl. rewrite Nat.add_0_r.
    by destruct (rfind_dot i t).
  - rewrite app_cons. cbn [rfind_dot String.length].
    rewrite IH. replace (S i + String.length s)%nat
      with (i + S (String.length s))%nat by lia.
    by destruct (rfind_dot (i + S (String.length s)) t).
Qed.

Lemma substring_app_l s t :
  String.substring 0 (String.length s) (String.app s t) = s.
Proof.
  induction s as [|c s IH]; [by destruct t|].
  rewrite app_cons. simpl. by rewrite IH.
Qed.

Lemma stem_app_suffix s suffix :
  s <> EmptyString ->
  rfind_dot 0 suffix = Some 0%nat -> (2 <= String.length suffix)%nat ->
  stem (String.app s suffix) = s.
Proof.
  intros Hs Hdot Hlen. unfold stem.
  assert (forall n, rfind_dot n suffix = Some n) as Hshift.
  { destruct suffix as [|c r]; [done|]. simpl in Hdot. intros n. simpl.
    assert (forall a b, rfind_dot a r = None -> rfind_dot b r = None) as Hnone.
    { clear. induction r as [|x r IH]; [done|]. intros a b. simpl.
      destruct (rfind_dot (S a) r) eqn:E; [done|].
      rewrite (IH _ (S b) E). by destruct (bool_decide (x = "."%char)). }
    destruct (rfind_dot 1 r) eqn:E.
    - assert (forall a k, rfind_dot a r = Some k -> (a <= k)%nat) as Hge.
      { clear. induction r as [|x r IH]; [done|]. intros a k. simpl.
        destruct (rfind_dot (S a) r) eqn:E.
        - intros [= <-]. specialize (IH _ _ E). lia.
        - destruct (bool_decide (x = "."%char)); [|done]. intros [= <-]. lia. }
      injection Hdot as ->. specialize (Hge _ _ E). lia.
    - rewrite (Hnone _ (S n) E). by destruct (bool_decide (c = "."%char)). }
  rewrite rfind_dot_app, Hshift. simpl.
  rewrite length_app_str.
  assert (0 < String.length s)%nat as Hpos by (destruct s; [done|simpl; lia]).
  rewrite (proj2 (Nat.ltb_lt _ _)) by lia.
  rewrite (proj2 (Nat.ltb_lt _ _)) by lia.
  simpl. apply substring_app_l.
Qed.

Lemma joinpath_inj p : Inj (=) (=) (joinpath p).
Proof.
  intros x y H. unfold joinpath in H.
  apply (inj (String.app p)) in H. by apply (inj (String.app "/")) in H.
Qed.

(** X19.  What a directory yields: child paths of entries of the directory
    that end in [.pdf] or [.txt], every [.pdf] entry among them; every
    [.pdf] or [.txt] entry has its stem represented by a yielded file; and
    if the entry names are distinct, no path is yielded twice. *)
Theorem iter_inputs_directory_cover
    (fs : string -> option fs_node) (p : string) (names : list string) :
  fs p = Some (FsDir names) ->
  exists out,
    iter_inputs fs p = Some (map (joinpath p) out) /\
    (forall n, n ∈ out ->
       n ∈ names /\ (ends_with ".pdf" n = true \/ ends_with ".txt" n = true)) /\
    (forall n, n ∈ names -> ends_with ".pdf" n = true -> n ∈ out) /\
    (forall n, n ∈ names ->
       ends_with ".pdf" n = true \/ ends_with ".txt" n = true ->
       exists g, g ∈ out /\ stem g = stem n) /\
    (NoDup names -> NoDup (map (joinpath p) out)).
Proof.
  intros Hdir.
  set (pdfs := sorted_names (glob_suffix ".pdf" names)).
  set (txts := filter (fun f => stem f ∉ (list_to_set (map stem pdfs) : gset string))
                 (sorted_names (glob_suffix ".txt" names))).
  assert (forall n, n ∈ pdfs <-> n ∈ names /\ ends_with ".pdf" n = true) as Hpdf.
  { intros n. unfold pdfs. by rewrite sorted_names_perm, elem_of_glob_suffix. }
  assert (forall n, n ∈ txts <->
            (n ∈ names /\ ends_with ".txt" n = true) /\
            ~ exists g, g ∈ names /\ ends_with ".pdf" g = true /\ stem g = stem n)
    as Htxt.
  { intros n. unfold txts, pdfs.
    rewrite list_elem_of_filter, pdf_stem_shared.
    rewrite (sorted_names_perm (glob_suffix ".txt" names)), elem_of_glob_suffix.
    tauto. }
  exists (pdfs ++ txts). split_and!.
  - unfold iter_inputs. rewrite Hdir. by rewrite map_app.
  - intros n [Hn|Hn]%elem_of_app.
    + apply Hpdf in Hn as [? ?]. auto.
    + apply Htxt in Hn as [[? ?] _]. auto.
  - intros n Hn He. apply elem_of_app. left. by apply Hpdf.
  - intros n Hn [He|He].
    + exists n. split; [|done]. apply elem_of_app. left. by apply Hpdf.
    + destruct (decide (stem n ∈ (list_to_set (map stem pdfs) : gset string)))
        as [Hs|Hs].
      * apply elem_of_list_to_set, list_elem_of_fmap in Hs as (g & Hg & Hin).
        exists g. split; [|done]. apply elem_of_app. by left.
      * exists n. split; [|done]. apply elem_of_app. right.
        unfold txts. apply list_elem_of_filter. split; [done|].
        rewrite sorted_names_perm. by apply elem_of_glob_suffix.
  - intros Hnd. pose proof (joinpath_inj p) as Hinj.
    apply (NoDup_fmap_2 (joinpath p)).
    apply NoDup_app. split_and!.
    + unfold pdfs. rewrite sorted_names_perm. by apply NoDup_filter.
    + intros n [_ H1]%Hpdf [[_ H2] _]%Htxt. by apply (pdf_not_txt n).
    + unfold txts. apply NoDup_filter. rewrite sorted_names_perm.
      by apply NoDup_filter.
Qed.

Lemma iter_inputs_directory_cover_witness :
  exists out,
    iter_inputs fs_scenario "docs" = Some (map (joinpath "docs") out) /\
    (forall n, n ∈ ["b.txt"; "b.pdf"; "notes.txt"; "a.pdf"; "a.txt.txt"] ->
       ends_with ".pdf" n = true -> n ∈ out).
Proof.
  destruct (iter_inputs_directory_cover fs_scenario "docs"
              ["b.txt"; "b.pdf"; "notes.txt"; "a.pdf"; "a.txt.txt"] eq_refl)
    as (out & Hit & _ & Hpdf & _).
  exists out. by split.
Defined.

(** X20.  Stems and the PDF preference: for a non-empty [s] the stem of
    [s.pdf] and of [s.txt] is [s]; so in a directory that holds [s.pdf],
    the path of [s.pdf] is yielded and the path of [s.txt] is not, whether
    or not [s.txt] exists. *)
Theorem iter_inputs_prefers_pdf
    (fs : string -> option fs_node) (p s : string) (names : list string) :
  s <> EmptyString ->
  stem (String.app s ".pdf") = s /\
  stem (String.app s ".txt") = s /\
  (fs p = Some (FsDir names) -> String.app s ".pdf" ∈ names ->
   exists out,
     iter_inputs fs p = Some out /\
     joinpath p (String.app s ".pdf") ∈ out /\
     joinpath p (String.app s ".txt") ∉ out).
Proof.
  intros Hs.
  assert (stem (String.app s ".pdf") = s) as Hpdf
    by (apply stem_app_suffix; [done|reflexivity|simpl; lia]).
  assert (stem (String.app s ".txt") = s) as Htxt
    by (apply stem_app_suffix; [done|reflexivity|simpl; lia]).
  split_and!; [done|done|].
  intros Hdir Hin. eexists. split; [unfold iter_inputs; by rewrite Hdir|].
  assert (String.app s ".pdf" ∈ sorted_names (glob_suffix ".pdf" names)) as Hp.
  { rewrite sorted_names_perm. apply elem_of_glob_suffix.
    split; [done|apply ends_with_app]. }
  split.
  - apply elem_of_app. left. by apply list_elem_of_fmap_2.
  - intros [H|H]%elem_of_app.
    + apply list_elem_of_fmap in H as (g & Heq & Hg).
      apply joinpath_inj in Heq as <-.
      rewrite sorted_names_perm in Hg. apply elem_of_glob_suffix in Hg as [_ Hg].
      apply (pdf_not_txt _ Hg). apply ends_with_app.
    + apply list_elem_of_fmap in H as (g & Heq & Hg).
      apply joinpath_inj in Heq as <-.
      apply list_elem_of_filter in Hg as [Hg _]. apply Hg.
      rewrite Htxt, <- Hpdf. apply elem_of_list_to_set.
      by apply list_elem_of_fmap_2.
Qed.

Lemma iter_inputs_prefers_pdf_witness :
  "b" <> EmptyString /\
  fs_scenario "docs"
  = Some (FsDir ["b.txt"; "b.pdf"; "notes.txt"; "a.pdf"; "a.txt.txt"]) /\
  exists out,
    iter_inputs fs_scenario "docs" = Some out /\
    joinpath "docs" (String.app "b" ".pdf") ∈ out /\
    joinpath "docs" (String.app "b" ".txt") ∉ out.
Proof.
  assert ("b" <> EmptyString) as Hs by discriminate.
  assert (fs_scenario "docs"
          = Some (FsDir ["b.txt"; "b.pdf"; "notes.txt"; "a.pdf"; "a.txt.txt"]))
    as Hdir by reflexivity.
  split_and!; [exact Hs|exact Hdir|].
  apply (proj2 (proj2 (iter_inputs_prefers_pdf fs_scenario "docs" "b" _ Hs)) Hdir).
  by apply (bool_decide_unpack _).
Defined.

(** * The output row *)

Lemma foldl_insert_lookup (g : string -> value) (l : list string)
    (r0 : gmap string value) f :
  foldl (fun (row : gmap string value) name => <[name := g name]> row) r0 l !! f
  = if decide (f ∈ l) then Some (g f) else r0 !! f.
Proof.
  revert r0. induction l as [|x l IH]; intros r0; cbn [foldl].
  - rewrite decide_False; [done|]. by intros ?%elem_of_nil.
  - rewrite IH. destruct (decide (f ∈ l)) as [Hin|Hnin].
    + rewrite decide_True; [done|]. by right.
    + destruct (decide (x = f)) as [->|Hne].
      * rewrite lookup_insert_eq. rewrite decide_True; [done|]. by left.
      * rewrite lookup_insert_ne by done.
        rewrite decide_False; [done|].
        intros [?|?]%elem_of_cons; [by subst|done].
Qed.

Lemma evidence_fold_lookup (ev : gmap string Evidence) (row0 : gmap string value) :
  let r := map_fold (fun k e (row : gmap string value) =>
                       <[String.app "source_" k := opt_str (source_tool e)]>
                         (<[String.app "evidence_" k := opt_str (snippet e)]> row))
                    row0 ev in
  (forall k, r !! String.app "evidence_" k
             = match ev !! k with
               | Some e => Some (opt_str (snippet e))
               | None => row0 !! String.app "evidence_" k
               end) /\
  (forall k, r !! String.app "source_" k
             = match ev !! k with
               | Some e => Some (opt_str (source_tool e))
               | None => row0 !! String.app "source_" k
               end) /\
  (forall key, (forall k, key <> String.app "evidence_" k) ->
               (forall k, is_Some (ev !! k) -> key <> String.app "source_" k) ->
               r !! key = row0 !! key).
Proof.
  cbv zeta.
  apply (map_fold_weak_ind
           (fun r (m : gmap string Evidence) =>
              (forall k, r !! String.app "evidence_" k
                         = match m !! k with
                           | Some e => Some (opt_str (snippet e))
                           | None => row0 !! String.app "evidence_" k
                           end) /\
              (forall k, r !! String.app "source_" k
                         = match m !! k with
                           | Some e => Some (opt_str (source_tool e))
                           | None => row0 !! String.app "source_" k
                           end) /\
              (forall key, (forall k, key <> String.app "evidence_" k) ->
                           (forall k, is_Some (m !! k) ->
                                      key <> String.app "source_" k) ->
                           r !! key = row0 !! key))).
  - split_and!; intros; by rewrite ?lookup_empty.
  - intros i x m r Hi (He & Hs & Ho). split_and!.
    + intros k. rewrite lookup_insert_ne by (rewrite !app_cons; done).
      destruct (decide (i = k)) as [->|Hne].
      * by rewrite !lookup_insert_eq.
      * rewrite !lookup_insert_ne; [apply He|done|].
        intros Heq. by apply (inj (String.app "evidence_")) in Heq.
    + intros k. destruct (decide (i = k)) as [->|Hne].
      * by rewrite !lookup_insert_eq.
      * rewrite (lookup_insert_ne m) by done.
        rewrite !lookup_insert_ne; [apply Hs|rewrite !app_cons; done|].
        intros Heq. by apply (inj (String.app "source_")) in Heq.
    + intros key Hk1 Hk2.
      rewrite !lookup_insert_ne.
      * apply Ho; [done|]. intros k Hk. apply Hk2.
        apply lookup_insert_is_Some'. by right.
      * intros Heq. by apply (Hk1 i).
      * intros Heq. apply (Hk2 i); [|done]. rewrite lookup_insert_eq. eauto.
Qed.

Lemma confidence_fold_lookup (cf : gmap string Q) (row0 : gmap string value) :
  let r := map_fold (fun k conf (row : gmap string value) =>
                       <[String.app "confidence_" k := VNum conf]> row) row0 cf in
  (forall k, r !! String.app "confidence_" k
             = match cf !! k with
               | Some q => Some (VNum q)
               | None => row0 !! String.app "confidence_" k
               end) /\
  (forall key, (forall k, key <> String.app "confidence_" k) ->
               r !! key = row0 !! key).
Proof.
  cbv zeta.
  apply (map_fold_weak_ind
           (fun r (m : gmap string Q) =>
              (forall k, r !! String.app "confidence_" k
                         = match m !! k with
                           | Some q => Some (VNum q)
                           | None => row0 !! String.app "confidence_" k
                           end) /\
              (forall key, (forall k, key <> String.app "confidence_" k) ->
                           r !! key = row0 !! key))).
  - split; intros; by rewrite ?lookup_empty.
  - intros i x m r Hi (Hc & Ho). split.
    + intros k. destruct (decide (i = k)) as [->|Hne].
      * by rewrite !lookup_insert_eq.
      * rewrite !lookup_insert_ne; [apply Hc|done|].
        intros Heq. by apply (inj (String.app "confidence_")) in Heq.
    + intros key Hk. rewrite lookup_insert_ne; [by apply Ho|].
      intros Heq. by apply (Hk i).
Qed.

Lemma canonical_not_derived f k :
  f ∈ canonical ->
  f <> String.app "evidence_" k /\ f <> String.app "confidence_" k /\
  (k <> "id" -> f <> String.app "source_" k).
Proof.
  intros Hf. unfold canonical in Hf.
  repeat (apply elem_of_cons in Hf as [->|Hf];
          [split_and!; rewrite ?app_cons; try done|]).
  - intros Hk Heq. cbn in Heq. simplify_eq.
  - by apply elem_of_nil in Hf.
Qed.

(** X21.  The output row of a record whose tool trace is a list and whose
    evidence map has no entry under ["id"] (both hold for every merged
    record): the column of each canonical field other than the tool trace
    holds the record's value; the tool trace column is the comma-joined
    list, or null when the list is empty; for every name there is a
    [confidence_] column exactly when a confidence is recorded, holding it,
    and an [evidence_] and a [source_] column exactly when evidence is
    recorded, holding its snippet and its tool. *)
Theorem to_row_dict_columns (m : AGVSpec) (trace : list string) :
  tool_trace m = VList trace ->
  _evidence m !! "id" = None ->
  exists row,
    to_row_dict m = Some row /\
    (forall f, f ∈ canonical -> f <> "tool_trace" -> row !! f = Some (getattr m f)) /\
    row !! "tool_trace"
    = Some (if bool_decide (trace = []) then VNone
            else VStr (String.concat "," trace)) /\
    (forall k, row !! String.app "confidence_" k = VNum <$> _confidence m !! k) /\
    (forall k, row !! String.app "evidence_" k
               = (fun e => opt_str (snippet e)) <$> _evidence m !! k) /\
    (forall k, k <> "id" ->
               row !! String.app "source_" k
               = (fun e => opt_str (source_tool e)) <$> _evidence m !! k) /\
    (forall cands,
       tool_trace (merge_candidates cands) = VList (map tool cands) /\
       _evidence (merge_candidates cands) !! "id" = None).
Proof.
  intros Htrace Hid. unfold to_row_dict.
  set (row0 := foldl (fun (row : gmap string value) name =>
                        <[name := getattr m name]> row) ∅ canonical).
  assert (forall f, row0 !! f
                    = if decide (f ∈ canonical) then Some (getattr m f) else None)
    as H0.
  { intros f. unfold row0. by rewrite foldl_insert_lookup, lookup_empty. }
  destruct (evidence_fold_lookup (_evidence m) row0) as (He & Hs & Heo).
  cbv zeta in He, Hs, Heo.
  set (rowE := map_fold _ row0 (_evidence m)) in *.
  destruct (confidence_fold_lookup (_confidence m) rowE) as (Hc & Hco).
  cbv zeta in Hc, Hco.
  set (rowC := map_fold _ rowE (_confidence m)) in *.
  assert (forall k s, String.app s k ∉ canonical ->
                      row0 !! String.app s k = None) as Hnc.
  { intros k s Hn. rewrite H0. by rewrite decide_False. }
  assert (join_tool_trace (tool_trace m)
          = Some (if bool_decide (trace = []) then VNone
                  else VStr (String.concat "," trace))) as Hj.
  { rewrite Htrace. unfold join_tool_trace. simpl.
    by destruct (bool_decide (trace = [])). }
  rewrite Hj. eexists. split; [reflexivity|]. split_and!.
  - intros f Hf Hne. rewrite lookup_insert_ne by done.
    rewrite Hco; [|intros k; by apply canonical_not_derived].
    rewrite Heo.
    + rewrite H0. by rewrite decide_True.
    + intros k; by apply canonical_not_derived.
    + intros k Hk. apply canonical_not_derived; [done|].
      intros ->. rewrite Hid in Hk. by destruct Hk.
  - by rewrite lookup_insert_eq.
  - intros k. rewrite lookup_insert_ne by (rewrite app_cons; done).
    rewrite Hc. destruct (_confidence m !! k); [done|]. simpl.
    rewrite Heo.
    + apply Hnc. intros Hin. by apply (canonical_not_derived _ k) in Hin as (_ & ? & _).
    + intros k'. rewrite !app_cons. done.
    + intros k' _. rewrite !app_cons. done.
  - intros k. rewrite lookup_insert_ne by (rewrite app_cons; done).
    rewrite Hco by (intros k'; rewrite !app_cons; done).
    rewrite He. destruct (_evidence m !! k); [done|]. simpl.
    apply Hnc. intros Hin. by apply (canonical_not_derived _ k) in Hin as (? & _).
  - intros k Hk. rewrite lookup_insert_ne by (rewrite app_cons; done).
    rewrite Hco by (intros k'; rewrite !app_cons; done).
    rewrite Hs. destruct (_evidence m !! k); [done|]. simpl.
    apply Hnc. intros Hin.
    apply (canonical_not_derived _ k) in Hin as (_ & _ & Hin). by apply Hin.
  - intros cands. split; [apply merge_tool_trace|].
    rewrite merge_evidence.
    destruct (winner "id" cands) as [e|] eqn:He'; [|done].
    exfalso. assert (is_Some (winner "id" cands)) as Hw by eauto.
    apply winner_Some_iff in Hw as [Hcan _].
    revert Hcan. by apply (bool_decide_unpack _).
Qed.

Lemma to_row_dict_columns_witness :
  exists row,
    to_row_dict (merge_candidates [cand_payload_250; cand_payload_300]) = Some row /\
    row !! "tool_trace" = Some (VStr "regex_agilox,regex_generic") /\
    row !! "payload_kg" = Some (VNum 250).
Proof.
  destruct (to_row_dict_columns
              (merge_candidates [cand_payload_250; cand_payload_300])
              ["regex_agilox"; "regex_generic"] eq_refl eq_refl)
    as (row & Hrow & Hf & Ht & _).
  exists row. split_and!; [exact Hrow|exact Ht|].
  apply (Hf "payload_kg"); [by apply (bool_decide_unpack _)|discriminate].
Defined.

(** * The key-value extractor *)

Local Abbreviation bytes_of := list_ascii_of_string.

Lemma bytes_of_app a b : bytes_of (String.app a b) = bytes_of a ++ bytes_of b.
Proof. induction a as [|c a IH]; [done|]. rewrite app_cons. cbn. by rewrite IH. Qed.

Lemma bytes_of_inj a b : bytes_of a = bytes_of b -> a = b.
Proof.
  intros H. rewrite <- (string_of_list_ascii_of_string a),
    <- (string_of_list_ascii_of_string b). by rewrite H.
Qed.

Lemma bytes_of_rev_app s acc : bytes_of (String.rev_app s acc) = rev (bytes_of s) ++ bytes_of acc.
Proof.
  revert acc. induction s as [|c s IH]; intros acc; [done|].
  cbn [String.rev_app]. rewrite IH. cbn. by rewrite <- app_assoc.
Qed.

Lemma bytes_of_rev s : bytes_of (String.rev s) = rev (bytes_of s).
Proof. unfold String.rev. rewrite bytes_of_rev_app. cbn. by rewrite app_nil_r. Qed.

Lemma rev_rev_str s : String.rev (String.rev s) = s.
Proof. apply bytes_of_inj. by rewrite !bytes_of_rev, rev_involutive. Qed.

Lemma lstrip_spec s :
  exists pre, bytes_of s = pre ++ bytes_of (lstrip s) /\
              Forall (fun c => py_isspace c = true) pre.
Proof.
  induction s as [|c s (pre & Hpre & Hws)].
  - by exists [].
  - cbn [lstrip]. destruct (py_isspace c) eqn:Hc.
    + exists (c :: pre). split; [cbn; by rewrite Hpre|by constructor].
    + by exists [].
Qed.

Lemma lstrip_starts s : starts_ws (lstrip s) = false.
Proof.
  induction s as [|c s IH]; [done|].
  cbn [lstrip]. by destruct (py_isspace c) eqn:Hc.
Qed.

(** [strip] removes a run of whitespace at each end and nothing else. *)
Lemma strip_spec s :
  exists pre post,
    bytes_of s = pre ++ bytes_of (strip s) ++ post /\
    Forall (fun c => py_isspace c = true) pre /\
    Forall (fun c => py_isspace c = true) post.
Proof.
  unfold strip.
  destruct (lstrip_spec s) as (pre0 & H0 & Hws0).
  destruct (lstrip_spec (String.rev (lstrip s))) as (pre1 & H1 & Hws1).
  exists pre0, (rev pre1). split_and!; [|done|].
  - rewrite H0. f_equal. rewrite bytes_of_rev in H1.
    rewrite bytes_of_rev. rewrite <- rev_app_distr, <- H1. by rewrite rev_involutive.
  - by apply Forall_rev.
Qed.

Lemma strip_ends s : starts_ws (strip s) = false /\ ends_ws (strip s) = false.
Proof.
  unfold strip, ends_ws. split; [|by rewrite rev_rev_str, lstrip_starts].
  destruct (lstrip_spec (String.rev (lstrip s))) as (pre1 & H1 & _).
  set (b := lstrip (String.rev (lstrip s))) in *.
  pose proof (lstrip_starts s) as Ha.
  assert (bytes_of (lstrip s) = bytes_of (String.rev b) ++ rev pre1) as Hl.
  { rewrite bytes_of_rev in H1. rewrite bytes_of_rev, <- rev_app_distr, <- H1.
    by rewrite rev_involutive. }
  destruct (String.rev b) as [|c r]; [done|].
  destruct (lstrip s) as [|c' r']; [done|].
  cbn in Hl. injection Hl as -> _. exact Ha.
Qed.

Lemma strip_Forall (P : ascii -> Prop) s :
  Forall P (bytes_of s) -> Forall P (bytes_of (strip s)).
Proof.
  destruct (strip_spec s) as (pre & post & -> & _).
  intros H. apply Forall_app in H as [_ H]. by apply Forall_app in H as [H _].
Qed.

Lemma contains_char c s :
  contains (String c EmptyString) s = true <-> c ∈ bytes_of s.
Proof.
  induction s as [|x s IH].
  - cbn. split; [done|]. by intros ?%elem_of_nil.
  - cbn [contains String.prefix bytes_of]. rewrite orb_true_iff, IH.
    destruct (ascii_dec c x) as [->|Hne].
    + split; [intros _; by left|intros _; left; by destruct s].
    + split.
      * intros [?|?]; [done|by right].
      * intros [?|?]%elem_of_cons; [done|by right].
Qed.

Lemma contains_char_false c s :
  contains (String c EmptyString) s = false <-> c ∉ bytes_of s.
Proof.
  rewrite <- contains_char. by destruct (contains _ s).
Qed.

Lemma split_colon_spec s k v :
  split_colon s = Some (k, v) ->
  bytes_of s = bytes_of k ++ ":"%char :: bytes_of v /\ ":"%char ∉ bytes_of k.
Proof.
  revert k v. induction s as [|c s IH]; intros k v; [done|].
  cbn [split_colon]. case_bool_decide as Hc.
  - intros [= <- <-]. subst c. split; [done|]. by intros ?%elem_of_nil.
  - destruct (split_colon s) as [[k' v']|]; [|done].
    intros [= <- <-]. destruct (IH k' v' eq_refl) as [Heq Hn].
    split; [cbn; by rewrite Heq|]. cbn. intros [?|?]%elem_of_cons; [by subst|done].
Qed.

Lemma split_colon_is_Some s :
  contains ":" s = true -> is_Some (split_colon s).
Proof.
  rewrite contains_char. induction s as [|c s IH].
  - by intros ?%elem_of_nil.
  - intros Hin. cbn [split_colon]. case_bool_decide as Hc; [eauto|].
    cbn in Hin. apply elem_of_cons in Hin as [?|Hin]; [by subst|].
    destruct (IH Hin) as [[k v] ->]. eauto.
Qed.

Lemma sub_ws_from_chars b s :
  Forall (fun c => c = " "%char \/ (c ∈ bytes_of s /\ py_isspace c = false))
         (bytes_of (sub_ws_from b s)).
Proof.
  revert b. induction s as [|c s IH]; intros b; [constructor|].
  assert (forall b', Forall (fun c0 => c0 = " "%char \/
                                       (c0 ∈ bytes_of (String c s) /\ py_isspace c0 = false))
                            (bytes_of (sub_ws_from b' s))) as IH'.
  { intros b'. eapply Forall_impl; [apply IH|].
    intros x [?|[? ?]]; [by left|right; split; [by right|done]]. }
  cbn [sub_ws_from]. destruct (py_isspace c) eqn:Hc.
  - destruct b; [apply IH'|]. constructor; [by left|apply IH'].
  - constructor; [right; split; [by left|done]|apply IH'].
Qed.

Lemma forallb_of_Forall {A} (f : A -> bool) l :
  Forall (fun x => f x = true) l -> forallb f l = true.
Proof. induction 1 as [|x l Hx _ IH]; [done|]. cbn. by rewrite Hx, IH. Qed.

Lemma clean_only_space_ws s : only_space_ws (strip (sub_ws s)) = true.
Proof.
  unfold only_space_ws. apply forallb_of_Forall.
  apply strip_Forall. eapply Forall_impl; [apply (sub_ws_from_chars false s)|].
  intros c [->|[_ Hc]]; [done|]. by rewrite Hc.
Qed.

Lemma clean_no_colon s :
  ":"%char ∉ bytes_of s -> contains ":" (strip (sub_ws s)) = false.
Proof.
  intros Hn. apply contains_char_false. intros Hin.
  assert (Forall (fun c => c <> ":"%char) (bytes_of (strip (sub_ws s)))) as HF.
  { apply strip_Forall. eapply Forall_impl; [apply (sub_ws_from_chars false s)|].
    intros c [->|[Hc _]]; [done|]. by intros ->. }
  rewrite Forall_forall in HF. by apply (HF _ Hin).
Qed.

(** What one accepted line yields. *)
Lemma kv_line_Some line k v :
  kv_line line = Some (k, v) ->
  k <> "" /\ v <> "" /\ (String.length k <= 80)%nat /\
  contains ":" k = false /\
  starts_ws k = false /\ ends_ws k = false /\
  starts_ws v = false /\ ends_ws v = false /\
  only_space_ws k = true /\ only_space_ws v = true /\
  contains ":" line = true.
Proof.
  unfold kv_line.
  destruct (bool_decide (strip line = "") || negb (contains ":" (strip line)))
    eqn:Hskip; [done|].
  apply orb_false_iff in Hskip as [_ Hcol]. apply negb_false_iff in Hcol.
  destruct (split_colon (strip line)) as [[key value]|] eqn:Hsplit; [|done].
  destruct (bool_decide (strip (sub_ws key) = "")
            || bool_decide (strip (sub_ws value) = "")) eqn:Hempty; [done|].
  apply orb_false_iff in Hempty as [Hk Hv].
  apply bool_decide_eq_false in Hk, Hv.
  destruct (80 <? String.length (strip (sub_ws key)))%nat eqn:Hlen; [done|].
  apply Nat.ltb_ge in Hlen. intros [= <- <-].
  apply split_colon_spec in Hsplit as [_ Hnocolon].
  split_and!; try done; try apply strip_ends; try apply clean_only_space_ws.
  - by apply clean_no_colon.
  - apply contains_char. apply contains_char in Hcol.
    destruct (strip_spec line) as (pre & post & -> & _).
    apply elem_of_app; right. apply elem_of_app; by left.
Qed.

Lemma dict_set_keys k v kv :
  (dict_set k v kv).*1 = if decide (k ∈ kv.*1) then kv.*1 else kv.*1 ++ [k].
Proof.
  induction kv as [|[k' v'] kv IH].
  - cbn. rewrite decide_False; [done|]. by intros ?%elem_of_nil.
  - cbn [dict_set]. case_bool_decide as Hk.
    + subst k'. cbn. rewrite decide_True; [done|]. by left.
    + cbn [fmap list_fmap fst]. change (list_fmap _ _ fst ?l) with (l.*1).
      rewrite IH. destruct (decide (k ∈ kv.*1)) as [Hin|Hnin].
      * rewrite decide_True; [done|]. by right.
      * rewrite decide_False; [done|].
        intros [?|?]%elem_of_cons; [by subst|done].
Qed.

Lemma dict_set_elem k v kv : (k, v) ∈ dict_set k v kv.
Proof.
  induction kv as [|[k' v'] kv IH]; [by left|].
  cbn [dict_set]. case_bool_decide as Hk; [subst; by left|by right].
Qed.

Lemma dict_set_other k v kv k' v' :
  k' <> k -> (k', v') ∈ kv -> (k', v') ∈ dict_set k v kv.
Proof.
  intros Hne. induction kv as [|[k0 v0] kv IH]; [by intros ?%elem_of_nil|].
  cbn [dict_set]. intros [Heq|Hin]%elem_of_cons.
  - injection Heq as <- <-. rewrite bool_decide_false by done. by left.
  - case_bool_decide; right; [done|by apply IH].
Qed.

Lemma dict_set_elem_inv k v kv k' v' :
  (k', v') ∈ dict_set k v kv -> (k', v') = (k, v) \/ (k', v') ∈ kv.
Proof.
  induction kv as [|[k0 v0] kv IH].
  - intros [?|?%elem_of_nil]%elem_of_cons; [by left|done].
  - cbn [dict_set]. case_bool_decide as Hk.
    + subst k0. intros [?|?]%elem_of_cons; [by left|right; by right].
    + intros [->|Hin]%elem_of_cons; [right; by left|].
      destruct (IH Hin) as [?|?]; [by left|right; by right].
Qed.

Lemma kv_fold_keys lines :
  (foldl kv_step [] lines).*1
  = reverse (remove_dups (reverse (omap kv_line lines).*1)).
Proof.
  induction lines as [|line lines IH] using rev_ind; [done|].
  rewrite foldl_app, omap_app. cbn [foldl omap list_omap]. unfold kv_step at 1.
  destruct (kv_line line) as [[k v]|] eqn:Hl.
  - cbn [list_omap]. rewrite fmap_app, reverse_app.
    change ([(k, v)].*1) with [k]. rewrite reverse_singleton. cbn [app].
    rewrite dict_set_keys, IH. cbn [remove_dups].
    assert (k ∈ reverse (remove_dups (reverse (omap kv_line lines).*1))
            <-> k ∈ reverse (omap kv_line lines).*1) as Hiff.
    { by rewrite elem_of_reverse, elem_of_remove_dups. }
    destruct (decide_rel elem_of k (reverse (omap kv_line lines).*1)) as [Hin|Hnin].
    + rewrite decide_True; [done|]. by apply Hiff.
    + rewrite decide_False; [|by rewrite Hiff]. by rewrite reverse_cons.
  - cbn [list_omap]. by rewrite app_nil_r.
Qed.

Lemma kv_fold_elem lines k v :
  (k, v) ∈ foldl kv_step [] lines -> (k, v) ∈ omap kv_line lines.
Proof.
  induction lines as [|line lines IH] using rev_ind; [done|].
  rewrite foldl_app, omap_app. cbn [foldl omap list_omap]. unfold kv_step at 1.
  destruct (kv_line line) as [[k0 v0]|] eqn:Hl; cbn [list_omap].
  - intros [->|Hin]%dict_set_elem_inv; apply elem_of_app; [right; by left|].
    left. by apply IH.
  - rewrite app_nil_r. apply IH.
Qed.

Lemma kv_fold_last lines pre k v post :
  omap kv_line lines = pre ++ (k, v) :: post ->
  k ∉ post.*1 ->
  (k, v) ∈ foldl kv_step [] lines.
Proof.
  revert post. induction lines as [|line lines IH] using rev_ind; intros post.
  - cbn. by destruct pre.
  - rewrite foldl_app, omap_app. cbn [foldl omap list_omap]. unfold kv_step at 1.
    destruct (kv_line line) as [[k0 v0]|] eqn:Hl; cbn [list_omap].
    + destruct post as [|p post _] using rev_ind.
      * intros Heq _. apply app_inj_tail in Heq as [_ [= -> ->]].
        apply dict_set_elem.
      * rewrite app_comm_cons, app_assoc. intros Heq Hn.
        apply app_inj_tail in Heq as [Heq Hp]. subst p.
        rewrite fmap_app in Hn. apply dict_set_other.
        -- intros ->. apply Hn. apply elem_of_app; right. by left.
        -- apply (IH post); [done|]. intros Hin. apply Hn.
           apply elem_of_app; by left.
    + rewrite app_nil_r. apply IH.
Qed.

Lemma push_char_no c ch ls :
  ch <> c -> Forall (fun l => c ∉ bytes_of l) ls -> Forall (fun l => c ∉ bytes_of l) (push_char ch ls).
Proof.
  intros Hne [|l ls' Hl Hls]; cbn.
  - constructor; [|done]. intros [?|?%elem_of_nil]%elem_of_cons; by subst.
  - constructor; [|done]. cbn. intros [?|?]%elem_of_cons; [by subst|done].
Qed.

Lemma splitlines_from_no c b s :
  c ∉ bytes_of s -> Forall (fun l => c ∉ bytes_of l) (splitlines_from b s).
Proof.
  revert b. induction s as [|x s IH]; intros b Hn; [constructor|].
  cbn in Hn. apply not_elem_of_cons in Hn as [Hx Hs].
  cbn [splitlines_from].
  destruct (b && bool_decide (x = "010"%char)); [by apply IH|].
  destruct (is_linebreak x).
  - constructor; [by intros ?%elem_of_nil|by apply IH].
  - apply push_char_no; [done|by apply IH].
Qed.

(** X22.  For ASCII text, the table returned by
    [extract_key_values_from_text] has pairwise distinct keys; every key and
    value is non-empty, neither begins nor ends with whitespace and holds no
    whitespace character other than the space; a key holds no colon and at
    most 80 characters; a text without a colon gives the empty table. *)
Theorem extract_key_values_entries (text : string) :
  is_ascii text = true ->
  let kv := extract_key_values_from_text text in
  NoDup kv.*1 /\
  (forall k v, (k, v) ∈ kv ->
     k <> "" /\ v <> "" /\ (String.length k <= 80)%nat /\
     contains ":" k = false /\
     starts_ws k = false /\ ends_ws k = false /\
     starts_ws v = false /\ ends_ws v = false /\
     only_space_ws k = true /\ only_space_ws v = true) /\
  (contains ":" text = false -> kv = []).
Proof.
  intros _ kv. unfold kv, extract_key_values_from_text. split_and!.
  - rewrite kv_fold_keys, reverse_Permutation. apply NoDup_remove_dups.
  - intros k v Hin. apply kv_fold_elem in Hin.
    apply list_elem_of_omap in Hin as (line & _ & Hline).
    apply kv_line_Some in Hline.
    destruct Hline as (? & ? & ? & ? & ? & ? & ? & ? & ? & ? & _). by split_and!.
  - intros Hno. apply contains_char_false in Hno.
    pose proof (splitlines_from_no _ false _ Hno) as HF.
    fold (splitlines text) in HF.
    assert (omap kv_line (splitlines text) = []) as Hnil.
    { induction HF as [|l ls Hl _ IH]; [done|]. cbn.
      destruct (kv_line l) as [[k v]|] eqn:Hk; [|exact IH].
      apply kv_line_Some in Hk. exfalso. apply Hl.
      apply contains_char.
      by destruct Hk as (_ & _ & _ & _ & _ & _ & _ & _ & _ & _ & ?). }
    destruct (foldl _ [] (splitlines text)) as [|[k v] rest] eqn:Hf; [done|].
    assert ((k, v) ∈ omap kv_line (splitlines text)) as Hin.
    { apply kv_fold_elem. rewrite Hf. by left. }
    rewrite Hnil in Hin. by apply elem_of_nil in Hin.
Qed.

(** X23.  For ASCII text, the keys of the table stand in the order of their
    first accepted line, and each key carries the value of its last accepted
    line (an assignment to an existing key keeps the key's position). *)
Theorem extract_key_values_last_wins (text : string) :
  is_ascii text = true ->
  let kv := extract_key_values_from_text text in
  let ps := accepted_pairs text in
  kv.*1 = reverse (remove_dups (reverse ps.*1)) /\
  (forall pre k v post,
     ps = pre ++ (k, v) :: post -> k ∉ post.*1 -> (k, v) ∈ kv).
Proof.
  intros _ kv ps. split; [apply kv_fold_keys|].
  intros pre k v post Hps Hn. by apply (kv_fold_last _ pre k v post).
Qed.

Lemma extract_key_values_entries_witness :
  NoDup (extract_key_values_from_text text_kv_scenario).*1.
Proof.
  exact (proj1 (extract_key_values_entries text_kv_scenario eq_refl)).
Defined.

Lemma extract_key_values_last_wins_witness :
  ("Payload", "600 kg") ∈ extract_key_values_from_text text_kv_scenario.
Proof.
  apply (proj2 (extract_key_values_last_wins text_kv_scenario eq_refl)
               [("Payload", "500 kg"); ("Speed", "1.5 m/s")]
               "Payload" "600 kg" []);
    [reflexivity|apply not_elem_of_nil].
Defined.

(** * How the per-document loop ends *)




(** * The scalar fields of the raw key-value table *)

Lemma normalize_kv_item_scalar fs k v canon frags :
  (canon, frags) ∈ kv_vocabulary ->
  normalize_kv_item fs (k, v) !! canon
  = if key_matches frags k then Some (opt_num (_to_float v)) else fs !! canon.
Proof.
  intros Hin. unfold kv_vocabulary in Hin.
  unfold normalize_kv_item, key_matches.
  destruct (_parse_dimensions_mm v) as [[l w] h].
  repeat (apply elem_of_cons in Hin as [[= -> ->]|Hin];
          [cbn [existsb]; rewrite ?orb_false_r, ?orb_assoc; case_ifs;
           rewrite ?lookup_insert_ne by done; by rewrite ?lookup_insert_eq|]).
  by apply elem_of_nil in Hin.
Qed.

Lemma foldl_normalize_kv_no_match post fs canon frags :
  (canon, frags) ∈ kv_vocabulary ->
  (forall k' v', (k', v') ∈ post -> key_matches frags k' = false) ->
  foldl normalize_kv_item fs post !! canon = fs !! canon.
Proof.
  intros Hin. revert fs.
  induction post as [|[k v] post IH]; intros fs Hno; cbn [foldl]; [done|].
  rewrite IH by (intros k' v' ?; apply (Hno k' v'); by right).
  rewrite (normalize_kv_item_scalar _ _ _ _ _ Hin).
  by rewrite (Hno k v) by (by left).
Qed.

Lemma vocabulary_names (canon : string) (frags : list string) :
  (canon, frags) ∈ kv_vocabulary ->
  canon <> "device_name" /\
  (canon ∉ ["length_mm"; "width_mm"; "height_mm"]) /\
  (canon = "speed_m_s" \/ exists raw, (raw, canon) ∈ agilox_fill_ins).
Proof.
  intros Hin. unfold kv_vocabulary in Hin.
  repeat (apply elem_of_cons in Hin as [[= -> ->]|Hin];
          [split_and!; [done|by apply (bool_decide_unpack _)|];
           first [by left
                 |right; exists "max_last"; by apply (bool_decide_unpack _)
                 |right; exists "eigengewicht"; by apply (bool_decide_unpack _)
                 |right; exists "drehkreis"; by apply (bool_decide_unpack _)
                 |right; exists "max_hubhoehe"; by apply (bool_decide_unpack _)]|]).
  by apply elem_of_nil in Hin.
Qed.

(** X25.  The five scalar fields of the raw key-value table (payload,
    speed, weight, turning radius, lift height): after the key-value stage a
    field holds the number parsed from the value of the last key of the
    table that matches the field's vocabulary (null when that value has no
    number); when that value has a number, or the field is the speed, this
    is also the field's value in the normalized candidate.  When no key of
    the table matches, the stage leaves the field as it was. *)
Theorem normalize_kv_last_match
    (c : AGVSpecCandidate) (kv pre : list (string * string)) (k v : string)
    (post : list (string * string)) (canon : string) (frags : list string) :
  (canon, frags) ∈ kv_vocabulary ->
  fields c !! "_kv" = Some (VDict kv) ->
  (kv = pre ++ (k, v) :: post ->
   key_matches frags k = true ->
   (forall k' v', (k', v') ∈ post -> key_matches frags k' = false) ->
   normalize_kv (fields c) !! canon = Some (opt_num (_to_float v)) /\
   (canon = "speed_m_s" \/ is_Some (_to_float v) ->
    fields (normalize_candidate c) !! canon = Some (opt_num (_to_float v)))) /\
  ((forall k' v', (k', v') ∈ kv -> key_matches frags k' = false) ->
   normalize_kv (fields c) !! canon = fields c !! canon).
Proof.
  intros Hin Hkv.
  assert (normalize_kv (fields c) = foldl normalize_kv_item (fields c) kv) as Hn.
  { unfold normalize_kv, fget. by rewrite Hkv. }
  destruct (vocabulary_names _ _ Hin) as (Hdev & Hdim & Hlater).
  split.
  - intros -> Hk Hno.
    assert (normalize_kv (fields c) !! canon = Some (opt_num (_to_float v))) as Hst.
    { rewrite Hn, foldl_app. cbn [foldl].
      rewrite (foldl_normalize_kv_no_match _ _ _ _ Hin Hno).
      by rewrite (normalize_kv_item_scalar _ _ _ _ _ Hin), Hk. }
    split; [exact Hst|]. intros Hor.
    rewrite normalize_fields_unfold.
    rewrite normalize_names_other; [|apply normalize_stages_keep|done].
    destruct Hlater as [->|[raw Hraw]].
    + rewrite normalize_agilox_other by (by apply (bool_decide_unpack _)).
      by rewrite normalize_abmasse_other.
    + destruct Hor as [->|[q Hq]].
      * rewrite normalize_agilox_other by (by apply (bool_decide_unpack _)).
        by rewrite normalize_abmasse_other.
      * rewrite (normalize_fill_in_stage _ raw canon Hraw).
        unfold fget. rewrite !(normalize_abmasse_other _ canon) by done.
        rewrite Hst, Hq. cbn. by destruct (default VNone _).
  - intros Hno. rewrite Hn. by apply (foldl_normalize_kv_no_match _ _ _ _ Hin).
Qed.

Lemma normalize_kv_last_match_witness :
  fields (normalize_candidate (from_key_values kv_scenario "a.pdf" "key_value"))
    !! "payload_kg"
  = Some (VNum 500).
Proof.
  assert (("payload_kg", ["trag"; "payload"; "last"]) ∈ kv_vocabulary) as Hin
    by (by left).
  destruct (proj1 (normalize_kv_last_match
                     (from_key_values kv_scenario "a.pdf" "key_value")
                     kv_scenario [("Abmessungen", "1500 x 800 x 1200 mm")]
                     "Tragfähigkeit" "500 kg" []
                     "payload_kg" ["trag"; "payload"; "last"] Hin eq_refl)
                  eq_refl eq_refl)
    as [_ Hfinal].
  - intros k' v' Hel. by apply elem_of_nil in Hel.
  - apply Hfinal. right. by eexists.
Defined.
